(** * Workshop AI Controller: device-command reconciliation, LAN scan,
      CNC bridge, voice session teardown and the mock backend.

    A shallow embedding of the event handlers of [WorkshopControl.tsx]
    (the [NetworkScanner] and [WorkshopControl] components) and of
    [server.js].  Every handler is a function from the component state to
    a new state and the list of effects it emits (network requests,
    alerts, console output, socket sends, resource releases).  An
    [async] handler is split at its [await]: one function for the part
    that runs synchronously, one for the continuation that runs when the
    awaited promise settles.  What a [useCallback] closure captured at
    render time is passed explicitly, apart from the state at the time
    the handler runs. *)

From Stdlib Require Import ZArith List String Ascii Bool Lia Arith.
From Stdlib Require Import DecimalString DecimalNat QArith.
From Stdlib Require HexadecimalString.
From Stdlib Require Import Strings.Byte.
Import ListNotations.

Local Open Scope string_scope.
Local Open Scope Z_scope.
Local Open Scope list_scope.

Set Warnings "-register-all".

(** ** JSON values, as [JSON.parse] returns them and [JSON.stringify]
    receives them.  Numbers are restricted to integers; [undefined] is
    [None] of [option JValue]. *)

Inductive JValue : Type :=
| JNull
| JBool (v : bool)
| JNum (n : Z)
| JStr (s : string)
| JArr (items : list JValue)
| JObj (fields : list (string * JValue)).

(** Property read [v.key]: the last binding of a repeated key wins, a
    value that is no object has none of the keys read here. *)
Fixpoint lookup_field (key : string) (fields : list (string * JValue))
  : option JValue :=
  match fields with
  | [] => None
  | (k, v) :: rest =>
      match lookup_field key rest with
      | Some w => Some w
      | None => if String.eqb k key then Some v else None
      end
  end.

Definition get_field (key : string) (v : JValue) : option JValue :=
  match v with
  | JObj fields => lookup_field key fields
  | _ => None
  end.

(** JavaScript truthiness of a possibly undefined value. *)
Definition truthy (v : option JValue) : bool :=
  match v with
  | None => false
  | Some JNull => false
  | Some (JBool x) => x
  | Some (JNum n) => negb (n =? 0)
  | Some (JStr s) => negb (String.eqb s EmptyString)
  | Some (JArr _) => true
  | Some (JObj _) => true
  end.

(** [v === 'text'] *)
Definition is_str (text : string) (v : option JValue) : bool :=
  match v with
  | Some (JStr s) => String.eqb s text
  | _ => false
  end.

(** ** Effects a handler emits, in order. *)

Inductive Resource : Type :=
| MicStream          (* mediaStream.current *)
| InputContext       (* audioContext.current, 16 kHz *)
| ScriptProcessor    (* scriptProcessor.current *)
| StreamSource       (* mediaStreamSource.current *)
| OutputContext      (* outputAudioContext, 24 kHz *)
| LiveSession.       (* the session behind sessionPromise.current *)

Inductive Effect : Type :=
| Fetch (method url : string) (body : option JValue)
| Alert (msg : string)
| ConsoleError (msg : string)
| ConsoleLog (msg : string)
| WsSend (payload : JValue)
| Acquire (res : Resource)
| Release (res : Resource)
| ToolResponse (name result : string).

Definition is_fetch (e : Effect) : bool :=
  match e with Fetch _ _ _ => true | _ => false end.

Definition fetches (es : list Effect) : list Effect := filter is_fetch es.

(** ** Text

    A [string] holds text in UTF-8, one [ascii] per byte, as a string
    literal of this file does.  [String.prototype.trim] strips white
    space and line terminators from both ends: U+0009 to U+000D, U+0020,
    U+00A0, U+1680, U+2000 to U+200A, U+2028, U+2029, U+202F, U+205F,
    U+3000 and U+FEFF. *)

Definition byte_is (n : nat) (c : ascii) : bool := Nat.eqb (nat_of_ascii c) n.

(** The ones of one byte: U+0009 to U+000D and U+0020. *)
Definition is_space1 (c : ascii) : bool :=
  (Nat.leb 9 (nat_of_ascii c) && Nat.leb (nat_of_ascii c) 13) || byte_is 32 c.

(** The one of two bytes: U+00A0 is C2 A0. *)
Definition is_space2 (c a : ascii) : bool := byte_is 194 c && byte_is 160 a.

(** The ones of three bytes: U+1680 is E1 9A 80; U+2000 to U+200A are
    E2 80 80 to E2 80 8A; U+2028, U+2029 and U+202F are E2 80 A8,
    E2 80 A9 and E2 80 AF; U+205F is E2 81 9F; U+3000 is E3 80 80;
    U+FEFF is EF BB BF. *)
Definition is_space3 (c a b : ascii) : bool :=
  (byte_is 225 c && byte_is 154 a && byte_is 128 b)
  || (byte_is 226 c && byte_is 128 a
      && ((Nat.leb 128 (nat_of_ascii b) && Nat.leb (nat_of_ascii b) 138)
          || byte_is 168 b || byte_is 169 b || byte_is 175 b))
  || (byte_is 226 c && byte_is 129 a && byte_is 159 b)
  || (byte_is 227 c && byte_is 128 a && byte_is 128 b)
  || (byte_is 239 c && byte_is 187 a && byte_is 191 b).

(** [String.prototype.trimStart] *)
Fixpoint trim_start (s : string) : string :=
  match s with
  | EmptyString => EmptyString
  | String c rest =>
      if is_space1 c then trim_start rest
      else
        match rest with
        | String a rest1 =>
            if is_space2 c a then trim_start rest1
            else
              match rest1 with
              | String b rest2 =>
                  if is_space3 c a b then trim_start rest2 else s
              | EmptyString => s
              end
        | EmptyString => s
        end
  end.

(** The text holds nothing but white space. *)
Fixpoint all_space (s : string) : bool :=
  match s with
  | EmptyString => true
  | String c rest =>
      if is_space1 c then all_space rest
      else
        match rest with
        | String a rest1 =>
            if is_space2 c a then all_space rest1
            else
              match rest1 with
              | String b rest2 => is_space3 c a b && all_space rest2
              | EmptyString => false
              end
        | EmptyString => false
        end
  end.

(** [String.prototype.trimEnd]: the text is cut where only white space
    follows. *)
Fixpoint trim_end (s : string) : string :=
  match s with
  | EmptyString => EmptyString
  | String c rest =>
      if all_space s then EmptyString else String c (trim_end rest)
  end.

(** [String.prototype.trim] *)
Definition trim (s : string) : string := trim_end (trim_start s).

(** A visible ASCII character. *)
Definition plain (d : ascii) : Prop := (33 <= nat_of_ascii d < 128)%nat.

(** The text of the given bytes. *)
Definition bytes (l : list nat) : string :=
  string_of_list_ascii (map ascii_of_nat l).

(** U+00A0, the no-break space. *)
Definition NBSP : string := bytes [194; 160]%nat.

(** The white space characters and line terminators, in UTF-8. *)
Definition white_space : list string :=
  map bytes
    [[9]; [10]; [11]; [12]; [13]; [32]; [194; 160]; [225; 154; 128];
     [226; 128; 128]; [226; 128; 129]; [226; 128; 130]; [226; 128; 131];
     [226; 128; 132]; [226; 128; 133]; [226; 128; 134]; [226; 128; 135];
     [226; 128; 136]; [226; 128; 137]; [226; 128; 138]; [226; 128; 168];
     [226; 128; 169]; [226; 128; 175]; [226; 129; 159]; [227; 128; 128];
     [239; 187; 191]]%nat.

(** The outcome of an awaited [fetch]. *)
Inductive FetchOutcome : Type :=
| Responded (status : Z)   (* the promise resolved with this HTTP status *)
| NetworkFailed            (* the promise rejected: no route, CORS, reset *)
| TimedOut.                (* the abort signal of the timeout fired *)

(** [response.ok] *)
Definition response_ok (status : Z) : bool :=
  (200 <=? status) && (status <=? 299).

Definition fetch_succeeded (o : FetchOutcome) : bool :=
  match o with
  | Responded status => response_ok status
  | NetworkFailed => false
  | TimedOut => false
  end.

(** ** Smart light: [updateLightState] and [handleLightColorChange] *)

Module Light.

Inductive Power : Type := on | off.

Record LightState : Type := mkLightState
  { power : Power; r : Z; g : Z; b : Z }.

(** [Partial<LightState>] *)
Record PartialLightState : Type := mkPartial
  { p_power : option Power; p_r : option Z; p_g : option Z; p_b : option Z }.

Inductive LightConnectionStatus : Type :=
| Disconnected | Connecting | Connected | Error.

(** [keyof Omit<LightState, 'power'>] *)
Inductive Channel : Type := chR | chG | chB.

(** The light's React state; also what the [useCallback] closure of
    [updateLightState] captures (its dependency list names exactly these
    four values). *)
Record Panel : Type := mkPanel
  { lights : LightState;
    isUpdatingLight : bool;
    lightIpAddress : string;
    lightConnectionStatus : LightConnectionStatus }.

Definition setLights (v : LightState) (s : Panel) : Panel :=
  mkPanel v (isUpdatingLight s) (lightIpAddress s) (lightConnectionStatus s).

Definition setIsUpdatingLight (v : bool) (s : Panel) : Panel :=
  mkPanel (lights s) v (lightIpAddress s) (lightConnectionStatus s).

Definition setLightConnectionStatus (v : LightConnectionStatus) (s : Panel)
  : Panel :=
  mkPanel (lights s) (isUpdatingLight s) (lightIpAddress s) v.

Definition is_connected (c : LightConnectionStatus) : bool :=
  match c with Connected => true | _ => false end.

Definition or_else {A} (o : option A) (d : A) : A :=
  match o with Some x => x | None => d end.

Definition is_some {A} (o : option A) : bool :=
  match o with Some _ => true | None => false end.

(** [{ ...originalState, ...newState }] *)
Definition spread (o : LightState) (n : PartialLightState) : LightState :=
  {| power := or_else (p_power n) (power o);
     r := or_else (p_r n) (r o);
     g := or_else (p_g n) (g o);
     b := or_else (p_b n) (b o) |}.

(** [{ ...prev, [color]: value }] *)
Definition set_channel (c : Channel) (value : Z) (prev : LightState)
  : LightState :=
  match c with
  | chR => mkLightState (power prev) value (g prev) (b prev)
  | chG => mkLightState (power prev) (r prev) value (b prev)
  | chB => mkLightState (power prev) (r prev) (g prev) value
  end.

Definition power_json (p : Power) : JValue :=
  match p with on => JStr "on" | off => JStr "off" end.

Definition color_json (l : LightState) : JValue :=
  JObj [("r", JNum (r l)); ("g", JNum (g l)); ("b", JNum (b l))].

(** The [payload] object built in the [try] block, as a list of its keys
    in insertion order. *)
Definition payload_fields (newState : PartialLightState)
    (updatedState : LightState) : list (string * JValue) :=
  (match p_power newState with
   | Some p => [("power", power_json p)]
   | None => []
   end) ++
  (if is_some (p_r newState) || is_some (p_g newState)
      || is_some (p_b newState)
   then [("color", color_json updatedState)]
   else []).

Definition state_url (ip : string) : string := (trim ip ++ "/state")%string.

Definition console_msg : string := "Failed to update light state:".
Definition alert_msg : string :=
  "Error: Could not control the light. Check IP and network connection.".

(** What [updateLightState] did up to its [await]. *)
Inductive Started : Type :=
| Dropped                                (* the guard returned *)
| NothingToSend                          (* empty payload: early return *)
| InFlight (originalState : LightState). (* a POST is outstanding *)

(** [updateLightState], from the call to the [await fetch].  [env] is the
    render the closure belongs to, [s] the state when it runs. *)
Definition updateLightState_begin (env : Panel)
    (newState : PartialLightState) (s : Panel)
  : Panel * list Effect * Started :=
  if negb (is_connected (lightConnectionStatus env)) || isUpdatingLight env
  then (s, [], Dropped)
  else
    let originalState := lights env in
    let updatedState := spread originalState newState in
    let s1 := setIsUpdatingLight true (setLights updatedState s) in
    match payload_fields newState updatedState with
    | [] => (setIsUpdatingLight false s1, [], NothingToSend)
    | payload =>
        (s1,
         [Fetch "POST" (state_url (lightIpAddress env)) (Some (JObj payload))],
         InFlight originalState)
    end.

(** The continuation after the [await]: [catch] and [finally]. *)
Definition updateLightState_settle (originalState : LightState)
    (outcome : FetchOutcome) (s : Panel) : Panel * list Effect :=
  if fetch_succeeded outcome
  then (setIsUpdatingLight false s, [])
  else
    (setIsUpdatingLight false
       (setLightConnectionStatus Error (setLights originalState s)),
     [ConsoleError console_msg; Alert alert_msg]).

(** One whole call with nothing interleaved between request and reply. *)
Definition updateLightState (env : Panel) (newState : PartialLightState)
    (outcome : FetchOutcome) (s : Panel) : Panel * list Effect :=
  match updateLightState_begin env newState s with
  | (s1, es, InFlight originalState) =>
      let (s2, es') := updateLightState_settle originalState outcome s1 in
      (s2, es ++ es')
  | (s1, es, _) => (s1, es)
  end.

(** [handleConnectLight], up to its [await]: a GET of [<ip>/status]
    with a 3 s timeout. *)
Definition handleConnectLight_begin (env s : Panel) : Panel * list Effect :=
  if String.eqb (lightIpAddress env) EmptyString then (s, [])
  else (setLightConnectionStatus Connecting s,
        [Fetch "GET" (trim (lightIpAddress env) ++ "/status")%string None]).

(** ... and its continuation. *)
Definition handleConnectLight_settle (outcome : FetchOutcome) (s : Panel)
  : Panel * list Effect :=
  if fetch_succeeded outcome
  then (setLightConnectionStatus Connected s, [])
  else (setLightConnectionStatus Error s,
        [ConsoleError "Failed to connect to light:"]).

(** [handleDisconnectLight] *)
Definition handleDisconnectLight (s : Panel) : Panel :=
  setLightConnectionStatus Disconnected s.

(** [handleLightPowerToggle] *)
Definition toggle (l : LightState) : PartialLightState :=
  mkPartial (Some (match power l with on => off | off => on end))
            None None None.

(** *** The debounced colour sliders

    [setTimeout] and [clearTimeout] are modelled by a table of pending
    timers and a clock in milliseconds.  Timer ids are positive, as in a
    browser, so that the test [if (lightColorTimeoutRef.current)] holds
    for every id handed out. *)

Record Timer : Type := mkTimer
  { tid : nat;          (* the id [setTimeout] returned *)
    due : Z;            (* the time at which the callback may run *)
    closure : Panel }.  (* the render whose [updateLightState] it calls *)

Record Ctl : Type := mkCtl
  { panel : Panel;
    lightColorTimeoutRef : option nat;
    timers : list Timer;            (* pending callbacks, oldest first *)
    nextTimerId : nat;
    now : Z;
    outstanding : list LightState } (* snapshots of the POSTs in flight *).

Definition with_panel (p : Panel) (c : Ctl) : Ctl :=
  mkCtl p (lightColorTimeoutRef c) (timers c) (nextTimerId c) (now c)
        (outstanding c).

Definition clearTimeout (id : nat) (ts : list Timer) : list Timer :=
  filter (fun t => negb (Nat.eqb (tid t) id)) ts.

Definition DEBOUNCE_MS : Z := 250.

(** [handleLightColorChange(color, value)], called from render [env]. *)
Definition handleLightColorChange (env : Panel) (color : Channel)
    (value : Z) (c : Ctl) : Ctl :=
  let p1 := setLights (set_channel color value (lights (panel c))) (panel c) in
  let ts :=
    match lightColorTimeoutRef c with
    | Some (S _ as id) => clearTimeout id (timers c)
    | _ => timers c
    end in
  let id := nextTimerId c in
  mkCtl p1 (Some id)
        (ts ++ [mkTimer id (now c + DEBOUNCE_MS) env])
        (S id) (now c) (outstanding c).

(** A call of [updateLightState] from render [env], up to its [await];
    the snapshot of a request in flight is kept for its continuation. *)
Definition start_update (env : Panel) (newState : PartialLightState)
    (c : Ctl) : Ctl * list Effect :=
  match updateLightState_begin env newState (panel c) with
  | (p1, es, InFlight originalState) =>
      (mkCtl p1 (lightColorTimeoutRef c) (timers c) (nextTimerId c) (now c)
             (outstanding c ++ [originalState]), es)
  | (p1, es, _) => (with_panel p1 c, es)
  end.

(** The timer callback: [setLights(latestLights => { updateLightState({r,
    g, b}); return latestLights; })]. *)
Definition fire (t : Timer) (c : Ctl) : Ctl * list Effect :=
  let latestLights := lights (panel c) in
  start_update (closure t)
    (mkPartial None (Some (r latestLights)) (Some (g latestLights))
               (Some (b latestLights))) c.

Fixpoint fire_all (ts : list Timer) (c : Ctl) : Ctl * list Effect :=
  match ts with
  | [] => (c, [])
  | t :: rest =>
      let (c1, es1) := fire t c in
      let (c2, es2) := fire_all rest c1 in
      (c2, es1 ++ es2)
  end.

(** [dt] milliseconds pass: every timer that has come due runs, oldest
    first (all delays are equal, so that is also the order of the due
    times). *)
Definition advance (dt : Z) (c : Ctl) : Ctl * list Effect :=
  let t1 := now c + dt in
  let ready := filter (fun t => due t <=? t1) (timers c) in
  let waiting := filter (fun t => negb (due t <=? t1)) (timers c) in
  fire_all ready
    (mkCtl (panel c) (lightColorTimeoutRef c) waiting (nextTimerId c) t1
           (outstanding c)).

(** The reply to the oldest POST in flight arrives. *)
Definition reply (outcome : FetchOutcome) (c : Ctl) : Ctl * list Effect :=
  match outstanding c with
  | [] => (c, [])
  | originalState :: rest =>
      let (p1, es) := updateLightState_settle originalState outcome (panel c) in
      (mkCtl p1 (lightColorTimeoutRef c) (timers c) (nextTimerId c) (now c)
             rest, es)
  end.

(** [<fieldset disabled={!isLightConnected || isUpdatingLight}>]: the power
    button and the sliders inside it raise no event while it is
    disabled. *)
Definition fieldset_disabled (p : Panel) : bool :=
  negb (is_connected (lightConnectionStatus p)) || isUpdatingLight p.

(** A slider's [onChange]: the handler of the current render runs. *)
Definition slider_change (color : Channel) (value : Z) (c : Ctl) : Ctl :=
  if fieldset_disabled (panel c) then c
  else handleLightColorChange (panel c) color value c.

(** A slider change: the time since the previous event, the channel and
    the value. *)
Definition Change : Type := Z * Channel * Z.

Fixpoint slide (cs : list Change) (c : Ctl) : Ctl * list Effect :=
  match cs with
  | [] => (c, [])
  | (gap, color, value) :: rest =>
      let (c1, es1) := advance gap c in
      let (c2, es2) := slide rest (slider_change color value c1) in
      (c2, es1 ++ es2)
  end.

(** The changes, then the debounce delay with no further input. *)
Definition slide_and_settle (cs : list Change) (c : Ctl) : Ctl * list Effect :=
  let (c1, es1) := slide cs c in
  let (c2, es2) := advance DEBOUNCE_MS c1 in
  (c2, es1 ++ es2).

Definition apply_changes (cs : list Change) (l : LightState) : LightState :=
  fold_left (fun acc ch => set_channel (snd (fst ch)) (snd ch) acc) cs l.

(** *** Vocabulary of the light properties *)

Definition failed (o : FetchOutcome) : Prop := fetch_succeeded o = false.

(** The payload is not empty exactly when the partial state names a
    field. *)
Definition names_a_field (n : PartialLightState) : bool :=
  is_some (p_power n) || is_some (p_r n) || is_some (p_g n)
  || is_some (p_b n).

Definition enabled (p : Panel) : Prop :=
  lightConnectionStatus p = Connected /\ isUpdatingLight p = false.

(** After a slider change exactly one timer is pending: the one the ref
    names, due a full delay from now, closed over an enabled render. *)
Definition armed (ip : string) (c : Ctl) : Prop :=
  exists id env,
    lightColorTimeoutRef c = Some (S id)
    /\ timers c = [mkTimer (S id) (now c + DEBOUNCE_MS) env]
    /\ enabled env /\ lightIpAddress env = ip.

(** Between two changes of one burst the pending timer, if any, is the
    one the ref names and it is not due yet. *)
Definition waiting (ip : string) (c : Ctl) : Prop :=
  exists id env d,
    lightColorTimeoutRef c = Some (S id)
    /\ timers c = [mkTimer (S id) d env]
    /\ now c < d
    /\ enabled env /\ lightIpAddress env = ip.

Definition burst_inv (ip : string) (c : Ctl) : Prop :=
  enabled (panel c) /\ lightIpAddress (panel c) = ip
  /\ nextTimerId c <> 0%nat.

Definition in_window (ch : Change) : Prop :=
  0 <= fst (fst ch) < DEBOUNCE_MS.

(** The component as mounted, then connected to the light. *)
Definition initial_panel : Panel :=
  mkPanel (mkLightState off 255 220 180) false "http://192.168.1.50"
          Disconnected.

Definition connected_panel : Panel :=
  fst (handleConnectLight_settle (Responded 200)
         (fst (handleConnectLight_begin initial_panel initial_panel))).

Definition initial_ctl : Ctl :=
  mkCtl initial_panel None [] 1%nat 0 [].

Definition connected_ctl : Ctl :=
  mkCtl connected_panel None [] 1%nat 0 [].

(** (10,20,30), then (40,50,60), all within 100 ms. *)
Definition two_colors : list Change :=
  [(0, chR, 10); (10, chG, 20); (10, chB, 30);
   (50, chR, 40); (10, chG, 50); (10, chB, 60)].

End Light.

(** ** LAN scan: [NetworkScanner]

    [handleStartScan] starts all 254 probes in one synchronous loop and
    then awaits [Promise.allSettled]; what happens afterwards is driven by
    events: a probe's reply arrives, time passes (a per-request timer may
    fire), or the user presses Stop. *)

Module Scanner.

(** The state of one [fetch] promise. *)
Inductive ProbeState : Type :=
| Pending
| Fulfilled (ok : bool)   (* resolved, with this [response.ok] *)
| Rejected.               (* network error or abort *)

Record Probe : Type := mkProbe
  { index : nat;               (* the loop variable [i] *)
    ip : string;               (* [`${scanIpBase}.${i}`] *)
    timeoutAt : option Z;      (* the pending 1500 ms timer, if any *)
    controllerAborted : bool;  (* [perRequestController.signal.aborted] *)
    pstate : ProbeState }.

Record State : Type := mkState
  { scanIpBase : string;
    isScanning : bool;
    scanProgress : Z;
    scanResults : list string;
    scanAbortController : option bool;  (* the ref: null, or aborted? *)
    listening : bool;        (* [onGlobalAbort] is registered on the signal *)
    probes : list Probe;
    clock : Z }.

Definition PROBE_TIMEOUT_MS : Z := 1500.

Definition decimal (n : nat) : string :=
  NilEmpty.string_of_uint (Nat.to_uint n).

Definition address (base : string) (i : nat) : string :=
  (base ++ "." ++ decimal i)%string.

Definition status_url (a : string) : string :=
  ("http://" ++ a ++ "/status")%string.

Definition is_pending (p : Probe) : bool :=
  match pstate p with Pending => true | _ => false end.

Definition all_settled (ps : list Probe) : bool :=
  forallb (fun p => negb (is_pending p)) ps.

(** A settled probe: [finally] has cleared its timer. *)
Definition finish (st : ProbeState) (p : Probe) : Probe :=
  mkProbe (index p) (ip p) None (controllerAborted p) st.

(** [perRequestController.abort()]: a pending fetch rejects. *)
Definition abort_probe (p : Probe) : Probe :=
  if is_pending p
  then mkProbe (index p) (ip p) None true Rejected
  else mkProbe (index p) (ip p) (timeoutAt p) true (pstate p).

(** The 1500 ms timer of a probe runs: its controller aborts. *)
Definition timer_fires (p : Probe) : Probe :=
  mkProbe (index p) (ip p) None true
          (if is_pending p then Rejected else pstate p).

Definition count_pending (ps : list Probe) : Z :=
  Z.of_nat (List.length (filter is_pending ps)).

(** [handleStartScan], up to its [await]. *)
Definition new_probe (base : string) (t : Z) (i : nat) : Probe :=
  mkProbe i (address base i) (Some (t + PROBE_TIMEOUT_MS)) false Pending.

Definition handleStartScan (s : State) : State * list Effect :=
  let ps := map (new_probe (scanIpBase s) (clock s)) (seq 1 254) in
  (mkState (scanIpBase s) true 0 [] (Some false) true ps (clock s),
   map (fun p => Fetch "GET" (status_url (ip p)) None) ps).

(** What the network can answer to a probe. *)
Inductive Answer : Type :=
| Status (code : Z)
| Unreachable.

Definition answer_state (a : Answer) : ProbeState :=
  match a with
  | Status code => Fulfilled (response_ok code)
  | Unreachable => Rejected
  end.

Definition is_ok (st : ProbeState) : bool :=
  match st with Fulfilled true => true | _ => false end.

Inductive Event : Type :=
| Reply (i : nat) (a : Answer)   (* the fetch of probe [i] settles *)
| Tick (dt : Z)                  (* [dt] ms pass; due timers fire *)
| Stop.                          (* [handleStopScan] *)

(** The [finally] of [handleStartScan]: once every promise has settled
    the listener is removed and the scanning flag cleared. *)
Definition after_allSettled (s : State) : State :=
  if listening s && all_settled (probes s)
  then mkState (scanIpBase s) false (scanProgress s) (scanResults s)
               (scanAbortController s) false (probes s) (clock s)
  else s.

Definition hit (i : nat) (p : Probe) : bool :=
  Nat.eqb (index p) i && is_pending p.

Definition timer_due (t : Z) (p : Probe) : bool :=
  match timeoutAt p with Some d => d <=? t | None => false end.

Definition step (e : Event) (s : State) : State * list Effect :=
  match e with
  | Reply i a =>
      (* .then(response => { if (response.ok) setScanResults(...) })
         .catch(() => {}).finally(() => { clearTimeout; progress + 1 }) *)
      let touched := filter (hit i) (probes s) in
      let ps := map (fun p => if hit i p then finish (answer_state a) p else p)
                    (probes s) in
      let found := if is_ok (answer_state a) then map ip touched else [] in
      (after_allSettled
         (mkState (scanIpBase s) (isScanning s)
                  (scanProgress s + Z.of_nat (List.length touched))
                  (scanResults s ++ found)
                  (scanAbortController s) (listening s) ps (clock s)), [])
  | Tick dt =>
      (* setTimeout(() => perRequestController.abort(), 1500) *)
      let t := clock s + dt in
      let fired := filter (timer_due t) (probes s) in
      let ps := map (fun p => if timer_due t p then timer_fires p else p)
                    (probes s) in
      (after_allSettled
         (mkState (scanIpBase s) (isScanning s)
                  (scanProgress s + count_pending fired)
                  (scanResults s)
                  (scanAbortController s) (listening s) ps t), [])
  | Stop =>
      (* scanAbortControllerRef.current?.abort(); setIsScanning(false) *)
      match scanAbortController s with
      | Some false =>
          if listening s
          then (* onGlobalAbort *)
            (after_allSettled
               (mkState (scanIpBase s) false
                        (scanProgress s + count_pending (probes s))
                        (scanResults s) (Some true) true
                        (map abort_probe (probes s)) (clock s)), [])
          else
            (mkState (scanIpBase s) false (scanProgress s) (scanResults s)
                     (Some true) false (probes s) (clock s), [])
      | other =>
          (mkState (scanIpBase s) false (scanProgress s) (scanResults s)
                   other (listening s) (probes s) (clock s), [])
      end
  end.

Fixpoint run (es : list Event) (s : State) : State * list Effect :=
  match es with
  | [] => (s, [])
  | e :: rest =>
      let (s1, out1) := step e s in
      let (s2, out2) := run rest s1 in
      (s2, out1 ++ out2)
  end.

(** *** Vocabulary of the scan properties *)

(** The function a step maps over the probes. *)
Definition probe_map (e : Event) (s : State) : Probe -> Probe :=
  match e with
  | Reply i a => fun p => if hit i p then finish (answer_state a) p else p
  | Tick dt => fun p => if timer_due (clock s + dt) p then timer_fires p else p
  | Stop =>
      match scanAbortController s with
      | Some false => if listening s then abort_probe else fun p => p
      | _ => fun p => p
      end
  end.

(** The results are the addresses of the probes that returned ok. *)
Definition found_inv (s : State) : Prop :=
  forall a, In a (scanResults s) <->
            exists p, In p (probes s) /\ ip p = a /\ pstate p = Fulfilled true.

(** The probes a step adds to the results: those an ok reply settles. *)
Definition newly (e : Event) (p : Probe) : bool :=
  match e with
  | Reply i a => hit i p && is_ok (answer_state a)
  | _ => false
  end.

(** Every pending probe has its timer running, due by [limit]. *)
Definition timer_inv (limit : Z) (s : State) : Prop :=
  forall p, In p (probes s) -> is_pending p = true ->
            exists d, timeoutAt p = Some d /\ clock s < d <= limit.

(** The time a trace takes. *)
Fixpoint elapsed (es : list Event) : Z :=
  match es with
  | [] => 0
  | Tick dt :: rest => dt + elapsed rest
  | _ :: rest => elapsed rest
  end.

(** While a scan is under way either the global signal is armed, with
    [onGlobalAbort] listening, or nothing is left to abort. *)
Definition abortable (s : State) : Prop :=
  (scanAbortController s = Some false /\ listening s = true)
  \/ all_settled (probes s) = true.



(** The component as mounted. *)
Definition initial : State :=
  mkState "192.168.1" false 0 [] None false [] 0.

End Scanner.

(** ** CNC bridge: the WebSocket handlers of [connectUCCNC] and
    [sendCncCommand] *)

Module Cnc.

(** [WebSocket.readyState] *)
Inductive ReadyState : Type := CONNECTING | OPEN | CLOSING | CLOSED.

Record WebSocket : Type := mkWebSocket
  { url : string; readyState : ReadyState }.

(** The declared type of [cncStatus] is the union of five strings, but
    [setCncStatus(data.status)] stores whatever truthy value the bridge
    sent, so the state holds a JSON value; likewise for [gcodeFile], where
    [None] is [null]. *)
Record State : Type := mkState
  { cncStatus : JValue;
    gcodeFile : option JValue;
    gcodeProgress : Z;
    wsAddress : string;
    websocketRef : option WebSocket }.

Definition setCncStatus (v : JValue) (s : State) : State :=
  mkState v (gcodeFile s) (gcodeProgress s) (wsAddress s) (websocketRef s).

Definition setGcodeFile (v : option JValue) (s : State) : State :=
  mkState (cncStatus s) v (gcodeProgress s) (wsAddress s) (websocketRef s).

Definition setGcodeProgress (v : Z) (s : State) : State :=
  mkState (cncStatus s) (gcodeFile s) v (wsAddress s) (websocketRef s).

Definition set_websocketRef (v : option WebSocket) (s : State) : State :=
  mkState (cncStatus s) (gcodeFile s) (gcodeProgress s) (wsAddress s) v.

(** The [useState] initial values. *)
Definition initial : State :=
  mkState (JStr "Disconnected") None 0 "ws://192.168.1.123:8765" None.

Definition is_open (s : State) : bool :=
  match websocketRef s with
  | Some ws => match readyState ws with OPEN => true | _ => false end
  | None => false
  end.

(** [connectUCCNC], from a render that saw [wsAddress] and [cncStatus].
    [accepted] tells whether [new WebSocket(wsAddress)] accepts the
    address: it throws a [SyntaxError] otherwise, when the status has
    been set already, and neither the ref nor a handler is set. *)
Definition connectUCCNC (accepted : bool) (env s : State) : State :=
  if String.eqb (wsAddress env) EmptyString
     || negb (is_str "Disconnected" (Some (cncStatus env)))
  then s
  else if accepted
  then set_websocketRef (Some (mkWebSocket (wsAddress env) CONNECTING))
         (setCncStatus (JStr "Connecting") s)
  else setCncStatus (JStr "Connecting") s.

Definition open_msg : string := "WebSocket connection established.".
Definition parse_msg : string := "Failed to parse incoming WebSocket message:".
Definition error_msg : string := "WebSocket error:".
Definition close_msg : string := "WebSocket connection closed.".

Section Handlers.

(** [JSON.parse]: [None] when it throws a SyntaxError. *)
Variable JSON_parse : string -> option JValue.

(** The body of the [try] in [onmessage]; [None] when it throws.  Both
    throwing points (the parse, and the read of [data.status] when the
    message is the JSON text null) come before the first setter. *)
Definition onmessage_try (data : string) (s : State) : option State :=
  match JSON_parse data with
  | None => None
  | Some JNull => None
  | Some v =>
      let s1 := match get_field "status" v with
                | Some st => if truthy (Some st) then setCncStatus st s else s
                | None => s
                end in
      let s2 := match get_field "gcodeFile" v with
                | Some f => if truthy (Some f) then setGcodeFile (Some f) s1
                            else s1
                | None => s1
                end in
      let s3 := match get_field "progress" v with
                | Some (JNum n) => setGcodeProgress n s2
                | _ => s2
                end in
      Some s3
  end.

(** [websocketRef.current.onmessage] *)
Definition onmessage (data : string) (s : State) : State * list Effect :=
  match onmessage_try data s with
  | Some s1 => (s1, [])
  | None => (s, [ConsoleError parse_msg])
  end.

End Handlers.

(** [websocketRef.current.onopen] *)
Definition onopen (s : State) : State * list Effect :=
  (s, [ConsoleLog open_msg]).

(** [websocketRef.current.onerror] *)
Definition onerror (s : State) : State * list Effect :=
  (setCncStatus (JStr "Disconnected") s, [ConsoleError error_msg]).

(** [websocketRef.current.onclose] *)
Definition onclose (s : State) : State * list Effect :=
  (set_websocketRef None
     (setGcodeProgress 0
        (setGcodeFile None (setCncStatus (JStr "Disconnected") s))),
   [ConsoleLog close_msg]).

(** [sendCncCommand(command)] *)
Definition sendCncCommand (command : string) (s : State)
  : State * list Effect :=
  if is_open s
  then (s, [WsSend (JObj [("command", JStr command)])])
  else (s, []).

Definition handleCncPlay := sendCncCommand "play".
Definition handleCncPause := sendCncCommand "pause".
Definition handleCncStop := sendCncCommand "stop".

(** A parser for the JSON literals only, to run the handlers on. *)
Definition literal_parse (text : string) : option JValue :=
  if String.eqb text "null" then Some JNull
  else if String.eqb text "true" then Some (JBool true)
  else if String.eqb text "false" then Some (JBool false)
  else if String.eqb text "{}" then Some (JObj [])
  else None.

(** A bridge that is running a job. *)
Definition running : State :=
  mkState (JStr "Running") (Some (JStr "part.nc")) 42
          "ws://192.168.1.123:8765"
          (Some (mkWebSocket "ws://192.168.1.123:8765" OPEN)).

End Cnc.

(** ** Voice session: [startConversation], its live-session callbacks
    and [stopConversation] *)

Module Voice.

Inductive Speaker : Type := user | model.

(** The refs are modelled by whether they hold an object ([true]) or
    [null] ([false]); the objects themselves appear in the [Acquire] and
    [Release] effects.  [callbacks] is set while a live session exists and
    holds the [isListening] that the [stopConversation] closure captured
    by the session callbacks was created with. *)
Record State : Type := mkState
  { isListening : bool;
    transcripts : list (Speaker * string);
    sessionPromise : bool;
    mediaStream : bool;
    audioContext : bool;
    scriptProcessor : bool;
    mediaStreamSource : bool;
    currentInputTranscription : string;
    callbacks : option bool }.

Definition initial : State :=
  mkState false [] false false false false false EmptyString None.

Definition mic_msg : string :=
  "Could not access the microphone at the required sample rate (16000Hz). Please check permissions and that your device supports this sample rate.".
Definition key_msg : string :=
  "Please set your Gemini API key to use the voice assistant.".
Definition init_msg : string := "Error initializing audio input:".
Definition session_error_msg : string := "Session error:".
Definition session_closed_msg : string := "Session closed.".
Definition session_opened_msg : string := "Session opened.".

Definition when (c : bool) (es : list Effect) : list Effect :=
  if c then es else [].

(** [stopConversation], from a render that saw [isListening = listening].
    Each ref is released through [?.], so only if it holds an object, and
    is then set to [null]. *)
Definition stopConversation (listening : bool) (s : State)
  : State * list Effect :=
  if negb listening then (s, [])
  else
    (mkState false (transcripts s) false false false false false
             (currentInputTranscription s) (callbacks s),
     when (sessionPromise s) [Release LiveSession]
     ++ when (scriptProcessor s) [Release ScriptProcessor]
     ++ when (mediaStreamSource s) [Release StreamSource]
     ++ when (audioContext s) [Release InputContext]
     ++ when (mediaStream s) [Release MicStream]).

(** [!apiKey] *)
Definition no_key (apiKey : option string) : bool :=
  match apiKey with
  | None => true
  | Some k => String.eqb k EmptyString
  end.

(** [startConversation], from a render that saw [isListening = listening];
    the [stopConversation] its callbacks close over belongs to the same
    render. *)
Definition startConversation (listening : bool) (apiKey : option string)
    (s : State) : State * list Effect :=
  if listening || no_key apiKey
  then (s, when (no_key apiKey) [Alert key_msg])
  else
    (mkState true [] true (mediaStream s) (audioContext s)
             (scriptProcessor s) (mediaStreamSource s) EmptyString
             (Some listening),
     [Acquire OutputContext; Acquire LiveSession]).

(** Whether [getUserMedia] granted the microphone at 16 kHz. *)
Inductive MicResult : Type := MicGranted | MicRefused.

(** The [onopen] callback of the live session. *)
Definition session_onopen (mic : MicResult) (s : State)
  : State * list Effect :=
  match callbacks s with
  | None => (s, [])
  | Some listening =>
      let s1 := mkState (isListening s) (transcripts s) (sessionPromise s)
                        (mediaStream s) true (scriptProcessor s)
                        (mediaStreamSource s) (currentInputTranscription s)
                        (callbacks s) in
      match mic with
      | MicGranted =>
          (mkState (isListening s) (transcripts s) (sessionPromise s)
                   true true true true (currentInputTranscription s)
                   (callbacks s),
           [ConsoleLog session_opened_msg; Acquire InputContext;
            Acquire MicStream; Acquire StreamSource; Acquire ScriptProcessor])
      | MicRefused =>
          let (s2, es) := stopConversation listening s1 in
          (s2,
           [ConsoleLog session_opened_msg; Acquire InputContext;
            ConsoleError init_msg; Alert mic_msg] ++ es)
      end
  end.

(** [addTranscript] *)
Definition addTranscript (who : Speaker) (text : string) (s : State) : State :=
  if String.eqb (trim text) EmptyString then s
  else mkState (isListening s) (transcripts s ++ [(who, text)])
               (sessionPromise s) (mediaStream s) (audioContext s)
               (scriptProcessor s) (mediaStreamSource s)
               (currentInputTranscription s) (callbacks s).

Definition set_currentInputTranscription (t : string) (s : State) : State :=
  mkState (isListening s) (transcripts s) (sessionPromise s) (mediaStream s)
          (audioContext s) (scriptProcessor s) (mediaStreamSource s) t
          (callbacks s).

(** The [onmessage] callback, for a message with
    [serverContent.inputTranscription]. *)
Definition session_onmessage_transcription (text : string) (s : State)
  : State * list Effect :=
  (set_currentInputTranscription
     (currentInputTranscription s ++ text)%string s, []).

(** The [onmessage] callback, for a message with
    [serverContent.turnComplete]. *)
Definition session_onmessage_turnComplete (s : State)
  : State * list Effect :=
  (set_currentInputTranscription EmptyString
     (addTranscript user (currentInputTranscription s) s), []).

(** [onerror: (e) => console.error("Session error:", e)] *)
Definition session_onerror (s : State) : State * list Effect :=
  (s, [ConsoleError session_error_msg]).

(** [onclose: () => console.log('Session closed.')] *)
Definition session_onclose (s : State) : State * list Effect :=
  (s, [ConsoleLog session_closed_msg]).

(** The ways out of a session the teardown is specified for. *)
Inductive Exit : Type :=
| UserStop            (* the Stop Conversation button *)
| MicInitFailure      (* [onopen] could not get the microphone *)
| ServerError         (* the session's [onerror] *)
| TurnCompletion.     (* a message with [turnComplete] *)

(** The code that runs on each of them.  The Stop button is rendered only
    while [isListening], and its handler belongs to that render. *)
Definition leave (x : Exit) (s : State) : State * list Effect :=
  match x with
  | UserStop => stopConversation (isListening s) s
  | MicInitFailure => session_onopen MicRefused s
  | ServerError => session_onerror s
  | TurnCompletion => session_onmessage_turnComplete s
  end.

(** The ref that holds a resource, if it is kept in one;
    [outputAudioContext] is a local of [startConversation]. *)
Definition held (res : Resource) (s : State) : bool :=
  match res with
  | MicStream => mediaStream s
  | InputContext => audioContext s
  | ScriptProcessor => scriptProcessor s
  | StreamSource => mediaStreamSource s
  | LiveSession => sessionPromise s
  | OutputContext => false
  end.

Definition Resource_eqb (a b : Resource) : bool :=
  match a, b with
  | MicStream, MicStream | InputContext, InputContext
  | ScriptProcessor, ScriptProcessor | StreamSource, StreamSource
  | OutputContext, OutputContext | LiveSession, LiveSession => true
  | _, _ => false
  end.

(** How many times [res] is released in a run of effects. *)
Definition releases (res : Resource) (es : list Effect) : nat :=
  List.length
    (filter (fun e => match e with
                      | Release x => Resource_eqb x res
                      | _ => false
                      end) es).

(** A session in full swing: started from the idle component, microphone
    granted. *)
Definition streaming : State :=
  fst (session_onopen MicGranted
         (fst (startConversation false (Some "key") initial))).

End Voice.

(** ** The [WorkshopControl] component as a whole: every handler that
    writes the light, camera or dust-collector state *)

Module Workshop.
Import Light.

(** [camera]: [{ power, recording }] *)
Record Camera : Type := mkCamera { cam_power : bool; recording : bool }.

(** A function call of the live session, with its arguments typed as the
    function declarations [controlDustCollector], [controlLights],
    [controlCamera], [startCncCycle], [pauseCncCycle] and [stopCncCycle]
    declare them. *)
Inductive FunctionCall : Type :=
| controlDustCollector (power : string)
| controlLights (newLightState : PartialLightState)
| controlCamera (power : option string) (rec : option bool)
| startCncCycle
| pauseCncCycle
| stopCncCycle
| otherFunction (name : string).

Definition fc_name (fc : FunctionCall) : string :=
  match fc with
  | controlDustCollector _ => "controlDustCollector"
  | controlLights _ => "controlLights"
  | controlCamera _ _ => "controlCamera"
  | startCncCycle => "startCncCycle"
  | pauseCncCycle => "pauseCncCycle"
  | stopCncCycle => "stopCncCycle"
  | otherFunction name => name
  end.

(** [voiceLight] is the render whose [applyLightStateFromVoice] the
    callbacks of the live session closed over. *)
Record State : Type := mkState
  { dustCollectorOn : bool;
    camera : Camera;
    light : Ctl;
    cnc : Cnc.State;
    voice : Voice.State;
    voiceLight : Panel }.

Definition setDustCollectorOn (v : bool) (s : State) : State :=
  mkState v (camera s) (light s) (cnc s) (voice s) (voiceLight s).

Definition setCamera (v : Camera) (s : State) : State :=
  mkState (dustCollectorOn s) v (light s) (cnc s) (voice s) (voiceLight s).

Definition set_light (v : Ctl) (s : State) : State :=
  mkState (dustCollectorOn s) (camera s) v (cnc s) (voice s) (voiceLight s).

Definition set_cnc (v : Cnc.State) (s : State) : State :=
  mkState (dustCollectorOn s) (camera s) (light s) v (voice s) (voiceLight s).

Definition in_light (res : Ctl * list Effect) (s : State)
  : State * list Effect :=
  (set_light (fst res) s, snd res).

Definition in_cnc (res : Cnc.State * list Effect) (s : State)
  : State * list Effect :=
  (set_cnc (fst res) s, snd res).

Definition camera_msg : string :=
  "Could not access the camera. Please check permissions.".

(** The state writes of one function call in the [toolCall] branch of the
    session's [onmessage]. *)
Definition call (fc : FunctionCall) (s : State) : State * list Effect :=
  match fc with
  | controlDustCollector power =>
      (setDustCollectorOn (String.eqb power "on") s, [])
  | controlLights newLightState =>
      (* applyLightStateFromVoice(newLightState) *)
      in_light (start_update (voiceLight s) newLightState (light s)) s
  | controlCamera power rec =>
      (setCamera
         (mkCamera
            (match power with
             | Some p => String.eqb p "on"
             | None => cam_power (camera s)
             end)
            (match rec with
             | Some v => v
             | None => recording (camera s)
             end)) s, [])
  | startCncCycle => in_cnc (Cnc.handleCncPlay (cnc s)) s
  | pauseCncCycle => in_cnc (Cnc.handleCncPause (cnc s)) s
  | stopCncCycle => in_cnc (Cnc.handleCncStop (cnc s)) s
  | otherFunction _ => (s, [])
  end.

(** One function call, with the tool response sent while the session ref
    is set. *)
Definition toolCall (fc : FunctionCall) (s : State) : State * list Effect :=
  let (s1, es) := call fc s in
  (s1, es ++ Voice.when (Voice.sessionPromise (voice s1))
                        [ToolResponse (fc_name fc) "ok"]).

(** What can happen to the component. *)
Inductive Action : Type :=
| LightPowerClick                            (* [handleLightPowerToggle] *)
| LightSlider (color : Channel) (value : Z)  (* [handleLightColorChange] *)
| TimePasses (dt : Z)                        (* the debounce timer runs *)
| LightReply (outcome : FetchOutcome)        (* the POST settles *)
| CameraPowerClick
| CameraRecordClick
| DustCollectorClick
| CameraEffect (granted : bool)              (* [manageCameraStream] *)
| VoiceStart (apiKey : option string)        (* [startConversation] *)
| VoiceToolCall (fc : FunctionCall).

Definition act (a : Action) (s : State) : State * list Effect :=
  match a with
  | LightPowerClick =>
      if fieldset_disabled (panel (light s)) then (s, [])
      else in_light (start_update (panel (light s))
                       (toggle (lights (panel (light s)))) (light s)) s
  | LightSlider color value =>
      (set_light (slider_change color value (light s)) s, [])
  | TimePasses dt => in_light (advance dt (light s)) s
  | LightReply outcome => in_light (reply outcome (light s)) s
  | CameraPowerClick =>
      (setCamera (mkCamera (negb (cam_power (camera s)))
                           (recording (camera s))) s, [])
  | CameraRecordClick =>
      if cam_power (camera s)
      then (setCamera (mkCamera (cam_power (camera s))
                                (negb (recording (camera s)))) s, [])
      else (s, [])
  | DustCollectorClick => (setDustCollectorOn (negb (dustCollectorOn s)) s, [])
  | CameraEffect granted =>
      if cam_power (camera s)
      then if granted then (s, [])
           else (setCamera (mkCamera false (recording (camera s))) s,
                 [Alert camera_msg])
      else if recording (camera s)
           then (setCamera (mkCamera (cam_power (camera s)) false) s, [])
           else (s, [])
  | VoiceStart apiKey =>
      let (v, es) :=
        Voice.startConversation (Voice.isListening (voice s)) apiKey
                                (voice s) in
      (mkState (dustCollectorOn s) (camera s) (light s) (cnc s) v
               (if Voice.isListening (voice s) || Voice.no_key apiKey
                then voiceLight s else panel (light s)), es)
  | VoiceToolCall fc => toolCall fc s
  end.

(** The paths that write through [updateLightState]. *)
Definition via_reconciler (a : Action) : bool :=
  match a with
  | LightPowerClick => true
  | TimePasses _ => true
  | LightReply _ => true
  | VoiceToolCall (controlLights _) => true
  | _ => false
  end.

(** The device state the spec speaks of. *)
Definition device_state (s : State) : LightState * Camera * bool :=
  (lights (panel (light s)), camera s, dustCollectorOn s).

(** The component as mounted. *)
Definition initial : State :=
  mkState false (mkCamera false false) initial_ctl Cnc.initial Voice.initial
          initial_panel.

(** The component once the light is connected. *)
Definition connected : State := set_light connected_ctl initial.

End Workshop.

(** ** The mock backend: [server.js] *)

Module Server.

(** [lightState]: [{ power, color: { r, g, b } }]; the colour members are
    whatever JSON values the last colour request carried. *)
Record LightState : Type := mkLightState
  { power : string; color : JValue * JValue * JValue }.

Record State : Type := mkState
  { googleToken : option string;   (* [None] is [null] *)
    lightState : LightState }.

(** The server as started. *)
Definition initial : State :=
  mkState None (mkLightState "off" (JNum 255, JNum 255, JNum 255)).

(** A response: its status and its JSON body, [None] when the body is
    not JSON. *)
Record Response : Type := mkResponse { status : Z; body : option JValue }.

Definition error (code : Z) (message : string) : Response :=
  mkResponse code
    (Some (JObj [("status", JStr "ERROR"); ("message", JStr message)])).

Definition success : Response :=
  mkResponse 200 (Some (JObj [("status", JStr "SUCCESS")])).

(** What Express answers for a handler that throws: no error handler is
    installed, so the default one sends status 500 with an HTML page. *)
Definition uncaught : Response := mkResponse 500 None.

(** What a route handler does before it returns: answer at once, set a
    timer that will answer, or throw. *)
Inductive Reaction : Type :=
| Now (res : Response)
| After (ms : Z) (requested : string)
| Throws.

(** [!googleToken] *)
Definition no_token (st : State) : bool :=
  match googleToken st with
  | None => true
  | Some t => String.eqb t EmptyString
  end.

(** [POST /api/auth/verify], at time [now] of [Date.now()]. *)
Definition auth_verify (now : N) (st : State) : State * Response :=
  (mkState (Some ("simulated_google_access_token_"
                  ++ NilEmpty.string_of_uint (N.to_uint now))%string)
           (lightState st),
   mkResponse 200
     (Some (JObj [("status", JStr "SUCCESS");
                  ("user", JObj [("email", JStr "user@gmail.com")])]))).

(** [POST /api/auth/logout] *)
Definition auth_logout (st : State) : State * Response :=
  (mkState None (lightState st), success).

(** [const { power } = req.body] followed by the test
    [power !== 'on' && power !== 'off']: the power if it passes. *)
Definition requested_power (req_body : JValue) : option string :=
  match get_field "power" req_body with
  | Some (JStr p) =>
      if String.eqb p "on" || String.eqb p "off" then Some p else None
  | _ => None
  end.

(** [req.body.power], read without destructuring: [undefined] when
    there is no body. *)
Definition power_field (req_body : option JValue) : option JValue :=
  match req_body with
  | Some b => get_field "power" b
  | None => None
  end.

(** [app.post('/api/lights/power', ...)], up to its [setTimeout].
    [req_body] is [req.body] as the handler finds it: [None] is
    [undefined], for a request that carried no JSON body, and then
    [const { power } = req.body] throws a [TypeError]. *)
Definition lights_power (req_body : option JValue) (st : State)
  : State * Reaction :=
  if no_token st
  then (st, Now (error 401 "Not authenticated"))
  else
    match req_body with
    | None => (st, Throws)
    | Some b =>
        match requested_power b with
        | None => (st, Now (error 400 "Invalid power state"))
        | Some p => (st, After 500 p)
        end
    end.

(** [Math.random() > 0.95] *)
Definition simulated_failure (random : Q) : bool :=
  negb (Qle_bool random (95 # 100)).

(** The timer callback of [/api/lights/power], run on the state of that
    moment with the value [Math.random()] returned. *)
Definition lights_power_timeout (requested : string) (random : Q)
    (st : State) : State * Response :=
  if simulated_failure random
  then (st, error 500 "Failed to execute command")
  else (mkState (googleToken st)
                (mkLightState requested (color (lightState st))),
        success).

(** One request from arrival to response, with no other request in
    between. *)
Definition serve_lights_power (req_body : option JValue) (random : Q)
    (st : State) : State * Response :=
  match lights_power req_body st with
  | (st1, Now res) => (st1, res)
  | (st1, After _ requested) => lights_power_timeout requested random st1
  | (st1, Throws) => (st1, uncaught)
  end.

(** A server that has been through [/api/auth/verify]. *)
Definition authenticated : State := fst (auth_verify 1700000000%N initial).

End Server.

(** ** More of the light panel: what the render derives from the state,
    and runs of actions *)

Module LightUi.
Import Light.

(** [isLightConnected] *)
Definition isLightConnected (p : Panel) : bool :=
  is_connected (lightConnectionStatus p).

(** [isLightConnectable] *)
Definition isLightConnectable (p : Panel) : bool :=
  match lightConnectionStatus p with
  | Disconnected | Error => true
  | _ => false
  end.

(** The Connect/Disconnect button: [onClick={isLightConnectable ?
    handleConnectLight : handleDisconnectLight}], disabled while
    Connecting. *)
Definition connect_button (p : Panel) : Panel * list Effect :=
  match lightConnectionStatus p with
  | Connecting => (p, [])
  | Connected => (handleDisconnectLight p, [])
  | _ => handleConnectLight_begin p p
  end.

(** The member [key] of a request body, if the effect is a request with
    an object for body. *)
Definition body_member (key : string) (e : Effect) : option JValue :=
  match e with
  | Fetch _ _ (Some (JObj fields)) => lookup_field key fields
  | _ => None
  end.

Definition is_post (e : Effect) : bool :=
  match e with
  | Fetch method _ _ => String.eqb method "POST"
  | _ => false
  end.

Definition names_a_channel (n : PartialLightState) : bool :=
  is_some (p_r n) || is_some (p_g n) || is_some (p_b n).

(** At most one debounce timer is pending: the one the ref names, set a
    full delay ago at most. *)
Definition one_timer (c : Ctl) : Prop :=
  timers c = []
  \/ exists t, timers c = [t] /\ lightColorTimeoutRef c = Some (tid t)
               /\ tid t <> 0%nat /\ due t = now c + DEBOUNCE_MS.

(** A slider burst and the reply to its request: the changes, the
    debounce delay, then the reply. *)
Definition slide_settle_reply (cs : list Change) (outcome : FetchOutcome)
    (c : Ctl) : Ctl * list Effect :=
  let (c1, es1) := slide_and_settle cs c in
  let (c2, es2) := reply outcome c1 in
  (c2, es1 ++ es2).

End LightUi.

(** Runs of actions on the whole component. *)

Module WorkshopRun.
Import Light Workshop.

Fixpoint run (acts : list Action) (s : State) : State * list Effect :=
  match acts with
  | [] => (s, [])
  | a :: rest =>
      let (s1, es1) := act a s in
      let (s2, es2) := run rest s1 in
      (s2, es1 ++ es2)
  end.

(** No closure that can still call [updateLightState] saw the light
    Connected: not the current render, not a pending debounce timer, not
    the callbacks of the voice session. *)
Definition never_connected (s : State) : Prop :=
  lightConnectionStatus (panel (light s)) <> Connected
  /\ lightConnectionStatus (voiceLight s) <> Connected
  /\ Forall (fun t => lightConnectionStatus (closure t) <> Connected)
            (timers (light s)).

(** *** The connection controls of the light

    The address field, the scan results and the Connect/Disconnect
    button, next to the actions above; [connecting] counts the GETs of
    [<ip>/status] in flight. *)

Record Shop : Type := mkShop { app : State; connecting : nat }.

Inductive Input : Type :=
| Do (a : Action)
| AddressTyped (value : string)    (* [onChange] of the address field *)
| AddressSelected (address : string) (* [onSelectIp(address)] *)
| ConnectClick                     (* the Connect/Disconnect button *)
| ConnectReply (outcome : FetchOutcome). (* the oldest GET settles *)

Definition setLightIpAddress (v : string) (p : Panel) : Panel :=
  mkPanel (lights p) (isUpdatingLight p) v (lightConnectionStatus p).

Definition set_panel (p : Panel) (s : State) : State :=
  set_light (with_panel p (light s)) s.

Definition input (i : Input) (x : Shop) : Shop * list Effect :=
  let p := panel (light (app x)) in
  match i with
  | Do a =>
      let (s, es) := act a (app x) in (mkShop s (connecting x), es)
  | AddressTyped value =>
      (* the field is [disabled={!isLightConnectable}] *)
      if LightUi.isLightConnectable p
      then (mkShop (set_panel (setLightIpAddress value p) (app x))
                   (connecting x), [])
      else (x, [])
  | AddressSelected address =>
      (mkShop (set_panel (setLightIpAddress address p) (app x))
              (connecting x), [])
  | ConnectClick =>
      let (p1, es) := LightUi.connect_button p in
      (mkShop (set_panel p1 (app x))
              (connecting x + List.length (fetches es)), es)
  | ConnectReply outcome =>
      match connecting x with
      | O => (x, [])
      | S n =>
          let (p1, es) := handleConnectLight_settle outcome p in
          (mkShop (set_panel p1 (app x)) n, es)
      end
  end.

Fixpoint inputs (ins : list Input) (x : Shop) : Shop * list Effect :=
  match ins with
  | [] => (x, [])
  | i :: rest =>
      let (x1, es1) := input i x in
      let (x2, es2) := inputs rest x1 in
      (x2, es1 ++ es2)
  end.

(** No connect attempt is answered with success. *)
Definition connect_fails (i : Input) : bool :=
  match i with
  | ConnectReply outcome => negb (fetch_succeeded outcome)
  | _ => true
  end.

(** A status probe: the GET of [<ip>/status]. *)
Definition is_status_probe (e : Effect) : Prop :=
  exists ip, e = Fetch "GET" (trim ip ++ "/status")%string None.

(** The component as mounted. *)
Definition mounted : Shop := mkShop initial 0%nat.

(** While the updating flag is set a request is in flight. *)
Definition ctl_flag_has_request (c : Ctl) : Prop :=
  isUpdatingLight (panel c) = true -> outstanding c <> [].

Definition flag_has_request (s : State) : Prop :=
  ctl_flag_has_request (light s).

End WorkshopRun.

(** ** [rgbToHex]: the colour swatch of the light panel *)

Module Hex.

(** [x.toString(16)] for an integer [x]. *)
Definition toString16 (x : Z) : string :=
  let digits :=
    HexadecimalString.NilEmpty.string_of_uint (N.to_hex_uint (Z.abs_N x)) in
  if x <? 0 then String "-" digits else digits.

Fixpoint repeat_char (c : ascii) (n : nat) : string :=
  match n with
  | O => EmptyString
  | S k => String c (repeat_char c k)
  end.

(** [s.padStart(target, c)] for a one-character filler. *)
Definition padStart (target : nat) (c : ascii) (s : string) : string :=
  (repeat_char c (target - String.length s) ++ s)%string.

(** One channel: [x.toString(16).padStart(2, '0')]. *)
Definition channel_hex (x : Z) : string := padStart 2 "0" (toString16 x).

(** [`#${[r, g, b].map(...).join('')}`] *)
Definition rgbToHex (r g b : Z) : string :=
  String "#" (String.concat EmptyString (map channel_hex [r; g; b])).

(** The values a slider can hold. *)
Definition in_range (x : Z) : Prop := 0 <= x <= 255.

(** Whether a list of strings has no repetition. *)
Fixpoint distinct (l : list string) : bool :=
  match l with
  | [] => true
  | x :: rest => negb (existsb (String.eqb x) rest) && distinct rest
  end.

Definition channel_values : list Z := map Z.of_nat (seq 0 256).

End Hex.

(** ** More of the scanner: the progress bar, the result list and the
    choice of a result *)

Module ScannerUi.
Import Scanner.

(** The probes that have settled. *)
Definition settled_count (ps : list Probe) : Z :=
  Z.of_nat (List.length (filter (fun p => negb (is_pending p)) ps)).

Definition progress_inv (s : State) : Prop :=
  scanProgress s = settled_count (probes s).

(** Without a Stop, a scan is scanning until its last probe settles,
    then no more. *)
Definition scanning_inv (s : State) : Prop :=
  (listening s = true /\ isScanning s = true
   /\ all_settled (probes s) = false)
  \/ (listening s = false /\ isScanning s = false
      /\ all_settled (probes s) = true).

Definition is_stop (e : Event) : bool :=
  match e with Stop => true | _ => false end.

(** A trace in which the user never presses Stop. *)
Definition uninterrupted (es : list Event) : Prop :=
  forallb (fun e => negb (is_stop e)) es = true.

(** [handleIpSelect(ip)]: the address handed to [onSelectIp], which is
    [setLightIpAddress]. *)
Definition handleIpSelect (a : string) : string := ("http://" ++ a)%string.

End ScannerUi.

(** ** More of the CNC panel *)

Module CncUi.
Import Cnc.

(** [isCncConnected] *)
Definition isCncConnected (s : State) : bool :=
  negb (is_str "Disconnected" (Some (cncStatus s)))
  && negb (is_str "Connecting" (Some (cncStatus s))).

(** A parsed message that is a JSON object. *)
Definition is_object (v : JValue) : bool :=
  match v with JObj _ => true | _ => false end.

Definition is_null (v : JValue) : bool :=
  match v with JNull => true | _ => false end.

End CncUi.

(** ** The transcript log of the voice session *)

Module VoiceLog.
Import Voice.

(** The part of a [LiveServerMessage] the transcript code reads:
    [serverContent.inputTranscription.text] and
    [serverContent.turnComplete]. *)
Record ServerContent : Type := mkContent
  { inputTranscription : option string; turnComplete : bool }.

(** The first two [if]s of the session's [onmessage]. *)
Definition session_onmessage_content (m : ServerContent) (s : State) : State :=
  let s1 := match inputTranscription m with
            | Some text => fst (session_onmessage_transcription text s)
            | None => s
            end in
  if turnComplete m then fst (session_onmessage_turnComplete s1) else s1.

Definition receive (ms : list ServerContent) (s : State) : State :=
  fold_left (fun acc m => session_onmessage_content m acc) ms s.

Definition fragment (text : string) : ServerContent :=
  mkContent (Some text) false.

Definition end_of_turn : ServerContent := mkContent None true.

Definition blank (text : string) : bool := String.eqb (trim text) EmptyString.

(** Every entry of the log is something the user said and is not
    blank. *)
Definition user_entries_only (log : list (Speaker * string)) : Prop :=
  Forall (fun e => fst e = user /\ blank (snd e) = false) log.

End VoiceLog.

(** ** The audio helpers: [encode], [decode], the PCM conversion of
    [onaudioprocess] and [decodeAudioData] *)

Module Audio.

(** *** Base64, as [btoa] and [atob] do it

    A binary string is a string of 8-bit characters, one per byte. *)

Local Open Scope N_scope.

(** The character of a sextet. *)
Definition b64_char (n : N) : ascii :=
  if n <? 26 then ascii_of_N (65 + n)
  else if n <? 52 then ascii_of_N (71 + n)
  else if n <? 62 then ascii_of_N (n - 4)
  else if n =? 62 then "+"%char
  else "/"%char.

(** The sextet of a character of the alphabet. *)
Definition b64_value (c : ascii) : option N :=
  let n := N_of_ascii c in
  if (65 <=? n) && (n <=? 90) then Some (n - 65)
  else if (97 <=? n) && (n <=? 122) then Some (n - 71)
  else if (48 <=? n) && (n <=? 57) then Some (n + 4)
  else if n =? 43 then Some 62
  else if n =? 47 then Some 63
  else None.

Definition sextet1 (a : ascii) : N := N_of_ascii a / 4.
Definition sextet2 (a b : ascii) : N :=
  (N_of_ascii a mod 4) * 16 + N_of_ascii b / 16.
Definition sextet3 (b c : ascii) : N :=
  (N_of_ascii b mod 16) * 4 + N_of_ascii c / 64.
Definition sextet4 (c : ascii) : N := N_of_ascii c mod 64.

Definition NUL : ascii := ascii_of_N 0.

(** [btoa]: three bytes become four characters; a rest of one or two
    bytes is padded with [=]. *)
Fixpoint btoa (binary : string) : string :=
  match binary with
  | EmptyString => EmptyString
  | String a EmptyString =>
      String (b64_char (sextet1 a))
        (String (b64_char (sextet2 a NUL)) (String "=" (String "=" EmptyString)))
  | String a (String b EmptyString) =>
      String (b64_char (sextet1 a))
        (String (b64_char (sextet2 a b))
           (String (b64_char (sextet3 b NUL)) (String "=" EmptyString)))
  | String a (String b (String c rest)) =>
      String (b64_char (sextet1 a))
        (String (b64_char (sextet2 a b))
           (String (b64_char (sextet3 b c))
              (String (b64_char (sextet4 c)) (btoa rest))))
  end.

Definition octet1 (v1 v2 : N) : ascii := ascii_of_N (v1 * 4 + v2 / 16).
Definition octet2 (v2 v3 : N) : ascii :=
  ascii_of_N ((v2 mod 16) * 16 + v3 / 4).
Definition octet3 (v3 v4 : N) : ascii := ascii_of_N ((v3 mod 4) * 64 + v4).

Definition is_pad (c : ascii) : bool := Ascii.eqb c "=".

(** ASCII white space, which [atob] removes first: TAB, LF, FF, CR and
    SPACE. *)
Definition is_ascii_whitespace (c : ascii) : bool :=
  match nat_of_ascii c with
  | 9%nat | 10%nat | 12%nat | 13%nat | 32%nat => true
  | _ => false
  end.

Definition strip_space (s : string) : string :=
  string_of_list_ascii
    (filter (fun c => negb (is_ascii_whitespace c)) (list_ascii_of_string s)).

(** The groups of four characters of [atob], after white space has been
    removed: a last group may be padded with one or two [=] or lack its
    padding; one lone character, or a character outside the alphabet,
    makes [atob] throw ([None]). *)
Fixpoint atob_groups (s : string) : option string :=
  match s with
  | EmptyString => Some EmptyString
  | String _ EmptyString => None
  | String c1 (String c2 EmptyString) =>
      match b64_value c1, b64_value c2 with
      | Some v1, Some v2 => Some (String (octet1 v1 v2) EmptyString)
      | _, _ => None
      end
  | String c1 (String c2 (String c3 EmptyString)) =>
      match b64_value c1, b64_value c2, b64_value c3 with
      | Some v1, Some v2, Some v3 =>
          Some (String (octet1 v1 v2) (String (octet2 v2 v3) EmptyString))
      | _, _, _ => None
      end
  | String c1 (String c2 (String c3 (String c4 rest))) =>
      match rest, is_pad c4, is_pad c3 with
      | EmptyString, true, true =>
          match b64_value c1, b64_value c2 with
          | Some v1, Some v2 => Some (String (octet1 v1 v2) EmptyString)
          | _, _ => None
          end
      | EmptyString, true, false =>
          match b64_value c1, b64_value c2, b64_value c3 with
          | Some v1, Some v2, Some v3 =>
              Some (String (octet1 v1 v2) (String (octet2 v2 v3) EmptyString))
          | _, _, _ => None
          end
      | _, _, _ =>
          match b64_value c1, b64_value c2, b64_value c3, b64_value c4,
                atob_groups rest with
          | Some v1, Some v2, Some v3, Some v4, Some tail =>
              Some (String (octet1 v1 v2)
                      (String (octet2 v2 v3) (String (octet3 v3 v4) tail)))
          | _, _, _, _, _ => None
          end
      end
  end.

(** [atob] *)
Definition atob (base64 : string) : option string :=
  atob_groups (strip_space base64).

(** [encode(bytes)] *)
Definition encode (bytes : list byte) : string :=
  btoa (string_of_list_byte bytes).

(** [decode(base64)]; [None] when [atob] throws. *)
Definition decode (base64 : string) : option (list byte) :=
  option_map list_byte_of_string (atob base64).

Definition sextets : list N := map N.of_nat (seq 0 64).

End Audio.

(** *** 16-bit PCM: [onaudioprocess] and [decodeAudioData]

    A Float32 sample is modelled by the rational number it denotes.  The
    scaling by 32768 is exact in floating point, and so is the division
    by 32768 of a 16-bit integer, so no rounding is lost in the model. *)

Module Pcm.

(** Truncation towards zero, the first step of the conversion of a
    number to an integer type. *)
Definition truncate (q : Q) : Z := Z.quot (Qnum q) (Zpos (Qden q)).

(** The rest of the conversion to Int16: modulo 2^16, read as signed. *)
Definition wrap16 (z : Z) : Z :=
  let m := z mod 65536 in
  if m <? 32768 then m else m - 65536.

(** [int16[i] = inputData[i] * 32768] *)
Definition to_int16 (sample : Q) : Z :=
  wrap16 (truncate (sample * (32768 # 1))%Q).

Definition byte_of_Z (z : Z) : byte :=
  match Byte.of_N (Z.to_N (z mod 256)) with
  | Some x => x
  | None => x00
  end.

(** The two bytes of an Int16 in its buffer, low byte first. *)
Definition int16_bytes (v : Z) : list byte :=
  let m := v mod 65536 in [byte_of_Z m; byte_of_Z (m / 256)].

(** [new Uint8Array(int16.buffer)] for the samples of one audio
    callback. *)
Definition pcm_bytes (inputData : list Q) : list byte :=
  flat_map (fun sample => int16_bytes (to_int16 sample)) inputData.

(** [pcmBlob.data] *)
Definition pcm_blob_data (inputData : list Q) : string :=
  Audio.encode (pcm_bytes inputData).

(** The Int16 two bytes hold. *)
Definition int16_of_bytes (lo hi : byte) : Z :=
  let m := Z.of_N (Byte.to_N lo) + 256 * Z.of_N (Byte.to_N hi) in
  if m <? 32768 then m else m - 65536.

(** [new Int16Array(data.buffer)]: [None] for an odd number of bytes,
    where the constructor throws a RangeError. *)
Fixpoint int16_view (data : list byte) : option (list Z) :=
  match data with
  | [] => Some []
  | [_] => None
  | lo :: hi :: rest =>
      option_map (cons (int16_of_bytes lo hi)) (int16_view rest)
  end.

(** [decodeAudioData(data, ctx, sampleRate, numChannels)], as the list of
    the channels of the buffer it returns, for a channel count the
    platform supports; [None] when it throws: on an odd number of bytes,
    and in [createBuffer] when there is no channel or no frame. *)
Definition decodeAudioData (data : list byte) (numChannels : nat)
  : option (list (list Q)) :=
  match int16_view data with
  | None => None
  | Some dataInt16 =>
      let frameCount := (List.length dataInt16 / numChannels)%nat in
      if Nat.eqb numChannels 0 || Nat.eqb frameCount 0 then None
      else
        Some (map (fun channel =>
                     map (fun i =>
                            Qmake (nth (i * numChannels + channel) dataInt16 0)
                                  32768)
                         (seq 0 frameCount))
                  (seq 0 numChannels))
  end.

(** What the session hands to the speaker for one [inlineData.data]:
    [decodeAudioData(decode(audioData), outputAudioContext, 24000, 1)]. *)
Definition play (audioData : string) : option (list (list Q)) :=
  match Audio.decode audioData with
  | Some data => decodeAudioData data 1
  | None => None
  end.

(** A sample within the range of a 16-bit integer over 32768. *)
Definition in_int16 (k : Z) : Prop := -32768 <= k <= 32767.

Definition sample_of (k : Z) : Q := Qmake k 32768.

End Pcm.

(** ** More of the mock backend: the colour endpoint *)

Module ServerColor.
Import Server.

Inductive ColorReaction : Type :=
| ColorNow (res : Response)
| ColorAfter (ms : Z) (rgb : JValue * JValue * JValue)
| ColorThrows.

(** [const { r, g, b } = req.body] followed by the test that none of
    them is [undefined]. *)
Definition requested_color (req_body : JValue)
  : option (JValue * JValue * JValue) :=
  match get_field "r" req_body, get_field "g" req_body,
        get_field "b" req_body with
  | Some r, Some g, Some b => Some (r, g, b)
  | _, _, _ => None
  end.

(** [app.post('/api/lights/color', ...)], up to its [setTimeout]; with no
    body, [const { r, g, b } = req.body] throws a [TypeError]. *)
Definition lights_color (req_body : option JValue) (st : State)
  : State * ColorReaction :=
  if no_token st
  then (st, ColorNow (error 401 "Not authenticated"))
  else
    match req_body with
    | None => (st, ColorThrows)
    | Some b =>
        match requested_color b with
        | None => (st, ColorNow (error 400 "Invalid color value"))
        | Some rgb => (st, ColorAfter 300 rgb)
        end
    end.

(** The timer callback of [/api/lights/color]. *)
Definition lights_color_timeout (rgb : JValue * JValue * JValue) (st : State)
  : State * Response :=
  (mkState (googleToken st) (mkLightState (power (lightState st)) rgb),
   success).

(** One colour request from arrival to response, with no other request
    in between. *)
Definition serve_lights_color (req_body : option JValue) (st : State)
  : State * Response :=
  match lights_color req_body st with
  | (st1, ColorNow res) => (st1, res)
  | (st1, ColorAfter _ rgb) => lights_color_timeout rgb st1
  | (st1, ColorThrows) => (st1, uncaught)
  end.

(** [app.get('/api/auth/google', ...)]: the page that closes the
    popup. *)
Definition auth_google (st : State) : State * string :=
  (st, "<script>window.close();</script>").

End ServerColor.

(** ** The service worker: [sw.js]

    A cache is a list of stored requests with their responses, the cache
    storage a list of named caches in creation order.  The network is a
    function from a request to the response it gets, [None] when the
    fetch rejects. *)

Module ServiceWorker.

(** A request: its method, its URL and its header list (one value per
    name, names in lower case as the [Headers] object keeps them). *)
Record Request : Type := mkRequest
  { method : string; url : string; headers : list (string * string) }.

(** A response: its status, its body and the field names its [Vary]
    header lists (in lower case; [*] is among them for [Vary: *]; none
    when there is no such header). *)
Record Response : Type := mkResponse
  { status : Z; body : string; vary : list string }.

(** A cache: the stored requests with their responses, oldest first. *)
Definition Cache : Type := list (Request * Response).

(** The caches of the origin by name, in order of creation. *)
Definition CacheStorage : Type := list (string * Cache).

(** [fetch]: the response, or [None] when the promise rejects. *)
Definition Network : Type := Request -> option Response.

Definition CACHE_NAME : string := "workshop-ai-controller-cache-v3".

Definition urlsToCache : list string :=
  ["/"; "/index.html"; "/icon.svg"; "/manifest.json"; "/index.tsx";
   "/App.tsx"; "/components/WorkshopControl.tsx";
   "/components/ImageAnalyzer.tsx"; "/components/ResearchAssistant.tsx";
   "/components/Icons.tsx"].

(** *** The Cache API, with the default options of [match] *)

(** A URL without its fragment. *)
Fixpoint without_fragment (u : string) : string :=
  match u with
  | EmptyString => EmptyString
  | String c rest =>
      if Ascii.eqb c "#" then EmptyString
      else String c (without_fragment rest)
  end.

Fixpoint header_value (name : string) (hs : list (string * string))
  : option string :=
  match hs with
  | [] => None
  | (k, v) :: rest => if String.eqb k name then Some v else header_value name rest
  end.

Definition same_value (a b : option string) : bool :=
  match a, b with
  | Some x, Some y => String.eqb x y
  | None, None => true
  | _, _ => false
  end.

(** Whether the request [query] matches the cached request with its
    response: the method is GET, the URLs are equal but for their
    fragments, and for every name the [Vary] header of the response
    lists, the two requests carry the same value; [Vary: *] matches
    nothing. *)
Definition request_matches (query cached : Request) (res : Response) : bool :=
  String.eqb (method query) "GET"
  && String.eqb (without_fragment (url query)) (without_fragment (url cached))
  && forallb (fun name =>
                negb (String.eqb name "*")
                && same_value (header_value name (headers query))
                              (header_value name (headers cached)))
             (vary res).

(** [cache.match(request)]: the response of the first match. *)
Fixpoint cache_match (query : Request) (c : Cache) : option Response :=
  match c with
  | [] => None
  | (cached, res) :: rest =>
      if request_matches query cached res then Some res
      else cache_match query rest
  end.

(** A response [cache.put] and [cache.addAll] accept: its status is not
    206 and its [Vary] header has no [*]. *)
Definition storable (res : Response) : bool :=
  negb (status res =? 206) && negb (existsb (String.eqb "*") (vary res)).

(** [cache.put(request, response)]: the entries the request matches are
    replaced by the new one; [None] when the promise rejects with a
    [TypeError] (a method other than GET, or a response that is not
    storable). *)
Definition cache_put (req : Request) (res : Response) (c : Cache)
  : option Cache :=
  if String.eqb (method req) "GET" && storable res
  then Some (filter (fun e => negb (request_matches req (fst e) (snd e))) c
             ++ [(req, res)])
  else None.

(** [cache.put] on a cache that keeps its content when the promise
    rejects. *)
Definition put_or_keep (req : Request) (res : Response) (c : Cache) : Cache :=
  match cache_put req res c with
  | Some c1 => c1
  | None => c
  end.

(** [caches.match(request)]: the first cache, in creation order, that
    has a match. *)
Fixpoint caches_match (query : Request) (cs : CacheStorage)
  : option Response :=
  match cs with
  | [] => None
  | (_, c) :: rest =>
      match cache_match query c with
      | Some r => Some r
      | None => caches_match query rest
      end
  end.

(** [caches.open(name)] followed by an update of that cache; the cache
    is created, empty and last, if there is none of that name. *)
Fixpoint caches_update (name : string) (f : Cache -> Cache)
    (cs : CacheStorage) : CacheStorage :=
  match cs with
  | [] => [(name, f [])]
  | (n, c) :: rest =>
      if String.eqb n name then (n, f c) :: rest
      else (n, c) :: caches_update name f rest
  end.

(** The content of the cache of that name, empty if there is none. *)
Fixpoint caches_get (name : string) (cs : CacheStorage) : Cache :=
  match cs with
  | [] => []
  | (n, c) :: rest => if String.eqb n name then c else caches_get name rest
  end.

(** *** The listeners *)

(** What the [fetch] listener does with an event. *)
Inductive Handling : Type :=
| NotHandled                          (* no [respondWith]: browser default *)
| RespondWith (res : option Response). (* [None]: the promise rejects *)

Definition fetch_effect (req : Request) : Effect :=
  Fetch (method req) (url req) None.

(** The [fetch] listener up to the response; [origin] is
    [self.location.origin].  The third component is the [cache.put] the
    listener has started: nothing waits for it, and the caches are as
    they were until it completes. *)
Definition respond (origin : string) (network : Network) (req : Request)
    (cs : CacheStorage)
  : Handling * list Effect * option (Request * Response) :=
  if negb (String.eqb (method req) "GET") then (NotHandled, [], None)
  else if negb (String.prefix origin (url req))
  then (RespondWith (network req), [fetch_effect req], None)
  else
    match caches_match req cs with
    | Some res => (RespondWith (Some res), [], None)
    | None =>
        match network req with
        | None => (RespondWith None, [fetch_effect req], None)
        | Some res =>
            if negb (status res =? 200)
            then (RespondWith (Some res), [fetch_effect req], None)
            else (RespondWith (Some res), [fetch_effect req],
                  Some (req, res))
        end
    end.

(** [caches.open(CACHE_NAME).then(cache => cache.put(request,
    responseToCache))] once it has run: the cache is opened, and so
    created, even when the put is refused. *)
Definition complete_put (w : Request * Response) (cs : CacheStorage)
  : CacheStorage :=
  caches_update CACHE_NAME (put_or_keep (fst w) (snd w)) cs.

(** The [fetch] listener with the write it started completed. *)
Definition onfetch (origin : string) (network : Network) (req : Request)
    (cs : CacheStorage) : CacheStorage * Handling * list Effect :=
  let '(handling, es, write) := respond origin network req cs in
  (match write with
   | Some w => complete_put w cs
   | None => cs
   end, handling, es).

(** The [activate] listener: every cache but the current one is
    deleted. *)
Definition onactivate (cs : CacheStorage) : CacheStorage :=
  filter (fun e => String.eqb (fst e) CACHE_NAME) cs.

(** The request [cache.addAll] makes for a path of [urlsToCache]. *)
Definition precache_request (origin path : string) : Request :=
  mkRequest "GET" (origin ++ path) [].

(** The responses [cache.addAll] needs, if every one of them arrived, is
    ok and is storable. *)
Fixpoint fetch_all (origin : string) (network : Network) (paths : list string)
  : option (list (Request * Response)) :=
  match paths with
  | [] => Some []
  | path :: rest =>
      match network (precache_request origin path),
            fetch_all origin network rest with
      | Some res, Some more =>
          if response_ok (status res) && storable res
          then Some ((precache_request origin path, res) :: more)
          else None
      | _, _ => None
      end
  end.

(** The puts of [cache.addAll], in order. *)
Definition put_all (entries : list (Request * Response)) (c : Cache) : Cache :=
  fold_left (fun acc e => put_or_keep (fst e) (snd e) acc) entries c.

(** The [install] listener: [cache.addAll(urlsToCache)] stores all the
    responses or, if one is missing, not ok or not storable, none; the
    flag tells whether the installation succeeded. *)
Definition oninstall (origin : string) (network : Network) (cs : CacheStorage)
  : CacheStorage * bool :=
  match fetch_all origin network urlsToCache with
  | Some entries => (caches_update CACHE_NAME (put_all entries) cs, true)
  | None => (caches_update CACHE_NAME (fun c => c) cs, false)
  end.

(** *** Vocabulary of the properties *)

Definition same_origin_get (origin : string) (req : Request) : Prop :=
  method req = "GET" /\ String.prefix origin (url req) = true.

(** Two requests for the same resource: the same method, the same URL
    but for the fragment, the same value for every header. *)
Definition same_resource (a b : Request) : Prop :=
  method a = method b
  /\ without_fragment (url a) = without_fragment (url b)
  /\ forall name, header_value name (headers a)
                  = header_value name (headers b).

(** The cache storage holds one cache per name. *)
Definition unique_names (cs : CacheStorage) : Prop := NoDup (map fst cs).

Definition ORIGIN : string := "https://workshop.local".

(** A network that is down. *)
Definition offline : Network := fun _ => None.

(** A network that serves every request with the URL as body. *)
Definition echo : Network := fun req => Some (mkResponse 200 (url req) []).

End ServiceWorker.

(** ** The research assistant (components/ResearchAssistant.tsx) *)

Module Research.

Inductive Role : Type := user | model.

Record Message : Type := mkMessage
  { role : Role; text : string; sources : option (list JValue) }.

Record State : Type := mkState
  { messages : list Message;
    input : string;
    loading : bool;
    error : string;
    isKeyAvailable : bool }.

Definition initial : State := mkState [] "" false "" false.

(** The effect run once after the first render:
    [setIsKeyAvailable(!!process.env.API_KEY)]. *)
Definition onmount (API_KEY : option string) (s : State) : State :=
  mkState (messages s) (input s) (loading s) (error s)
          (negb (Voice.no_key API_KEY)).

Definition no_key_msg : string :=
  "API Key is not configured. Research is disabled.".
Definition failed_msg : string := "An error occurred. Please try again.".

(** [handleSend] up to its [await]: the new state and, if a request was
    made, its [contents]. *)
Definition handleSend_begin (API_KEY : option string) (s : State)
  : State * option string :=
  if String.eqb (trim (input s)) "" || Voice.no_key API_KEY
  then ((if Voice.no_key API_KEY
         then mkState (messages s) (input s) (loading s) no_key_msg
                      (isKeyAvailable s)
         else s), None)
  else (mkState (messages s ++ [mkMessage user (input s) None]) "" true ""
                (isKeyAvailable s),
        Some (input s)).

(** What the awaited [generateContent] gives: a response with its text
    and, possibly, grounding chunks, or a rejection. *)
Inductive Reply : Type :=
| Answered (answer : string) (groundingChunks : option (list JValue))
| Rejected.

(** [handleSend] after its [await]. *)
Definition handleSend_settle (r : Reply) (s : State) : State * list Effect :=
  match r with
  | Answered answer chunks =>
      (mkState (messages s
                ++ [mkMessage model answer
                      (Some match chunks with Some l => l | None => [] end)])
               (input s) false (error s) (isKeyAvailable s), [])
  | Rejected =>
      (mkState (messages s) (input s) false failed_msg (isKeyAvailable s),
       [ConsoleError "generateContent"])
  end.

(** The text field is [disabled={loading || !isKeyAvailable}], the send
    button [disabled={loading || !input.trim() || !isKeyAvailable}]. *)
Definition input_disabled (s : State) : bool :=
  loading s || negb (isKeyAvailable s).

Definition button_disabled (s : State) : bool :=
  loading s || String.eqb (trim (input s)) "" || negb (isKeyAvailable s).

(** The component with its requests: those in flight, oldest first, and
    every one made so far. *)
Record Session : Type := mkSession
  { ui : State; inflight : list string; requested : list string }.

Inductive Event : Type :=
| Type_ (value : string)   (* [onChange] of the text field *)
| Enter                    (* [onKeyPress] with the Enter key *)
| Click                    (* the send button *)
| Settle (r : Reply).      (* the oldest request in flight settles *)

Definition send (API_KEY : option string) (x : Session) : Session :=
  match handleSend_begin API_KEY (ui x) with
  | (s, Some contents) =>
      mkSession s (inflight x ++ [contents]) (requested x ++ [contents])
  | (s, None) => mkSession s (inflight x) (requested x)
  end.

(** One event, handled on the render that follows the previous event;
    a disabled control raises no event. *)
Definition step (API_KEY : option string) (x : Session) (e : Event)
  : Session :=
  match e with
  | Type_ value =>
      if input_disabled (ui x) then x
      else mkSession (mkState (messages (ui x)) value (loading (ui x))
                              (error (ui x)) (isKeyAvailable (ui x)))
                     (inflight x) (requested x)
  | Enter =>
      (* [e.key === 'Enter' && !loading && handleSend()] *)
      if input_disabled (ui x) then x
      else if loading (ui x) then x else send API_KEY x
  | Click => if button_disabled (ui x) then x else send API_KEY x
  | Settle r =>
      match inflight x with
      | [] => x
      | _ :: rest =>
          mkSession (fst (handleSend_settle r (ui x))) rest (requested x)
      end
  end.

Definition run (API_KEY : option string) (es : list Event) (x : Session)
  : Session :=
  fold_left (step API_KEY) es x.

(** The component after its first render and effect. *)
Definition mounted (API_KEY : option string) : Session :=
  mkSession (onmount API_KEY initial) [] [].

Definition is_user (m : Message) : bool :=
  match role m with user => true | model => false end.

(** The questions of the conversation, in order. *)
Definition questions (l : list Message) : list string :=
  map text (filter is_user l).

(** Every answer comes directly after a question. *)
Definition answers_follow_questions (l : list Message) : Prop :=
  forall i m, nth_error l i = Some m -> role m = model ->
    exists j q, i = S j /\ nth_error l j = Some q /\ role q = user.

(** What holds of the component between any two events. *)
Definition inv (API_KEY : option string) (x : Session) : Prop :=
  isKeyAvailable (ui x) = negb (Voice.no_key API_KEY)
  /\ requested x = questions (messages (ui x))
  /\ Forall (fun m => role m = user -> trim (text m) <> "") (messages (ui x))
  /\ answers_follow_questions (messages (ui x))
  /\ (if loading (ui x)
      then exists older q, messages (ui x) = older ++ [q]
                           /\ role q = user /\ inflight x = [text q]
      else inflight x = []).

End Research.

(** ** The API key of the application (App.tsx) *)

Module App.

Record State : Type := mkState
  { apiKey : option string;
    showKeyModal : bool;
    isVerifyingKey : bool;
    keyError : string;
    key : string;                    (* the text field of [ApiKeyModal] *)
    localStorage : option string }.  (* the item ['gemini-api-key'] *)

(** The first render of a page whose storage holds [stored]. *)
Definition fresh (stored : option string) : State :=
  mkState None false false "" "" stored.

(** The effect run after the first render. *)
Definition onmount (s : State) : State :=
  match localStorage s with
  | Some storedKey =>
      if String.eqb storedKey ""
      then mkState (apiKey s) true (isVerifyingKey s) (keyError s) (key s)
                   (localStorage s)
      else mkState (Some storedKey) (showKeyModal s) (isVerifyingKey s)
                   (keyError s) (key s) (localStorage s)
  | None => mkState (apiKey s) true (isVerifyingKey s) (keyError s) (key s)
                    (localStorage s)
  end.

Definition invalid_msg : string :=
  "Invalid API Key. Please check your key and try again.".

(** [handleKeySubmit] up to its [await]. *)
Definition handleKeySubmit_begin (s : State) : State :=
  mkState (apiKey s) (showKeyModal s) true "" (key s) (localStorage s).

(** [handleKeySubmit] after its [await]; [valid] tells whether the test
    call with the key succeeded. *)
Definition handleKeySubmit_settle (k : string) (valid : bool) (s : State)
  : State * list Effect :=
  if valid
  then (mkState (Some k) false false (keyError s) (key s) (Some k), [])
  else (mkState (apiKey s) (showKeyModal s) false invalid_msg (key s)
                (localStorage s),
        [ConsoleError "API Key validation failed:"]).

(** [handleSubmit] of the modal: the key it passes on, if any. *)
Definition handleSubmit (s : State) : option string :=
  if negb (String.eqb (trim (key s)) "") && negb (isVerifyingKey s)
  then Some (trim (key s)) else None.

(** The page with the key under validation, if any. *)
Record Page : Type := mkPage { ui : State; validating : option string }.

Inductive Event : Type :=
| Type_ (value : string)    (* [onChange] of the key field *)
| Submit                    (* the form is submitted *)
| Validated (valid : bool). (* the test call settles *)

(** One event, handled on the render that follows the previous event;
    the modal raises events only while it is shown, its text field is
    [disabled={isVerifying}]. *)
Definition step (x : Page) (e : Event) : Page :=
  match e with
  | Type_ value =>
      if showKeyModal (ui x) && negb (isVerifyingKey (ui x))
      then mkPage (mkState (apiKey (ui x)) (showKeyModal (ui x))
                           (isVerifyingKey (ui x)) (keyError (ui x)) value
                           (localStorage (ui x)))
                  (validating x)
      else x
  | Submit =>
      if showKeyModal (ui x)
      then match handleSubmit (ui x) with
           | Some k => mkPage (handleKeySubmit_begin (ui x)) (Some k)
           | None => x
           end
      else x
  | Validated valid =>
      match validating x with
      | Some k => mkPage (fst (handleKeySubmit_settle k valid (ui x))) None
      | None => x
      end
  end.

Definition run (es : list Event) (x : Page) : Page := fold_left step es x.

(** The page once loaded. *)
Definition loaded (stored : option string) : Page :=
  mkPage (onmount (fresh stored)) None.

(** A key the modal can pass on: trimmed input that is not empty. *)
Definition submittable (k : string) : Prop :=
  k <> "" /\ exists typed, k = trim typed.

(** What holds of the page between any two events. *)
Definition page_inv (stored : option string) (x : Page) : Prop :=
  (showKeyModal (ui x) = true <-> apiKey (ui x) = None)
  /\ (forall k, apiKey (ui x) = Some k ->
                localStorage (ui x) = Some k /\ k <> "")
  /\ (localStorage (ui x) = stored
      \/ exists k, localStorage (ui x) = Some k /\ submittable k)
  /\ (forall k, validating x = Some k -> submittable k)
  /\ (isVerifyingKey (ui x) = true <-> validating x <> None).

End App.

(** ** The image analyzer (components/ImageAnalyzer.tsx) *)

Module Analyzer.

(** The state of the component and its refs; a ref to an audio object is
    modelled by whether it holds one. *)
Record State : Type := mkState
  { image : option string;
    imageMimeType : option string;
    prompt : string;
    analysis : string;
    loading : bool;
    error : string;
    isListening : bool;
    liveTranscript : string;
    transcriptRef : string;
    sessionPromise : bool;
    mediaStream : bool;
    audioContext : bool;
    scriptProcessor : bool;
    mediaStreamSource : bool }.

Definition initial : State :=
  mkState None None "Describe this image in detail." "" false "" false ""
          "" false false false false false.

(** What the callbacks of one render close over: [analyzeImage] is
    memoised on [image], [prompt] and [imageMimeType], [stopConversation]
    on [isListening], [startConversation] on both of them. *)
Record Render : Type := mkRender
  { r_image : option string;
    r_imageMimeType : option string;
    r_prompt : string;
    r_isListening : bool }.

Definition render (s : State) : Render :=
  mkRender (image s) (imageMimeType s) (prompt s) (isListening s).

(** Truthiness of a string state that may be [null]. *)
Definition present (o : option string) : bool :=
  match o with
  | Some v => negb (String.eqb v "")
  | None => false
  end.

Definition is_comma (c : ascii) : bool := Ascii.eqb c ","%char.

(** What follows the first comma, if there is one. *)
Fixpoint after_comma (s : string) : option string :=
  match s with
  | EmptyString => None
  | String c rest => if is_comma c then Some rest else after_comma rest
  end.

(** What precedes the first comma. *)
Fixpoint until_comma (s : string) : string :=
  match s with
  | EmptyString => EmptyString
  | String c rest => if is_comma c then EmptyString
                     else String c (until_comma rest)
  end.

(** [fileDataUrl.split(',')[1]] *)
Definition split_1 (fileDataUrl : string) : option string :=
  option_map until_comma (after_comma fileDataUrl).

(** The request of [generateContent]: the inline data and MIME type of
    the image part, and the text part. *)
Record Request : Type := mkRequest
  { data : option string; mimeType : string; text : string }.

Definition upload_msg : string :=
  "Please upload an image and provide a prompt.".
Definition key_msg : string :=
  "API Key is not configured. Analysis is disabled.".
Definition failed_msg : string :=
  "Failed to analyze the image. Please check the console for details.".
Definition voice_key_msg : string :=
  "API Key is not configured. Voice prompt is disabled.".
Definition mic_msg : string :=
  "Could not access the microphone at the required sample rate (16000Hz). Please check permissions and that your device supports this sample rate.".

Definition set_error (e : string) (s : State) : State :=
  mkState (image s) (imageMimeType s) (prompt s) (analysis s) (loading s) e
          (isListening s) (liveTranscript s) (transcriptRef s)
          (sessionPromise s) (mediaStream s) (audioContext s)
          (scriptProcessor s) (mediaStreamSource s).

Definition set_prompt (p : string) (s : State) : State :=
  mkState (image s) (imageMimeType s) p (analysis s) (loading s) (error s)
          (isListening s) (liveTranscript s) (transcriptRef s)
          (sessionPromise s) (mediaStream s) (audioContext s)
          (scriptProcessor s) (mediaStreamSource s).

Definition set_result (a : string) (l : bool) (e : string) (s : State)
  : State :=
  mkState (image s) (imageMimeType s) (prompt s) a l e
          (isListening s) (liveTranscript s) (transcriptRef s)
          (sessionPromise s) (mediaStream s) (audioContext s)
          (scriptProcessor s) (mediaStreamSource s).

Definition set_transcript (t : string) (s : State) : State :=
  mkState (image s) (imageMimeType s) (prompt s) (analysis s) (loading s)
          (error s) (isListening s) t t
          (sessionPromise s) (mediaStream s) (audioContext s)
          (scriptProcessor s) (mediaStreamSource s).

(** [analyzeImage(promptOverride)] of the render [env], up to its first
    [await]: the new state and the request, if one is made. *)
Definition analyzeImage_begin (env : Render) (API_KEY : option string)
    (promptOverride : option string) (s : State) : State * list Request :=
  let currentPrompt :=
    match promptOverride with
    | Some p => if String.eqb p "" then r_prompt env else p
    | None => r_prompt env
    end in
  match r_image env, r_imageMimeType env with
  | Some img, Some mime =>
      if String.eqb img "" || String.eqb currentPrompt ""
         || String.eqb mime ""
      then (set_error upload_msg s, [])
      else if Voice.no_key API_KEY then (set_error key_msg s, [])
      else (set_result "" true "" s,
            [mkRequest (split_1 img) mime currentPrompt])
  | _, _ => (set_error upload_msg s, [])
  end.

(** [analyzeImage] after [generateContent] settles, with the text of the
    response or a rejection. *)
Definition analyzeImage_settle (response : option string) (s : State)
  : State * list Effect :=
  match response with
  | Some t => (set_result t false (error s) s, [])
  | None => (set_result (analysis s) false failed_msg s,
             [ConsoleError "Error analyzing image:"])
  end.

(** [stopConversation], from a render that saw
    [isListening = listening]. *)
Definition stopConversation (listening : bool) (s : State)
  : State * list Effect :=
  if negb listening then (s, [])
  else
    (mkState (image s) (imageMimeType s) (prompt s) (analysis s) (loading s)
             (error s) false (liveTranscript s) (transcriptRef s)
             false false false false false,
     Voice.when (sessionPromise s) [Release LiveSession]
     ++ Voice.when (scriptProcessor s) [Release ScriptProcessor]
     ++ Voice.when (mediaStreamSource s) [Release StreamSource]
     ++ Voice.when (audioContext s) [Release InputContext]
     ++ Voice.when (mediaStream s) [Release MicStream]).

(** [startConversation] of the render [env]. *)
Definition startConversation (env : Render) (API_KEY : option string)
    (s : State) : State * list Effect :=
  if r_isListening env then (s, [])
  else if Voice.no_key API_KEY then (s, [Alert voice_key_msg])
  else
    (mkState (image s) (imageMimeType s) (prompt s) (analysis s) (loading s)
             (error s) true "" "" true (mediaStream s) (audioContext s)
             (scriptProcessor s) (mediaStreamSource s),
     [Acquire LiveSession]).

(** The [onopen] callback of a session started by the render [env]. *)
Definition session_onopen (env : Render) (mic : Voice.MicResult) (s : State)
  : State * list Effect :=
  match mic with
  | Voice.MicGranted =>
      (mkState (image s) (imageMimeType s) (prompt s) (analysis s)
               (loading s) (error s) (isListening s) (liveTranscript s)
               (transcriptRef s) (sessionPromise s) true true true true,
       [Acquire InputContext; Acquire MicStream; Acquire StreamSource;
        Acquire ScriptProcessor])
  | Voice.MicRefused =>
      let s1 := mkState (image s) (imageMimeType s) (prompt s) (analysis s)
                        (loading s) (error s) (isListening s)
                        (liveTranscript s) (transcriptRef s)
                        (sessionPromise s) (mediaStream s) true
                        (scriptProcessor s) (mediaStreamSource s) in
      let (s2, es) := stopConversation (r_isListening env) s1 in
      (s2, [Acquire InputContext;
            ConsoleError "Error initializing audio input:"; Alert mic_msg]
           ++ es)
  end.

(** The [onmessage] callback of a session started by the render [env]:
    the new state, the effects and the analysis requests made. *)
Definition session_onmessage (env : Render) (API_KEY : option string)
    (m : VoiceLog.ServerContent) (s : State)
  : State * list Effect * list Request :=
  let s1 := match VoiceLog.inputTranscription m with
            | Some t => set_transcript (transcriptRef s ++ t)%string s
            | None => s
            end in
  if VoiceLog.turnComplete m
  then
    let finalTranscript := transcriptRef s1 in
    let (s2, es) := stopConversation (r_isListening env) s1 in
    if negb (String.eqb (trim finalTranscript) "")
    then
      let (s3, reqs) :=
        analyzeImage_begin env API_KEY (Some finalTranscript)
                           (set_prompt finalTranscript s2) in
      (s3, es, reqs)
    else (s2, es, [])
  else (s1, [], []).

(** The [onerror] callback of a session started by the render [env]. *)
Definition session_onerror (env : Render) (s : State) : State * list Effect :=
  let (s1, es) := stopConversation (r_isListening env) s in
  (s1, ConsoleError "Session error:" :: es).

(** A run of messages through [onmessage]. *)
Fixpoint receive (env : Render) (API_KEY : option string)
    (ms : list VoiceLog.ServerContent) (s : State)
  : State * list Effect * list Request :=
  match ms with
  | [] => (s, [], [])
  | m :: rest =>
      let '(s1, es1, rs1) := session_onmessage env API_KEY m s in
      let '(s2, es2, rs2) := receive env API_KEY rest s1 in
      (s2, es1 ++ es2, rs1 ++ rs2)
  end.

(** A spoken turn: its fragments, then the end of the turn. *)
Definition turn (fragments : list string) : list VoiceLog.ServerContent :=
  map VoiceLog.fragment fragments ++ [VoiceLog.end_of_turn].

(** The render shows an image the analysis can use. *)
Definition has_image (env : Render) : bool :=
  present (r_image env) && present (r_imageMimeType env).

Definition image_data (env : Render) : option string :=
  match r_image env with Some img => split_1 img | None => None end.

Definition mime_of (env : Render) : string :=
  match r_imageMimeType env with Some m => m | None => "" end.

End Analyzer.

(** * Properties *)

(** ** Text *)

Module TextProps.

Lemma string_length_ind (P : string -> Prop) :
  (forall s, (forall t, (String.length t < String.length s)%nat -> P t) -> P s) ->
  forall s, P s.
Proof.
  intros H s.
  assert (G : forall n t, (String.length t < n)%nat -> P t).
  { induction n as [|n IH]; intros t Ht; [lia|].
    apply H. intros u Hu. apply IH. lia. }
  apply (G (S (String.length s))). lia.
Qed.

Ltac byte_facts :=
  unfold plain, is_space1, is_space2, is_space3, byte_is in *;
  repeat match goal with
         | |- _ = false => apply not_true_iff_false; intros ?
         | H : _ || _ = true |- _ => apply orb_true_iff in H; destruct H
         | H : _ && _ = true |- _ => apply andb_true_iff in H; destruct H
         | H : Nat.eqb _ _ = true |- _ => apply Nat.eqb_eq in H
         | H : Nat.leb _ _ = true |- _ => apply Nat.leb_le in H
         end;
  try lia.

Lemma plain_not_space1 d : plain d -> is_space1 d = false.
Proof. intros H. byte_facts. Qed.

Lemma plain_not_space2 c d : plain d -> is_space2 c d = false.
Proof. intros H. byte_facts. Qed.

Lemma plain_not_space3 c a d : plain d -> is_space3 c a d = false.
Proof. intros H. byte_facts. Qed.

Lemma all_space_last d : plain d ->
  forall s, all_space (s ++ String d "") = false.
Proof.
  intros Hd s. induction s as [s IH] using string_length_ind.
  destruct s as [|c [|a [|b s]]]; cbn [append all_space].
  - now rewrite plain_not_space1.
  - destruct (is_space1 c); [now rewrite plain_not_space1|].
    now rewrite plain_not_space2.
  - destruct (is_space1 c).
    { apply (IH (String a "")). simpl. lia. }
    destruct (is_space2 c a); [now rewrite plain_not_space1|].
    now rewrite plain_not_space3.
  - destruct (is_space1 c).
    { apply (IH (String a (String b s))). simpl. lia. }
    destruct (is_space2 c a).
    { apply (IH (String b s)). simpl. lia. }
    destruct (is_space3 c a b); [|reflexivity].
    apply (IH s). simpl. lia.
Qed.

(** Text that ends with a visible ASCII character has nothing to trim
    at its end. *)
Lemma trim_end_plain d : plain d ->
  forall s, trim_end (s ++ String d "") = (s ++ String d "")%string.
Proof.
  intros Hd s. induction s as [|c s IH].
  - pose proof (all_space_last d Hd "") as H. cbn [append] in H.
    cbn [append trim_end]. rewrite H. reflexivity.
  - pose proof (all_space_last d Hd (String c s)) as H. cbn [append] in H.
    cbn [append trim_end]. rewrite H. now rewrite IH.
Qed.

Lemma all_space_trim_start s : all_space (trim_start s) = all_space s.
Proof.
  induction s as [s IH] using string_length_ind.
  destruct s as [|c [|a [|b s]]]; cbn [trim_start all_space]; try reflexivity.
  - destruct (is_space1 c) eqn:E1; [reflexivity|].
    cbn [all_space]. now rewrite E1.
  - destruct (is_space1 c) eqn:E1.
    { apply (IH (String a "")). simpl. lia. }
    destruct (is_space2 c a) eqn:E2; [reflexivity|].
    cbn [all_space]. now rewrite E1, E2.
  - destruct (is_space1 c) eqn:E1.
    { apply (IH (String a (String b s))). simpl. lia. }
    destruct (is_space2 c a) eqn:E2.
    { apply (IH (String b s)). simpl. lia. }
    destruct (is_space3 c a b) eqn:E3.
    { rewrite (IH s) by (simpl; lia). reflexivity. }
    cbn [all_space]. now rewrite E1, E2, E3.
Qed.

Lemma trim_end_empty s : trim_end s = "" <-> all_space s = true.
Proof.
  destruct s as [|c s]; [split; reflexivity|].
  cbn [trim_end]. destruct (all_space (String c s)); split;
    try reflexivity; discriminate.
Qed.

(** Text is blank for [trim] exactly when it holds white space only. *)
Lemma trim_empty s : trim s = "" <-> all_space s = true.
Proof. unfold trim. now rewrite trim_end_empty, all_space_trim_start. Qed.

(** Each white space character and line terminator of ECMAScript is
    stripped, alone or next to text. *)
Lemma trim_white_space :
  Forall (fun w => trim w = "" /\ trim (w ++ "a b" ++ w) = "a b")
         white_space.
Proof. repeat constructor. Qed.

End TextProps.

Module LightProps.
Import Light.

Lemma payload_fields_nonempty n u :
  names_a_field n = true -> payload_fields n u <> [].
Proof.
  unfold names_a_field, payload_fields.
  destruct (p_power n); simpl; [discriminate|].
  intros ->. discriminate.
Qed.

Lemma begin_in_flight env n s :
  lightConnectionStatus env = Connected ->
  isUpdatingLight env = false ->
  names_a_field n = true ->
  updateLightState_begin env n s =
    (setIsUpdatingLight true (setLights (spread (lights env) n) s),
     [Fetch "POST" (state_url (lightIpAddress env))
        (Some (JObj (payload_fields n (spread (lights env) n))))],
     InFlight (lights env)).
Proof.
  intros Hc Hu Hn. unfold updateLightState_begin.
  rewrite Hc, Hu. simpl.
  pose proof (payload_fields_nonempty n (spread (lights env) n) Hn) as Hp.
  destruct (payload_fields n (spread (lights env) n)); [congruence|].
  reflexivity.
Qed.

Lemma settle_failed orig o s :
  failed o ->
  updateLightState_settle orig o s =
    (mkPanel orig false (lightIpAddress s) Error,
     [ConsoleError console_msg; Alert alert_msg]).
Proof. intros H. unfold updateLightState_settle. rewrite H. reflexivity. Qed.

(** C1. When [updateLightState] runs from a render whose status is
    Connected and whose updating flag is off, and its request fails (a
    response that is not ok, a network failure or the 3 s timeout), a
    request was sent with the snapshot [lights env] kept aside; whatever
    happened to the state while the request was outstanding, the
    continuation puts the light state back to that snapshot exactly, sets
    the connection status to Error, clears the updating flag and raises
    the alert.  With nothing interleaved and a current closure, the light
    state after the call is the one before it. *)
Theorem C1_failed_update_restores_snapshot :
  forall (env s : Panel) (newState : PartialLightState) (o : FetchOutcome),
    lightConnectionStatus env = Connected ->
    isUpdatingLight env = false ->
    names_a_field newState = true ->
    failed o ->
    (exists s1 req,
        updateLightState_begin env newState s
          = (s1, [req], InFlight (lights env))
        /\ is_fetch req = true
        /\ lights s1 = spread (lights env) newState) /\
    (forall mid : Panel,
        let (s2, es) := updateLightState_settle (lights env) o mid in
        lights s2 = lights env
        /\ lightConnectionStatus s2 = Error
        /\ isUpdatingLight s2 = false
        /\ In (Alert alert_msg) es) /\
    (let (s2, es) := updateLightState env newState o s in
     lights s2 = lights env
     /\ lightConnectionStatus s2 = Error
     /\ In (Alert alert_msg) es) /\
    (env = s -> lights (fst (updateLightState s newState o s)) = lights s).
Proof.
  intros env s n o Hc Hu Hn Hf.
  pose proof (begin_in_flight env n s Hc Hu Hn) as Hb.
  split; [|split; [|split]].
  - eexists _, _. split; [exact Hb|]. split; reflexivity.
  - intros mid. rewrite (settle_failed _ _ mid Hf).
    repeat split. simpl. auto.
  - unfold updateLightState. rewrite Hb, (settle_failed _ _ _ Hf).
    repeat split. simpl. auto.
  - intros <-. unfold updateLightState.
    rewrite Hb, (settle_failed _ _ _ Hf). reflexivity.
Qed.

(** What the guard does: a call of [updateLightState] from a render
    that saw the updating flag set is dropped.  It returns at the guard,
    emits no effect at all (so no request, and nothing is queued for
    later: no snapshot is kept, no timer is set), and leaves the whole
    state, light state and connection status included, as it was. *)
Lemma flagged_render_is_dropped :
  forall (env s : Panel) (newState : PartialLightState) (o : FetchOutcome),
    isUpdatingLight env = true ->
    updateLightState_begin env newState s = (s, [], Dropped)
    /\ updateLightState env newState o s = (s, []).
Proof.
  intros env s n o Hu. unfold updateLightState, updateLightState_begin.
  rewrite Hu, orb_true_r. split; reflexivity.
Qed.

(** C2 fails in the code: the guard tests the flag its closure captured,
    not the flag of the moment.  A call from a render that saw the flag
    set is dropped, as claimed; but a call through a closure that saw the
    light Connected and the flag unset sends its request whatever the
    flag is by then.  So on a connected light: a slider is moved (the
    debounce timer keeps the [updateLightState] of this render), then the
    power button is clicked, its POST is outstanding and the flag is set;
    when the timer fires, 250 ms later, its call is not dropped: a second
    POST is sent while the first is still outstanding, and the power
    that the first call had set optimistically is overwritten. *)
Theorem C2_stale_closure_sends_second_request :
  (forall (env s : Panel) (n : PartialLightState),
     isUpdatingLight env = true ->
     updateLightState_begin env n s = (s, [], Dropped))
  /\ (forall (env s : Panel) (n : PartialLightState),
        lightConnectionStatus env = Connected ->
        isUpdatingLight env = false ->
        names_a_field n = true ->
        snd (fst (updateLightState_begin env n s))
        = [Fetch "POST" (state_url (lightIpAddress env))
             (Some (JObj (payload_fields n (spread (lights env) n))))])
  /\ (let s := fst (WorkshopRun.run
                      [Workshop.LightSlider chR 10; Workshop.LightPowerClick]
                      Workshop.connected) in
      let fired := Workshop.act (Workshop.TimePasses DEBOUNCE_MS) s in
      isUpdatingLight (panel (Workshop.light s)) = true
      /\ power (lights (panel (Workshop.light s))) = on
      /\ List.length (outstanding (Workshop.light s)) = 1%nat
      /\ snd fired
         = [Fetch "POST" "http://192.168.1.50/state"
              (Some (JObj [("color",
                            JObj [("r", JNum 10); ("g", JNum 220);
                                  ("b", JNum 180)])]))]
      /\ List.length (outstanding (Workshop.light (fst fired))) = 2%nat
      /\ power (lights (panel (Workshop.light (fst fired)))) = off)
  /\ ~ (forall (env p : Panel) (n : PartialLightState),
          isUpdatingLight p = true ->
          snd (fst (updateLightState_begin env n p)) = []).
Proof.
  split; [|split; [|split]].
  - intros env s n Hu. unfold updateLightState_begin.
    now rewrite Hu, orb_true_r.
  - intros env s n Hc Hu Hn. now rewrite (begin_in_flight env n s Hc Hu Hn).
  - repeat split; reflexivity.
  - intros H.
    specialize (H connected_panel (setIsUpdatingLight true connected_panel)
                  (toggle (lights connected_panel)) eq_refl).
    discriminate H.
Qed.

Lemma C1_witness :
  lightConnectionStatus connected_panel = Connected
  /\ (let (s2, es) :=
        updateLightState connected_panel (toggle (lights connected_panel))
                         (Responded 500) connected_panel in
      lights s2 = lights connected_panel
      /\ lightConnectionStatus s2 = Error
      /\ In (Alert alert_msg) es).
Proof.
  split; [reflexivity|].
  apply (C1_failed_update_restores_snapshot connected_panel connected_panel
           (toggle (lights connected_panel)) (Responded 500));
    reflexivity.
Defined.

(** *** The debounce window *)

Lemma advance_quiet dt c :
  timers c = [] ->
  advance dt c =
    (mkCtl (panel c) (lightColorTimeoutRef c) [] (nextTimerId c)
           (now c + dt) (outstanding c), []).
Proof. intros H. unfold advance. rewrite H. reflexivity. Qed.

Lemma advance_armed_short ip dt c :
  armed ip c -> 0 <= dt < DEBOUNCE_MS ->
  exists c1, advance dt c = (c1, []) /\ waiting ip c1
             /\ panel c1 = panel c /\ nextTimerId c1 = nextTimerId c.
Proof.
  intros (id & env & Hr & Ht & He & Hi) Hdt. unfold advance. rewrite Ht.
  simpl.
  assert (Hlt : (now c + DEBOUNCE_MS <=? now c + dt) = false)
    by (apply Z.leb_gt; lia).
  rewrite Hlt. simpl. eexists. split; [reflexivity|].
  split; [|split; reflexivity].
  exists id, env, (now c + DEBOUNCE_MS). simpl.
  repeat split; try assumption; try apply He. lia.
Qed.

Lemma clearTimeout_own id d env :
  clearTimeout id [mkTimer id d env] = [].
Proof. unfold clearTimeout. simpl. rewrite Nat.eqb_refl. reflexivity. Qed.

Lemma slider_change_arms ip color value c :
  burst_inv ip c -> timers c = [] \/ waiting ip c ->
  let c1 := slider_change color value c in
  armed ip c1 /\ burst_inv ip c1
  /\ lights (panel c1) = set_channel color value (lights (panel c)).
Proof.
  intros (He & Hi & Hn) Hw. destruct He as [Hc Hu].
  unfold slider_change, fieldset_disabled. rewrite Hc, Hu. simpl.
  unfold handleLightColorChange.
  destruct (nextTimerId c) as [|k] eqn:Hk; [congruence|].
  assert (Hts : match lightColorTimeoutRef c with
                | Some (S _ as id) => clearTimeout id (timers c)
                | _ => timers c
                end = []).
  { destruct Hw as [Ht | (id & env & d & Hr & Ht & _)].
    - rewrite Ht. destruct (lightColorTimeoutRef c) as [[|?]|]; reflexivity.
    - rewrite Hr, Ht. apply clearTimeout_own. }
  rewrite Hts. simpl. split; [|split].
  - exists k, (panel c). simpl. repeat split; assumption.
  - repeat split; simpl; try assumption. discriminate.
  - reflexivity.
Qed.

Lemma slide_no_request ip cs : forall c,
  burst_inv ip c -> timers c = [] \/ armed ip c ->
  Forall in_window cs ->
  exists c1,
    slide cs c = (c1, [])
    /\ burst_inv ip c1
    /\ (timers c1 = [] \/ armed ip c1)
    /\ (cs <> [] -> armed ip c1)
    /\ lights (panel c1) = apply_changes cs (lights (panel c)).
Proof.
  induction cs as [|[[gap color] value] rest IH]; intros c Hb Ht Hw.
  - exists c. simpl. repeat split; try apply Hb; try assumption.
    congruence.
  - inversion Hw as [|? ? Hgap Hrest]; subst. unfold in_window in Hgap.
    simpl in Hgap.
    assert (Hadv : exists c1, advance gap c = (c1, [])
                     /\ (timers c1 = [] \/ waiting ip c1)
                     /\ panel c1 = panel c
                     /\ nextTimerId c1 = nextTimerId c).
    { destruct Ht as [Ht | Ha].
      - eexists. split; [apply advance_quiet; exact Ht|].
        split; [left; reflexivity|]. split; reflexivity.
      - destruct (advance_armed_short ip gap c Ha Hgap)
          as (c1 & E & W & P & N).
        exists c1. repeat split; auto. }
    destruct Hadv as (c1 & Eadv & Hw1 & Hp1 & Hn1).
    assert (Hb1 : burst_inv ip c1).
    { destruct Hb as (He & Hi & Hn). unfold burst_inv.
      rewrite Hp1, Hn1. auto. }
    destruct (slider_change_arms ip color value c1 Hb1 Hw1)
      as (Ha2 & Hb2 & Hl2).
    destruct (IH (slider_change color value c1) Hb2 (or_intror Ha2) Hrest)
      as (c3 & E3 & Hb3 & Ht3 & Ha3 & Hl3).
    exists c3. simpl. rewrite Eadv, E3. simpl.
    split; [reflexivity|]. split; [assumption|]. split; [assumption|].
    split.
    + intros _. destruct rest as [|x rest'].
      * simpl in E3. inversion E3; subst. exact Ha2.
      * apply Ha3. discriminate.
    + rewrite Hl3, Hl2, Hp1. reflexivity.
Qed.

Lemma advance_armed_fires ip c :
  armed ip c ->
  snd (advance DEBOUNCE_MS c) =
    [Fetch "POST" (state_url ip)
       (Some (JObj [("color", color_json (lights (panel c)))]))].
Proof.
  intros (id & env & Hr & Ht & [Hc Hu] & Hi). unfold advance.
  rewrite Ht. simpl. rewrite Z.leb_refl. simpl.
  unfold fire, start_update, updateLightState_begin. simpl.
  rewrite Hc, Hu, Hi. reflexivity.
Qed.

(** C3, as the code has it.  Start from a light that is Connected with no
    command outstanding (the sliders are disabled otherwise) and no timer
    pending.  Any non-empty burst of slider changes, each less than 250 ms
    after the previous event, followed by 250 ms without input, issues
    exactly one request: a POST to [<ip>/state] whose body is the object
    with the single member [color], holding the r, g and b of the light
    state after the last change. *)
Theorem C3_debounced_burst_sends_one_request :
  forall (cs : list Change) (c : Ctl),
    enabled (panel c) ->
    nextTimerId c <> 0%nat ->
    timers c = [] ->
    cs <> [] ->
    Forall in_window cs ->
    snd (slide_and_settle cs c) =
      [Fetch "POST" (state_url (lightIpAddress (panel c)))
         (Some (JObj [("color",
                       color_json (apply_changes cs (lights (panel c))))]))].
Proof.
  intros cs c He Hn Ht Hcs Hw.
  destruct (slide_no_request (lightIpAddress (panel c)) cs c)
    as (c1 & E & _ & _ & Ha & Hl); auto.
  { repeat split; auto; apply He. }
  unfold slide_and_settle. rewrite E.
  pose proof (advance_armed_fires _ c1 (Ha Hcs)) as Hf.
  destruct (advance DEBOUNCE_MS c1) as [c2 es2]. simpl in *.
  rewrite Hf, Hl. reflexivity.
Qed.

Lemma two_colors_in_window : Forall in_window two_colors.
Proof. unfold two_colors, in_window, DEBOUNCE_MS. repeat constructor; simpl; lia. Qed.

Lemma C3_witness :
  snd (slide_and_settle two_colors connected_ctl) =
    [Fetch "POST" "http://192.168.1.50/state"
       (Some (JObj [("color",
                     JObj [("r", JNum 40); ("g", JNum 50); ("b", JNum 60)])]))].
Proof.
  apply (C3_debounced_burst_sends_one_request two_colors connected_ctl).
  - split; reflexivity.
  - discriminate.
  - reflexivity.
  - discriminate.
  - exact two_colors_in_window.
Defined.

(** C3 as stated fails on its own scenario: the one POST sent for
    (10,20,30) then (40,50,60) does not have the body
    [{r:40,g:50,b:60}]; the colour is nested under [color]. *)
Lemma C3_counterexample :
  ~ (exists url,
        snd (slide_and_settle two_colors connected_ctl) =
          [Fetch "POST" url
             (Some (JObj [("r", JNum 40); ("g", JNum 50); ("b", JNum 60)]))]).
Proof. intros [url H]. vm_compute in H. discriminate H. Qed.

End LightProps.

Module ScannerProps.
Import Scanner.

Lemma decimal_inj n m : decimal n = decimal m -> n = m.
Proof.
  unfold decimal. intros H.
  apply (f_equal NilEmpty.uint_of_string) in H.
  rewrite !NilEmpty.usu in H. injection H as H.
  apply (f_equal Nat.of_uint) in H.
  now rewrite !DecimalNat.Unsigned.of_to in H.
Qed.

Lemma append_inj_r (a x y : string) :
  (a ++ x)%string = (a ++ y)%string -> x = y.
Proof.
  induction a as [|c a IH]; simpl; intros H; [exact H|].
  injection H as H. auto.
Qed.

Lemma address_inj base n m : address base n = address base m -> n = m.
Proof.
  unfold address. intros H.
  apply append_inj_r in H. apply append_inj_r in H.
  now apply decimal_inj.
Qed.

Lemma NoDup_addresses base start len :
  NoDup (map (address base) (seq start len)).
Proof.
  apply NoDup_map_NoDup_ForallPairs; [|apply seq_NoDup].
  intros n m _ _. apply address_inj.
Qed.

(** *** What a step does to the probes *)

Lemma after_probes s : probes (after_allSettled s) = probes s.
Proof. unfold after_allSettled. destruct (_ && _); reflexivity. Qed.

Lemma after_results s : scanResults (after_allSettled s) = scanResults s.
Proof. unfold after_allSettled. destruct (_ && _); reflexivity. Qed.

Lemma after_clock s : clock (after_allSettled s) = clock s.
Proof. unfold after_allSettled. destruct (_ && _); reflexivity. Qed.

Lemma step_probes e s :
  probes (fst (step e s)) = map (probe_map e s) (probes s).
Proof.
  destruct e as [i a|dt|]; simpl.
  - now rewrite after_probes.
  - now rewrite after_probes.
  - destruct (scanAbortController s) as [[|]|]; simpl;
      try (symmetry; apply map_id).
    destruct (listening s); simpl.
    + now rewrite after_probes.
    + symmetry; apply map_id.
Qed.

Lemma probe_map_ip e s p : ip (probe_map e s p) = ip p.
Proof.
  destruct e as [i a|dt|]; simpl.
  - destruct (hit i p); reflexivity.
  - destruct (timer_due _ p); reflexivity.
  - destruct (scanAbortController s) as [[|]|]; try reflexivity.
    destruct (listening s); [|reflexivity].
    unfold abort_probe. destruct (is_pending p); reflexivity.
Qed.

Lemma abort_probe_settled p : is_pending (abort_probe p) = false.
Proof.
  unfold abort_probe. destruct (is_pending p) eqn:E; [reflexivity|].
  unfold is_pending in *. simpl. exact E.
Qed.


(** A settled probe stays as it is, in state and in address. *)
Lemma probe_map_settled e s p :
  is_pending p = false ->
  is_pending (probe_map e s p) = false
  /\ pstate (probe_map e s p) = pstate p.
Proof.
  intros H. destruct e as [i a|dt|]; simpl.
  - unfold hit. rewrite H, andb_false_r. auto.
  - destruct (timer_due _ p); [|auto].
    unfold timer_fires, is_pending in *. simpl.
    destruct (pstate p); try discriminate; auto.
  - destruct (scanAbortController s) as [[|]|]; auto.
    destruct (listening s); auto.
    unfold abort_probe. rewrite H. simpl. auto.
Qed.

Lemma step_no_effect e s : snd (step e s) = [].
Proof.
  destruct e as [i a|dt|]; simpl; try reflexivity.
  destruct (scanAbortController s) as [[|]|]; try reflexivity.
  destruct (listening s); reflexivity.
Qed.

Lemma run_no_effect es : forall s, snd (run es s) = [].
Proof.
  induction es as [|e es IH]; intros s; [reflexivity|].
  simpl. specialize (IH (fst (step e s))).
  pose proof (step_no_effect e s) as H1.
  destruct (step e s) as [s1 out1]. simpl in *.
  destruct (run es s1) as [s2 out2]. simpl in *. now subst.
Qed.

Lemma run_addresses es : forall s,
  map ip (probes (fst (run es s))) = map ip (probes s).
Proof.
  induction es as [|e es IH]; intros s; [reflexivity|].
  simpl. specialize (IH (fst (step e s))).
  pose proof (step_probes e s) as Hp.
  destruct (step e s) as [s1 out1]. simpl in *.
  destruct (run es s1) as [s2 out2]. simpl in *.
  rewrite IH, Hp, map_map. apply map_ext. intros p. apply probe_map_ip.
Qed.

(** *** The results are the probes that returned ok *)

Lemma pending_not_ok p : is_pending p = true -> pstate p <> Fulfilled true.
Proof. unfold is_pending. destruct (pstate p); congruence. Qed.

Lemma ok_not_pending p : pstate p = Fulfilled true -> is_pending p = false.
Proof. unfold is_pending. intros ->. reflexivity. Qed.

Lemma filter_none {A} (l : list A) : filter (fun _ => false) l = [].
Proof. induction l; auto. Qed.

Lemma step_results e s :
  scanResults (fst (step e s)) =
    scanResults s ++ map ip (filter (newly e) (probes s)).
Proof.
  destruct e as [i a|dt|]; simpl.
  - rewrite after_results. simpl. f_equal. unfold newly.
    destruct (is_ok (answer_state a)).
    + f_equal. apply filter_ext. intros p. now rewrite andb_true_r.
    + rewrite (filter_ext _ (fun _ => false)), filter_none; [reflexivity|].
      intros p. now rewrite andb_false_r.
  - rewrite after_results, filter_none. simpl. now rewrite app_nil_r.
  - rewrite filter_none, app_nil_r.
    destruct (scanAbortController s) as [[|]|]; try reflexivity.
    destruct (listening s); simpl; [now rewrite after_results|reflexivity].
Qed.

Lemma probe_map_ok e s p :
  pstate (probe_map e s p) = Fulfilled true <->
  pstate p = Fulfilled true \/ newly e p = true.
Proof.
  destruct (is_pending p) eqn:Hp.
  - pose proof (pending_not_ok p Hp) as Hn.
    destruct e as [i a|dt|]; simpl.
    + unfold hit. rewrite Hp, andb_true_r.
      destruct (Nat.eqb (index p) i); simpl.
      * unfold is_ok. destruct (answer_state a) as [|[|]|];
          split; try tauto; try congruence; intros [H|H]; congruence.
      * split; [tauto|intros [H|H]; congruence].
    + destruct (timer_due _ p).
      * unfold timer_fires. rewrite Hp. simpl.
        split; [discriminate|intros [H|H]; congruence].
      * split; [tauto|intros [H|H]; congruence].
    + assert (Ha : pstate (abort_probe p) = Fulfilled true <->
                   pstate p = Fulfilled true \/ false = true).
      { unfold abort_probe. rewrite Hp. simpl.
        split; [discriminate|intros [H|H]; congruence]. }
      destruct (scanAbortController s) as [[|]|];
        try (split; [tauto|intros [H|H]; congruence]).
      destruct (listening s); [exact Ha|].
      split; [tauto|intros [H|H]; congruence].
  - destruct (probe_map_settled e s p Hp) as [_ ->].
    assert (Hn : newly e p = false).
    { destruct e; simpl; auto. unfold hit. now rewrite Hp, andb_false_r. }
    rewrite Hn. split; [tauto|intros [H|H]; congruence].
Qed.

Lemma step_found_inv e s : found_inv s -> found_inv (fst (step e s)).
Proof.
  intros Hinv a. rewrite step_probes, step_results, in_app_iff, (Hinv a).
  split.
  - intros [(p & Hin & Hip & Hst) | Hnew].
    + exists (probe_map e s p). rewrite probe_map_ip, probe_map_ok.
      split; [apply in_map; exact Hin|auto].
    + apply in_map_iff in Hnew. destruct Hnew as (p & Hip & Hf).
      apply filter_In in Hf. destruct Hf as [Hin Hnew].
      exists (probe_map e s p). rewrite probe_map_ip, probe_map_ok.
      split; [apply in_map; exact Hin|auto].
  - intros (q & Hq & Hip & Hst). apply in_map_iff in Hq.
    destruct Hq as (p & <- & Hin). rewrite probe_map_ip in Hip.
    apply probe_map_ok in Hst. destruct Hst as [Hst|Hnew].
    + left. exists p. auto.
    + right. apply in_map_iff. exists p. split; [exact Hip|].
      apply filter_In. auto.
Qed.

Lemma run_found_inv es : forall s, found_inv s -> found_inv (fst (run es s)).
Proof.
  induction es as [|e es IH]; intros s H; [exact H|].
  simpl. pose proof (step_found_inv e s H) as H1.
  specialize (IH (fst (step e s)) H1).
  destruct (step e s) as [s1 out1]. simpl in *.
  destruct (run es s1) as [s2 out2]. exact IH.
Qed.

Lemma start_probes s :
  probes (fst (handleStartScan s)) =
    map (new_probe (scanIpBase s) (clock s)) (seq 1 254).
Proof. reflexivity. Qed.

Lemma start_found_inv s : found_inv (fst (handleStartScan s)).
Proof.
  intros a. rewrite start_probes.
  change (scanResults (fst (handleStartScan s))) with (@nil string).
  split; [intros []|].
  intros (p & Hin & _ & Hst). apply in_map_iff in Hin.
  destruct Hin as (i & <- & _). discriminate.
Qed.

(** *** Every pending probe has its timer running *)

Lemma step_clock e s :
  clock (fst (step e s)) =
    clock s + match e with Tick dt => dt | _ => 0 end.
Proof.
  destruct e as [i a|dt|]; simpl.
  - rewrite after_clock. simpl. lia.
  - rewrite after_clock. reflexivity.
  - destruct (scanAbortController s) as [[|]|]; simpl; try lia.
    destruct (listening s); simpl; [rewrite after_clock; simpl|]; lia.
Qed.

Lemma step_timer_inv limit e s :
  timer_inv limit s -> timer_inv limit (fst (step e s)).
Proof.
  intros Hinv q Hq Hpq. rewrite step_probes in Hq.
  apply in_map_iff in Hq. destruct Hq as (p & <- & Hin).
  rewrite step_clock.
  destruct (is_pending p) eqn:Hp.
  2:{ destruct (probe_map_settled e s p Hp) as [E _]. congruence. }
  destruct (Hinv p Hin Hp) as (d & Hd & Hlt).
  destruct e as [i a|dt|]; simpl in *.
  - destruct (hit i p).
    + exfalso. unfold is_pending in Hpq. simpl in Hpq.
      destruct a; simpl in Hpq; discriminate.
    + exists d. split; [exact Hd|lia].
  - destruct (timer_due (clock s + dt) p) eqn:Hdue.
    + unfold timer_fires, is_pending in Hpq. simpl in Hpq.
      unfold is_pending in Hp. rewrite Hp in Hpq. discriminate.
    + exists d. split; [exact Hd|]. unfold timer_due in Hdue.
      rewrite Hd in Hdue. apply Z.leb_gt in Hdue. lia.
  - destruct (scanAbortController s) as [[|]|];
      try (exists d; split; [exact Hd|lia]).
    destruct (listening s); [|exists d; split; [exact Hd|lia]].
    rewrite abort_probe_settled in Hpq. discriminate.
Qed.

Lemma run_timer_inv limit es : forall s,
  timer_inv limit s -> timer_inv limit (fst (run es s)).
Proof.
  induction es as [|e es IH]; intros s H; [exact H|].
  simpl. pose proof (step_timer_inv limit e s H) as H1.
  specialize (IH (fst (step e s)) H1).
  destruct (step e s) as [s1 out1]. simpl in *.
  destruct (run es s1) as [s2 out2]. exact IH.
Qed.

Lemma run_clock es : forall s, clock (fst (run es s)) = clock s + elapsed es.
Proof.
  induction es as [|e es IH]; intros s; simpl; [lia|].
  specialize (IH (fst (step e s))). pose proof (step_clock e s) as Hc.
  destruct (step e s) as [s1 out1]. simpl in *.
  destruct (run es s1) as [s2 out2]. simpl in *. rewrite IH, Hc.
  destruct e; lia.
Qed.

Lemma timer_inv_expired limit s :
  timer_inv limit s -> limit <= clock s -> all_settled (probes s) = true.
Proof.
  intros Hinv Hle. unfold all_settled. apply forallb_forall. intros p Hin.
  destruct (is_pending p) eqn:Hp; [|reflexivity].
  destruct (Hinv p Hin Hp) as (d & _ & Hd). lia.
Qed.

Lemma start_timer_inv s :
  timer_inv (clock s + PROBE_TIMEOUT_MS) (fst (handleStartScan s)).
Proof.
  intros p Hin _. rewrite start_probes in Hin. apply in_map_iff in Hin.
  destruct Hin as (i & <- & _).
  change (clock (fst (handleStartScan s))) with (clock s).
  unfold new_probe. simpl. eexists. split; [reflexivity|].
  unfold PROBE_TIMEOUT_MS. lia.
Qed.

(** *** Cancellation *)

Lemma all_settled_map f ps :
  (forall p, is_pending p = false -> is_pending (f p) = false) ->
  all_settled ps = true -> all_settled (map f ps) = true.
Proof.
  unfold all_settled. intros Hf H. rewrite forallb_forall in *.
  intros q Hq. apply in_map_iff in Hq. destruct Hq as (p & <- & Hin).
  specialize (H p Hin). rewrite Hf; [reflexivity|].
  now destruct (is_pending p).
Qed.

Lemma step_settled e s :
  all_settled (probes s) = true ->
  all_settled (probes (fst (step e s))) = true
  /\ scanResults (fst (step e s)) = scanResults s.
Proof.
  intros H. split.
  - rewrite step_probes. apply all_settled_map; [|exact H].
    intros p Hp. apply probe_map_settled, Hp.
  - rewrite step_results.
    assert (E : filter (newly e) (probes s) = []).
    { unfold all_settled in H. rewrite forallb_forall in H.
      induction (probes s) as [|p ps IH]; [reflexivity|]. simpl.
      assert (Hp : is_pending p = false).
      { specialize (H p (or_introl eq_refl)). now destruct (is_pending p). }
      assert (Hn : newly e p = false).
      { destruct e; simpl; auto. unfold hit.
        now rewrite Hp, andb_false_r. }
      rewrite Hn. apply IH. intros q Hq. apply H. now right. }
    rewrite E. simpl. apply app_nil_r.
Qed.

Lemma run_settled es : forall s,
  all_settled (probes s) = true ->
  all_settled (probes (fst (run es s))) = true
  /\ scanResults (fst (run es s)) = scanResults s.
Proof.
  induction es as [|e es IH]; intros s H; [auto|].
  simpl. destruct (step_settled e s H) as [H1 R1].
  specialize (IH (fst (step e s)) H1).
  destruct (step e s) as [s1 out1]. simpl in *.
  destruct (run es s1) as [s2 out2]. simpl in *.
  destruct IH as [H2 R2]. split; [exact H2|congruence].
Qed.

Lemma after_abortable s :
  scanAbortController (after_allSettled s) = scanAbortController s
  /\ (listening (after_allSettled s) = listening s
      \/ all_settled (probes s) = true).
Proof.
  unfold after_allSettled.
  destruct (listening s) eqn:L, (all_settled (probes s)) eqn:A; simpl; auto.
Qed.

Lemma step_abortable e s : abortable s -> abortable (fst (step e s)).
Proof.
  intros [[Hc Hl] | Hs].
  2:{ right. apply step_settled, Hs. }
  destruct e as [i a|dt|].
  - simpl.
    match goal with |- abortable (after_allSettled ?t) =>
      destruct (after_abortable t) as [Ec [El | Ea]];
      [left; rewrite Ec, El; auto
      |right; rewrite after_probes; exact Ea] end.
  - simpl.
    match goal with |- abortable (after_allSettled ?t) =>
      destruct (after_abortable t) as [Ec [El | Ea]];
      [left; rewrite Ec, El; auto
      |right; rewrite after_probes; exact Ea] end.
  - right. rewrite step_probes. simpl. rewrite Hc, Hl.
    unfold all_settled. apply forallb_forall. intros q Hq.
    apply in_map_iff in Hq. destruct Hq as (p & <- & _).
    now rewrite abort_probe_settled.
Qed.

Lemma run_abortable es : forall s, abortable s -> abortable (fst (run es s)).
Proof.
  induction es as [|e es IH]; intros s H; [exact H|].
  simpl. pose proof (step_abortable e s H) as H1.
  specialize (IH (fst (step e s)) H1).
  destruct (step e s) as [s1 out1]. simpl in *.
  destruct (run es s1) as [s2 out2]. exact IH.
Qed.

Lemma stop_aborts s :
  abortable s ->
  all_settled (probes (fst (step Stop s))) = true
  /\ (forall p, In p (probes s) -> is_pending p = true ->
                In (mkProbe (index p) (ip p) None true Rejected)
                   (probes (fst (step Stop s)))).
Proof.
  intros Ha. split.
  - destruct Ha as [[Hc Hl] | Hs].
    + rewrite step_probes. simpl. rewrite Hc, Hl.
      unfold all_settled. apply forallb_forall. intros q Hq.
      apply in_map_iff in Hq. destruct Hq as (p & <- & _).
      now rewrite abort_probe_settled.
    + apply step_settled, Hs.
  - intros p Hin Hp. destruct Ha as [[Hc Hl] | Hs].
    + rewrite step_probes. simpl. rewrite Hc, Hl.
      apply in_map_iff. exists p. split; [|exact Hin].
      unfold abort_probe. now rewrite Hp.
    + unfold all_settled in Hs. rewrite forallb_forall in Hs.
      specialize (Hs p Hin). rewrite Hp in Hs. discriminate.
Qed.

Lemma stop_not_scanning s : isScanning (fst (step Stop s)) = false.
Proof.
  simpl. destruct (scanAbortController s) as [[|]|]; try reflexivity.
  destruct (listening s); [|reflexivity].
  unfold after_allSettled. simpl.
  destruct (all_settled (map abort_probe (probes s))); reflexivity.
Qed.

(** C4. Take a scan at any point of its sweep (any replies, timer
    expiries and earlier Stop presses after [handleStartScan]) and press
    Stop.  Every probe still pending is aborted (its promise rejected, its
    controller aborted, its timer cleared) and none is left pending; Stop
    itself and every later event send no request and the probes stay the
    254 of the sweep; and whatever happens afterwards the result list is
    the one collected when Stop was pressed. *)
Theorem C4_stop_halts_scan_and_keeps_results :
  forall (s0 : State) (before after : list Event),
    let sweep := fst (run before (fst (handleStartScan s0))) in
    let stopped := step Stop sweep in
    let final := run after (fst stopped) in
    (forall p, In p (probes sweep) -> is_pending p = true ->
               In (mkProbe (index p) (ip p) None true Rejected)
                  (probes (fst stopped)))
    /\ all_settled (probes (fst stopped)) = true
    /\ all_settled (probes (fst final)) = true
    /\ snd stopped = [] /\ snd final = []
    /\ map ip (probes (fst final)) = map ip (probes sweep)
    /\ scanResults (fst stopped) = scanResults sweep
    /\ scanResults (fst final) = scanResults sweep
    /\ isScanning (fst stopped) = false.
Proof.
  intros s0 before after sweep stopped final.
  assert (Ha : abortable sweep).
  { apply run_abortable. left. split; reflexivity. }
  destruct (stop_aborts sweep Ha) as [Hs Hp].
  destruct (run_settled after (fst stopped) Hs) as [Hs2 Hr2].
  assert (Hr1 : scanResults (fst stopped) = scanResults sweep).
  { unfold stopped. rewrite step_results. simpl. rewrite filter_none.
    apply app_nil_r. }
  split; [exact Hp|]. split; [exact Hs|]. split; [exact Hs2|].
  split; [apply step_no_effect|].
  split; [apply run_no_effect|].
  split.
  { unfold final. rewrite run_addresses. unfold stopped.
    rewrite step_probes, map_map. apply map_ext. intros p.
    apply probe_map_ip. }
  split; [exact Hr1|]. split; [unfold final; congruence|].
  apply stop_not_scanning.
Qed.

(** *** The results are the ok answers of the trace *)









End ScannerProps.

Module CncProps.
Import Cnc.

(** C7. An inbound message that [JSON.parse] rejects is caught in the
    handler: [onmessage] returns normally with the whole CNC state (status,
    loaded G-code file, progress, socket) as it was, and the only effect is
    the one console error line. *)
Theorem C7_unparseable_message_leaves_cnc_state :
  forall (JSON_parse : string -> option JValue) (data : string) (s : State),
    JSON_parse data = None ->
    onmessage JSON_parse data s = (s, [ConsoleError parse_msg])
    /\ cncStatus (fst (onmessage JSON_parse data s)) = cncStatus s
    /\ gcodeFile (fst (onmessage JSON_parse data s)) = gcodeFile s
    /\ gcodeProgress (fst (onmessage JSON_parse data s)) = gcodeProgress s.
Proof.
  intros parse data s H.
  assert (E : onmessage parse data s = (s, [ConsoleError parse_msg])).
  { unfold onmessage, onmessage_try. rewrite H. reflexivity. }
  rewrite E. repeat split.
Qed.

Lemma C7_witness :
  onmessage literal_parse "status: Running" running
  = (running, [ConsoleError parse_msg]).
Proof.
  apply (C7_unparseable_message_leaves_cnc_state literal_parse
           "status: Running" running).
  reflexivity.
Defined.

(** C9. The close handler puts the CNC state back to its initial
    configuration: status Disconnected, no G-code file, progress 0 (and
    the socket ref cleared), from any state, so also after the error
    handler has run; and [sendCncCommand] sends its one message exactly
    when the ref holds a socket whose ready state is OPEN, and otherwise
    does nothing at all; it never changes the state. *)
Theorem C9_close_resets_and_send_needs_open_socket :
  forall (s : State) (command : string),
    cncStatus (fst (onclose s)) = cncStatus initial
    /\ gcodeFile (fst (onclose s)) = gcodeFile initial
    /\ gcodeProgress (fst (onclose s)) = gcodeProgress initial
    /\ websocketRef (fst (onclose s)) = None
    /\ cncStatus initial = JStr "Disconnected"
    /\ gcodeFile initial = None /\ gcodeProgress initial = 0
    /\ fst (onclose (fst (onerror s))) = fst (onclose s)
    /\ fst (sendCncCommand command s) = s
    /\ snd (sendCncCommand command s) =
         (if is_open s then [WsSend (JObj [("command", JStr command)])]
          else [])
    /\ (is_open s = true <->
        exists u, websocketRef s = Some (mkWebSocket u OPEN))
    /\ snd (sendCncCommand command (fst (onclose s))) = [].
Proof.
  intros s command. repeat split.
  - unfold sendCncCommand. destruct (is_open s); reflexivity.
  - unfold sendCncCommand. destruct (is_open s); reflexivity.
  - unfold is_open. destruct (websocketRef s) as [[u st]|]; [|discriminate].
    destruct st; try discriminate. intros _. exists u. reflexivity.
  - intros [u H]. unfold is_open. rewrite H. reflexivity.
Qed.

End CncProps.

Module VoiceProps.
Import Voice.

(** C8 as stated fails on the server-error exit: the session's [onerror]
    only logs, so from a session in full swing nothing is released (the
    microphone stream, for one, is released zero times, not once) and
    every ref still holds its object. *)
Lemma C8_counterexample :
  held MicStream streaming = true
  /\ releases MicStream (snd (leave ServerError streaming)) <> 1%nat
  /\ held MicStream (fst (leave ServerError streaming)) = true
  /\ ~ (forall (x : Exit) (res : Resource) (s : State),
          held res s = true -> releases res (snd (leave x s)) = 1%nat).
Proof.
  split; [reflexivity|]. split; [discriminate|]. split; [reflexivity|].
  intros H. specialize (H ServerError MicStream streaming eq_refl).
  discriminate H.
Qed.

(** C8, as the code has it.  When the user stops a session that is
    listening, every resource held in a ref (session, script processor,
    media-stream source, input audio context, microphone stream) is
    released exactly once and nothing else is released; all refs are
    cleared and the listening flag is off, so that any later
    [stopConversation] releases nothing.  The session's [onerror] and
    [onclose] only log, and a completed turn only files the transcript:
    they release nothing and leave every ref as it is. *)
Theorem C8_user_stop_releases_held_resources_once :
  forall s : State,
    isListening s = true ->
    let stopped := leave UserStop s in
    (forall res, releases res (snd stopped) =
                 if held res s then 1%nat else 0%nat)
    /\ (forall res, held res (fst stopped) = false)
    /\ isListening (fst stopped) = false
    /\ (forall listening res,
          releases res (snd (stopConversation listening (fst stopped)))
          = 0%nat)
    /\ leave ServerError s = (s, [ConsoleError session_error_msg])
    /\ session_onclose s = (s, [ConsoleLog session_closed_msg])
    /\ (forall res,
          releases res (snd (leave TurnCompletion s)) = 0%nat
          /\ held res (fst (leave TurnCompletion s)) = held res s).
Proof.
  intros s Hl stopped. unfold stopped, leave. rewrite Hl.
  split; [|split; [|split; [|split; [|split; [|split]]]]].
  - intros res. unfold stopConversation, held. simpl.
    destruct res, (sessionPromise s), (scriptProcessor s),
      (mediaStreamSource s), (audioContext s), (mediaStream s);
      reflexivity.
  - intros res. destruct res; reflexivity.
  - reflexivity.
  - intros listening res. destruct listening, res; reflexivity.
  - reflexivity.
  - reflexivity.
  - intros res. unfold session_onmessage_turnComplete, addTranscript.
    destruct (String.eqb (trim (currentInputTranscription s)) EmptyString);
      destruct res; split; reflexivity.
Qed.

(** The microphone-init failure path: the [stopConversation] that
    [onopen] calls was created by the render that started the session,
    when [isListening] was still false, so it returns at its guard. *)
Lemma mic_refused_releases_nothing :
  forall (apiKey : option string) (s0 : State),
    no_key apiKey = false ->
    let started := fst (startConversation false apiKey s0) in
    callbacks started = Some false
    /\ (forall res, releases res (snd (leave MicInitFailure started)) = 0%nat)
    /\ audioContext (fst (leave MicInitFailure started)) = true
    /\ isListening (fst (leave MicInitFailure started)) = true.
Proof.
  intros apiKey s0 Hk started. unfold started, startConversation.
  rewrite Hk. simpl. split; [reflexivity|]. split; [|split; reflexivity].
  intros res. destruct res; reflexivity.
Qed.

Lemma C8_witness :
  isListening streaming = true
  /\ releases MicStream (snd (leave UserStop streaming)) = 1%nat
  /\ releases InputContext (snd (leave UserStop streaming)) = 1%nat
  /\ held MicStream (fst (leave UserStop streaming)) = false.
Proof.
  destruct (C8_user_stop_releases_held_resources_once streaming eq_refl)
    as (H1 & H2 & _).
  split; [reflexivity|]. split; [exact (H1 MicStream)|].
  split; [exact (H1 InputContext)|exact (H2 MicStream)].
Defined.

End VoiceProps.

Module WorkshopProps.
Import Light Workshop.

(** C6 as stated fails: the voice call [controlDustCollector] writes the
    dust-collector flag straight through its setter, with no reconciler,
    no snapshot and no request. *)
Lemma C6_counterexample :
  via_reconciler (VoiceToolCall (controlDustCollector "on")) = false
  /\ device_state (fst (act (VoiceToolCall (controlDustCollector "on"))
                            initial))
     <> device_state initial
  /\ ~ (forall (a : Action) (s : State),
          device_state (fst (act a s)) <> device_state s ->
          via_reconciler a = true).
Proof.
  split; [reflexivity|]. split; [discriminate|].
  intros H.
  specialize (H (VoiceToolCall (controlDustCollector "on")) initial).
  assert (E : false = true) by (apply H; discriminate).
  discriminate E.
Qed.

Lemma slider_change_power color value c :
  power (lights (panel (slider_change color value c)))
  = power (lights (panel c)).
Proof.
  unfold slider_change. destruct (fieldset_disabled (panel c));
    [reflexivity|]. destruct color; reflexivity.
Qed.

Lemma sendCncCommand_no_fetch command v :
  fetches (snd (Cnc.sendCncCommand command v)) = [].
Proof. unfold Cnc.sendCncCommand. destruct (Cnc.is_open v); reflexivity. Qed.

Lemma fetches_app es1 es2 : fetches (es1 ++ es2) = fetches es1 ++ fetches es2.
Proof. apply filter_app. Qed.

Lemma fetches_when_response c name result :
  fetches (Voice.when c [ToolResponse name result]) = [].
Proof. destruct c; reflexivity. Qed.

(** C6, as the code has it.  An action that does not go through
    [updateLightState] never changes the light's power and sends no
    request.  The other device state is written directly: a slider change
    (possible while the fieldset is enabled) sets its colour channel at
    once; the dust-collector flag is set by its button and by the voice
    call [controlDustCollector]; the camera flags are set by their
    buttons and by the voice call [controlCamera]. *)
Theorem C6_power_is_reconciled_other_state_written_directly :
  forall (a : Action) (s : State),
    via_reconciler a = false ->
    power (lights (panel (light (fst (act a s)))))
      = power (lights (panel (light s)))
    /\ fetches (snd (act a s)) = []
    /\ (forall color value,
          a = LightSlider color value ->
          fieldset_disabled (panel (light s)) = false ->
          lights (panel (light (fst (act a s))))
            = set_channel color value (lights (panel (light s))))
    /\ (forall pw,
          a = VoiceToolCall (controlDustCollector pw) ->
          dustCollectorOn (fst (act a s)) = String.eqb pw "on")
    /\ (a = DustCollectorClick ->
        dustCollectorOn (fst (act a s)) = negb (dustCollectorOn s))
    /\ (forall pw rc,
          a = VoiceToolCall (controlCamera pw rc) ->
          camera (fst (act a s)) =
            mkCamera (match pw with
                      | Some p => String.eqb p "on"
                      | None => cam_power (camera s)
                      end)
                     (match rc with
                      | Some v => v
                      | None => recording (camera s)
                      end))
    /\ (a = CameraPowerClick ->
        camera (fst (act a s)) =
          mkCamera (negb (cam_power (camera s))) (recording (camera s))).
Proof.
  intros a s Hv.
  split; [|split; [|split; [|split; [|split; [|split]]]]].
  - destruct a as [|color value|dt|o| | | |granted|key|fc];
      try discriminate Hv; simpl.
    + apply slider_change_power.
    + reflexivity.
    + destruct (cam_power (camera s)); reflexivity.
    + reflexivity.
    + destruct (cam_power (camera s)), granted, (recording (camera s));
        reflexivity.
    + destruct (Voice.startConversation _ key (voice s)); reflexivity.
    + unfold toolCall. destruct fc; try discriminate Hv; reflexivity.
  - destruct a as [|color value|dt|o| | | |granted|key|fc];
      try discriminate Hv; simpl; try reflexivity.
    + destruct (cam_power (camera s)); reflexivity.
    + destruct (cam_power (camera s)), granted, (recording (camera s));
        reflexivity.
    + unfold Voice.startConversation.
      destruct (Voice.isListening (voice s)), (Voice.no_key key);
        reflexivity.
    + unfold toolCall.
      destruct fc; try discriminate Hv; simpl;
        rewrite ?fetches_app, ?fetches_when_response, ?app_nil_r;
        try reflexivity; apply sendCncCommand_no_fetch.
  - intros color value -> Hen. simpl. unfold slider_change.
    rewrite Hen. reflexivity.
  - intros pw ->. reflexivity.
  - intros ->. reflexivity.
  - intros pw rc ->. reflexivity.
  - intros ->. reflexivity.
Qed.

Lemma C6_witness :
  via_reconciler (LightSlider chR 10) = false
  /\ power (lights (panel (light (fst (act (LightSlider chR 10) connected)))))
     = power (lights (panel (light connected)))
  /\ fetches (snd (act (LightSlider chR 10) connected)) = []
  /\ lights (panel (light (fst (act (LightSlider chR 10) connected))))
     = mkLightState off 10 220 180.
Proof.
  destruct (C6_power_is_reconciled_other_state_written_directly
              (LightSlider chR 10) connected eq_refl) as (H1 & H2 & H3 & _).
  split; [reflexivity|]. split; [exact H1|]. split; [exact H2|].
  exact (H3 chR 10 eq_refl eq_refl).
Defined.

End WorkshopProps.

Module ServerProps.
Import Server.

(** A request without a body, with a token held: the power is neither on
    nor off (there is none), yet the answer is not 400 but 500: the
    handler throws where it reads the field, and Express answers for
    it. *)
Lemma request_without_body_is_answered_500 :
  no_token authenticated = false
  /\ is_str "on" (power_field None) = false
  /\ is_str "off" (power_field None) = false
  /\ serve_lights_power None (1 # 2) authenticated
     = (authenticated, uncaught)
  /\ status uncaught = 500
  /\ ~ (forall (req_body : option JValue) (random : Q) (st : State),
          no_token st = false ->
          is_str "on" (power_field req_body) = false ->
          is_str "off" (power_field req_body) = false ->
          status (snd (serve_lights_power req_body random st)) = 400).
Proof.
  split; [reflexivity|]. split; [reflexivity|]. split; [reflexivity|].
  split; [reflexivity|]. split; [reflexivity|].
  intros H.
  specialize (H None (1 # 2) authenticated eq_refl eq_refl eq_refl).
  discriminate H.
Qed.

Lemma requested_power_values b p :
  requested_power b = Some p ->
  (p = "on" \/ p = "off") /\ get_field "power" b = Some (JStr p).
Proof.
  unfold requested_power.
  destruct (get_field "power" b) as [[| | |q| |]|]; try discriminate.
  destruct (String.eqb q "on") eqn:Eon.
  - apply String.eqb_eq in Eon. simpl. intros H. injection H as <-. auto.
  - destruct (String.eqb q "off") eqn:Eoff; [|discriminate].
    apply String.eqb_eq in Eoff. simpl. intros H. injection H as <-. auto.
Qed.

Lemma requested_power_none b :
  requested_power b = None <->
  is_str "on" (get_field "power" b) = false
  /\ is_str "off" (get_field "power" b) = false.
Proof.
  unfold requested_power, is_str.
  destruct (get_field "power" b) as [[| | |q| |]|]; try tauto.
  destruct (String.eqb q "on"), (String.eqb q "off"); simpl;
    split; try tauto; try discriminate; intros [H1 H2]; discriminate.
Qed.

(** C10, and where the code leaves it.  The answer is 401 whenever no
    token is held, whatever the request.  With a token held, a request
    with a body is answered 400 whenever its power is neither on nor off,
    and exactly then, as claimed; but a request without a body is
    answered 500, not 400: the handler throws before its test.  In all
    these cases the answer comes at once and the state is untouched.
    Otherwise the answer comes from the 500 ms timer: on the simulated
    failure it is 500 and the state is untouched, else it is the SUCCESS
    response and the stored power is the requested one (nothing else
    changes).  Hence a request changes the stored light state only when
    it is answered with SUCCESS. *)
Theorem C10_power_endpoint_statuses_and_state :
  forall (req_body : option JValue) (random : Q) (st : State),
    (no_token st = true ->
       lights_power req_body st = (st, Now (error 401 "Not authenticated")))
    /\ (no_token st = false -> req_body = None ->
          lights_power req_body st = (st, Throws)
          /\ serve_lights_power req_body random st = (st, uncaught))
    /\ (forall b, no_token st = false -> req_body = Some b ->
          (lights_power req_body st
           = (st, Now (error 400 "Invalid power state"))
           <-> is_str "on" (get_field "power" b) = false
               /\ is_str "off" (get_field "power" b) = false))
    /\ (forall b p, no_token st = false -> req_body = Some b ->
          requested_power b = Some p ->
          lights_power req_body st = (st, After 500 p)
          /\ (p = "on" \/ p = "off")
          /\ get_field "power" b = Some (JStr p))
    /\ (forall p later,
          simulated_failure random = true ->
          lights_power_timeout p random later
          = (later, error 500 "Failed to execute command"))
    /\ (forall p later,
          simulated_failure random = false ->
          lights_power_timeout p random later
          = (mkState (googleToken later)
                     (mkLightState p (color (lightState later))), success))
    /\ (status (snd (serve_lights_power req_body random st)) <> 200 ->
        fst (serve_lights_power req_body random st) = st)
    /\ (lightState (fst (serve_lights_power req_body random st))
          <> lightState st ->
        snd (serve_lights_power req_body random st) = success
        /\ exists b,
             req_body = Some b
             /\ requested_power b
                = Some (power (lightState
                                 (fst (serve_lights_power req_body random
                                                          st))))).
Proof.
  intros req_body random st.
  split; [|split; [|split; [|split; [|split; [|split; [|split]]]]]].
  - intros H. unfold lights_power. rewrite H. reflexivity.
  - intros H ->. unfold serve_lights_power, lights_power. rewrite H.
    split; reflexivity.
  - intros b H ->. unfold lights_power. rewrite H.
    rewrite <- requested_power_none.
    destruct (requested_power b); split; try reflexivity; discriminate.
  - intros b p H1 -> H2. unfold lights_power. rewrite H1, H2.
    split; [reflexivity|]. apply requested_power_values, H2.
  - intros p later H. unfold lights_power_timeout. rewrite H. reflexivity.
  - intros p later H. unfold lights_power_timeout. rewrite H. reflexivity.
  - unfold serve_lights_power, lights_power.
    destruct (no_token st); [reflexivity|].
    destruct req_body as [b|]; [|reflexivity].
    destruct (requested_power b); [|reflexivity].
    unfold lights_power_timeout.
    destruct (simulated_failure random); [reflexivity|].
    simpl. intros H. exfalso. apply H. reflexivity.
  - unfold serve_lights_power, lights_power.
    destruct (no_token st); [intros H; exfalso; apply H; reflexivity|].
    destruct req_body as [b|]; [|intros H; exfalso; apply H; reflexivity].
    destruct (requested_power b) as [p|] eqn:Ep;
      [|intros H; exfalso; apply H; reflexivity].
    unfold lights_power_timeout.
    destruct (simulated_failure random);
      [intros H; exfalso; apply H; reflexivity|].
    simpl. intros _. split; [reflexivity|]. exists b. split; [reflexivity|].
    exact Ep.
Qed.

Lemma C10_witness :
  lights_power (Some (JObj [("power", JStr "dim")])) authenticated
  = (authenticated, Now (error 400 "Invalid power state"))
  /\ serve_lights_power None (1 # 2) authenticated
     = (authenticated, uncaught).
Proof.
  destruct (C10_power_endpoint_statuses_and_state
              (Some (JObj [("power", JStr "dim")])) (1 # 2) authenticated)
    as (_ & _ & H & _).
  destruct (C10_power_endpoint_statuses_and_state
              None (1 # 2) authenticated) as (_ & H0 & _).
  split.
  - apply (H (JObj [("power", JStr "dim")]) eq_refl eq_refl).
    split; reflexivity.
  - apply (H0 eq_refl eq_refl).
Defined.

End ServerProps.

(** * Further properties of the light panel *)

Module LightExtra.
Import Light LightUi.

Lemma begin_unconnected env s n :
  lightConnectionStatus env <> Connected ->
  updateLightState_begin env n s = (s, [], Dropped).
Proof.
  intros H. unfold updateLightState_begin.
  destruct (lightConnectionStatus env); try congruence; reflexivity.
Qed.

(** X1. When the request of [updateLightState] succeeds (or there was
    nothing to send) the optimistic state stands: the light state is the
    snapshot overwritten by the requested fields, the updating flag is
    cleared, the connection status and the address are untouched, and
    nothing but the request itself was emitted. *)
Theorem X1_successful_update_keeps_optimistic_state :
  forall (env s : Panel) (newState : PartialLightState) (o : FetchOutcome),
    lightConnectionStatus env = Connected ->
    isUpdatingLight env = false ->
    fetch_succeeded o = true ->
    let (s2, es) := updateLightState env newState o s in
    lights s2 = spread (lights env) newState
    /\ isUpdatingLight s2 = false
    /\ lightConnectionStatus s2 = lightConnectionStatus s
    /\ lightIpAddress s2 = lightIpAddress s
    /\ fetches es = es
    /\ (List.length es <= 1)%nat.
Proof.
  intros env s n o Hc Hu Ho. unfold updateLightState, updateLightState_begin.
  rewrite Hc, Hu. simpl.
  destruct (payload_fields n (spread (lights env) n)) as [|f fs]; simpl.
  - repeat split. auto.
  - unfold updateLightState_settle. rewrite Ho. simpl. repeat split. auto.
Qed.

Lemma X1_witness :
  lights (fst (updateLightState connected_panel (mkPartial None (Some 1) None None)
                 (Responded 204) connected_panel))
  = mkLightState off 1 220 180.
Proof.
  pose proof (X1_successful_update_keeps_optimistic_state connected_panel
                connected_panel (mkPartial None (Some 1) None None)
                (Responded 204) eq_refl eq_refl eq_refl) as H.
  destruct (updateLightState connected_panel
              (mkPartial None (Some 1) None None) (Responded 204)
              connected_panel) as [s2 es].
  destruct H as [H _]. exact H.
Defined.

(** X2. Whatever [updateLightState] is asked, it sends at most one
    request, and a request it sends is a POST whose body is never empty:
    it has the member [power] exactly when a power was requested, and the
    member [color] exactly when some channel was requested, and then with
    all three channels of the merged state, not only the requested one. *)
Theorem X2_request_body_shape :
  forall (env s : Panel) (newState : PartialLightState),
    match snd (fst (updateLightState_begin env newState s)) with
    | [] => snd (updateLightState_begin env newState s) = Dropped
            \/ snd (updateLightState_begin env newState s) = NothingToSend
    | [e] =>
        is_post e = true
        /\ snd (updateLightState_begin env newState s) = InFlight (lights env)
        /\ body_member "power" e = option_map power_json (p_power newState)
        /\ body_member "color" e =
             (if names_a_channel newState
              then Some (color_json (spread (lights env) newState))
              else None)
        /\ (body_member "power" e <> None \/ body_member "color" e <> None)
    | _ => False
    end.
Proof.
  intros env s n. unfold updateLightState_begin.
  destruct (negb (is_connected (lightConnectionStatus env))
            || isUpdatingLight env); [left; reflexivity|].
  unfold payload_fields, names_a_channel.
  destruct (p_power n) as [p|];
    destruct (is_some (p_r n) || is_some (p_g n) || is_some (p_b n));
    simpl; try (right; reflexivity);
    (split; [reflexivity|]); (split; [reflexivity|]);
    (split; [reflexivity|]); (split; [reflexivity|]);
    try (left; discriminate); right; discriminate.
Qed.

(** X3. Two power toggles in a row, each from the current render and each
    acknowledged by the light, bring the panel back to exactly the state
    it started from. *)
Theorem X3_two_acknowledged_toggles_cancel :
  forall (s : Panel) (code1 code2 : Z),
    lightConnectionStatus s = Connected ->
    isUpdatingLight s = false ->
    response_ok code1 = true -> response_ok code2 = true ->
    let s1 := fst (updateLightState s (toggle (lights s)) (Responded code1) s) in
    let s2 := fst (updateLightState s1 (toggle (lights s1))
                                    (Responded code2) s1) in
    power (lights s1) <> power (lights s) /\ s2 = s.
Proof.
  intros s c1 c2 Hc Hu H1 H2.
  destruct s as [[p r0 g0 b0] u ip st]. simpl in Hc, Hu. subst u st.
  unfold updateLightState, updateLightState_begin, updateLightState_settle.
  simpl. rewrite H1. simpl. rewrite H2. simpl.
  destruct p; split; try discriminate; reflexivity.
Qed.

Lemma X3_witness :
  fst (updateLightState
         (fst (updateLightState connected_panel
                 (toggle (lights connected_panel)) (Responded 200)
                 connected_panel))
         (toggle (lights (fst (updateLightState connected_panel
                                 (toggle (lights connected_panel))
                                 (Responded 200) connected_panel))))
         (Responded 200)
         (fst (updateLightState connected_panel
                 (toggle (lights connected_panel)) (Responded 200)
                 connected_panel)))
  = connected_panel.
Proof.
  apply (X3_two_acknowledged_toggles_cancel connected_panel 200 200);
    reflexivity.
Defined.

(** *** The snapshot of a debounced request *)

Lemma advance_none dt c :
  timers c = [] ->
  advance dt c =
    (mkCtl (panel c) (lightColorTimeoutRef c) [] (nextTimerId c)
           (now c + dt) (outstanding c), []).
Proof. intros H. unfold advance. rewrite H. reflexivity. Qed.

Lemma advance_not_due dt c t :
  timers c = [t] -> now c + dt < due t ->
  advance dt c =
    (mkCtl (panel c) (lightColorTimeoutRef c) [t] (nextTimerId c)
           (now c + dt) (outstanding c), []).
Proof.
  intros Ht Hlt. unfold advance. rewrite Ht. simpl.
  assert (E : (due t <=? now c + dt) = false) by (apply Z.leb_gt; lia).
  rewrite E. reflexivity.
Qed.

Lemma slider_change_exact color value c :
  isLightConnected (panel c) = true -> isUpdatingLight (panel c) = false ->
  timers c = []
  \/ (exists t, timers c = [t] /\ lightColorTimeoutRef c = Some (tid t)
                /\ tid t <> 0%nat) ->
  slider_change color value c =
    mkCtl (setLights (set_channel color value (lights (panel c))) (panel c))
          (Some (nextTimerId c))
          [mkTimer (nextTimerId c) (now c + DEBOUNCE_MS) (panel c)]
          (S (nextTimerId c)) (now c) (outstanding c).
Proof.
  intros Hc Hu Ht. unfold slider_change, fieldset_disabled.
  unfold isLightConnected in Hc. rewrite Hc, Hu. simpl.
  unfold handleLightColorChange.
  assert (E : match lightColorTimeoutRef c with
              | Some (S _ as id) => clearTimeout id (timers c)
              | _ => timers c
              end = []).
  { destruct Ht as [Ht | (t & Ht & Hr & Hn)].
    - rewrite Ht. destruct (lightColorTimeoutRef c) as [[|?]|]; reflexivity.
    - rewrite Hr, Ht. destruct (tid t) as [|k] eqn:Hk; [congruence|].
      unfold clearTimeout. simpl. rewrite Hk, Nat.eqb_refl. reflexivity. }
  rewrite E. reflexivity.
Qed.

(** What a burst leaves behind: no request yet, the light state with all
    changes applied, everything else of the panel and the requests in
    flight as before, and one timer if there was a change. *)
Lemma slide_exact cs : forall c,
  isLightConnected (panel c) = true -> isUpdatingLight (panel c) = false ->
  nextTimerId c <> 0%nat -> one_timer c ->
  Forall in_window cs ->
  exists c1,
    slide cs c = (c1, [])
    /\ panel c1 = setLights (apply_changes cs (lights (panel c))) (panel c)
    /\ nextTimerId c1 <> 0%nat /\ one_timer c1
    /\ outstanding c1 = outstanding c.
Proof.
  induction cs as [|[[gap color] value] rest IH]; intros c Hc Hu Hn Ht Hw.
  - exists c. simpl. repeat split; auto. destruct (panel c); reflexivity.
  - inversion Hw as [|? ? Hgap Hrest]; subst. unfold in_window in Hgap.
    simpl in Hgap.
    assert (Hadv : exists c1, advance gap c = (c1, [])
                     /\ panel c1 = panel c
                     /\ nextTimerId c1 = nextTimerId c
                     /\ outstanding c1 = outstanding c
                     /\ (timers c1 = []
                         \/ exists t, timers c1 = [t]
                                      /\ lightColorTimeoutRef c1 = Some (tid t)
                                      /\ tid t <> 0%nat)).
    { destruct Ht as [Ht | (t & Ht & Hr & Hid & Hd)].
      - eexists. split; [apply advance_none; exact Ht|].
        simpl. repeat split. left. reflexivity.
      - eexists. split; [apply (advance_not_due gap c t Ht); lia|].
        simpl. repeat split. right. exists t. auto. }
    destruct Hadv as (c1 & Ea & Hp1 & Hn1 & Ho1 & Ht1).
    assert (Hc1 : isLightConnected (panel c1) = true) by (rewrite Hp1; auto).
    assert (Hu1 : isUpdatingLight (panel c1) = false) by (rewrite Hp1; auto).
    pose proof (slider_change_exact color value c1 Hc1 Hu1 Ht1) as Es.
    destruct (IH (slider_change color value c1)) as (c3 & E3 & P3 & N3 & T3 & O3);
      try (rewrite Es; simpl; auto; fail).
    { rewrite Es. simpl. right. eexists. split; [reflexivity|]. simpl.
      repeat split. rewrite Hn1. exact Hn. }
    { exact Hrest. }
    exists c3. simpl. rewrite Ea, E3. simpl. split; [reflexivity|].
    split; [|split; [exact N3|split; [exact T3|]]].
    + rewrite P3, Es. simpl. rewrite Hp1. reflexivity.
    + rewrite O3, Es. simpl. exact Ho1.
Qed.

Lemma slide_app cs1 cs2 c :
  slide (cs1 ++ cs2) c =
    (let (c1, es1) := slide cs1 c in
     let (c2, es2) := slide cs2 c1 in (c2, es1 ++ es2)).
Proof.
  revert c. induction cs1 as [|[[gap color] value] rest IH]; intros c; simpl.
  - destruct (slide cs2 c); reflexivity.
  - destruct (advance gap c) as [c1 es1].
    rewrite IH. destruct (slide rest (slider_change color value c1)) as [c2 es2].
    destruct (slide cs2 c2) as [c3 es3]. now rewrite app_assoc.
Qed.

(** X4. The snapshot a debounced colour request reverts to.  After a
    burst of slider changes on a connected, idle light with nothing in
    flight, the one request is made by the handler of the render that
    preceded the last change.  If that request fails, the light state goes
    back to the state with every change of the burst but the last one
    applied (and the status to Error); if it succeeds, the light state has
    all of them. *)
Theorem X4_failed_burst_reverts_to_state_before_last_change :
  forall (cs : list Change) (last : Change) (o : FetchOutcome) (c : Ctl),
    lightConnectionStatus (panel c) = Connected ->
    isUpdatingLight (panel c) = false ->
    nextTimerId c <> 0%nat ->
    timers c = [] ->
    outstanding c = [] ->
    Forall in_window (cs ++ [last]) ->
    let c2 := fst (slide_settle_reply (cs ++ [last]) o c) in
    lights (panel c2) =
      (if fetch_succeeded o
       then apply_changes (cs ++ [last]) (lights (panel c))
       else apply_changes cs (lights (panel c)))
    /\ lightConnectionStatus (panel c2) =
         (if fetch_succeeded o then Connected else Error)
    /\ isUpdatingLight (panel c2) = false
    /\ outstanding c2 = [].
Proof.
  intros cs [[gap color] value] o c Hc Hu Hn Ht Ho Hw.
  apply Forall_app in Hw. destruct Hw as [Hw1 Hw2].
  inversion Hw2 as [|? ? Hgap _]; subst. unfold in_window in Hgap.
  simpl in Hgap.
  assert (Hc' : isLightConnected (panel c) = true)
    by (unfold isLightConnected; rewrite Hc; reflexivity).
  destruct (slide_exact cs c Hc' Hu Hn (or_introl Ht) Hw1)
    as (c1 & E1 & P1 & N1 & T1 & O1).
  assert (Hadv : exists c1', advance gap c1 = (c1', [])
                   /\ panel c1' = panel c1
                   /\ nextTimerId c1' = nextTimerId c1
                   /\ outstanding c1' = outstanding c1
                   /\ (timers c1' = []
                       \/ exists t, timers c1' = [t]
                                    /\ lightColorTimeoutRef c1' = Some (tid t)
                                    /\ tid t <> 0%nat)).
  { destruct T1 as [T1 | (t & T1 & Hr & Hid & Hd)].
    - eexists. split; [apply advance_none; exact T1|].
      simpl. repeat split. left. reflexivity.
    - eexists. split; [apply (advance_not_due gap c1 t T1); lia|].
      simpl. repeat split. right. exists t. auto. }
  destruct Hadv as (c1' & Ea & Hp1 & Hn1 & Ho1 & Ht1).
  assert (Hc1 : isLightConnected (panel c1') = true)
    by (rewrite Hp1, P1; exact Hc').
  assert (Hu1 : isUpdatingLight (panel c1') = false)
    by (rewrite Hp1, P1; exact Hu).
  pose proof (slider_change_exact color value c1' Hc1 Hu1 Ht1) as Es.
  unfold slide_settle_reply, slide_and_settle.
  rewrite slide_app, E1. simpl. rewrite Ea, Es. simpl.
  unfold advance. simpl. rewrite Z.leb_refl. simpl.
  unfold fire, start_update, updateLightState_begin. simpl.
  unfold isLightConnected in Hc1. rewrite Hc1, Hu1. simpl.
  unfold reply. simpl. rewrite Ho1, O1, Ho. simpl.
  unfold updateLightState_settle.
  rewrite Hp1, P1. simpl.
  unfold apply_changes. rewrite fold_left_app. simpl.
  destruct (fetch_succeeded o); simpl.
  - repeat split; try assumption.
    destruct color; reflexivity.
  - repeat split.
Qed.

Lemma X4_witness :
  lights (panel (fst (slide_settle_reply two_colors TimedOut connected_ctl)))
  = mkLightState off 40 50 30.
Proof.
  apply (X4_failed_burst_reverts_to_state_before_last_change
           [(0, chR, 10); (10, chG, 20); (10, chB, 30);
            (50, chR, 40); (10, chG, 50)]
           (10, chB, 60) TimedOut connected_ctl);
    try reflexivity; try discriminate.
  unfold in_window, DEBOUNCE_MS. repeat constructor; simpl; lia.
Defined.

End LightExtra.

(** * Invariants of runs of the whole component *)

Module WorkshopExtra.
Import Light LightUi Workshop WorkshopRun.

Lemma with_panel_same c : with_panel (panel c) c = c.
Proof. destruct c; reflexivity. Qed.

Lemma start_update_unconnected env n c :
  lightConnectionStatus env <> Connected ->
  start_update env n c = (c, []).
Proof.
  intros H. unfold start_update.
  rewrite (LightExtra.begin_unconnected env (panel c) n H).
  now rewrite with_panel_same.
Qed.

Lemma fire_all_unconnected ts : forall c,
  Forall (fun t => lightConnectionStatus (closure t) <> Connected) ts ->
  fire_all ts c = (c, []).
Proof.
  induction ts as [|t ts IH]; intros c H; [reflexivity|].
  inversion H; subst. simpl. unfold fire.
  rewrite start_update_unconnected by assumption.
  rewrite IH by assumption. reflexivity.
Qed.

Lemma Forall_filter {A} (P : A -> Prop) f (l : list A) :
  Forall P l -> Forall P (filter f l).
Proof.
  induction 1 as [|x l Hx Hl IH]; simpl; [constructor|].
  destruct (f x); [constructor|]; assumption.
Qed.

Lemma settle_status orig o p :
  lightConnectionStatus p <> Connected ->
  lightConnectionStatus (fst (updateLightState_settle orig o p)) <> Connected.
Proof.
  intros H. unfold updateLightState_settle.
  destruct (fetch_succeeded o); simpl; [exact H|discriminate].
Qed.

Lemma settle_no_fetch orig o p :
  fetches (snd (updateLightState_settle orig o p)) = [].
Proof.
  unfold updateLightState_settle. destruct (fetch_succeeded o); reflexivity.
Qed.

(** One action on a component in which no closure saw the light
    Connected and nothing is in flight. *)
Lemma act_never_connected a s :
  never_connected s -> outstanding (light s) = [] ->
  never_connected (fst (act a s))
  /\ outstanding (light (fst (act a s))) = []
  /\ fetches (snd (act a s)) = []
  /\ panel (light (fst (act a s))) = panel (light s).
Proof.
  intros (Hp & Hv & Ht) Ho.
  assert (Hdis : fieldset_disabled (panel (light s)) = true).
  { unfold fieldset_disabled.
    destruct (lightConnectionStatus (panel (light s))); try reflexivity.
    congruence. }
  destruct a as [|color value|dt|o| | | |granted|key|fc]; simpl.
  - rewrite Hdis. simpl. repeat split; assumption.
  - unfold slider_change. rewrite Hdis. simpl. repeat split; assumption.
  - unfold advance.
    rewrite fire_all_unconnected by (apply Forall_filter; exact Ht).
    simpl. repeat split; try assumption.
    apply Forall_filter; exact Ht.
  - unfold reply. rewrite Ho. simpl. repeat split; assumption.
  - repeat split; assumption.
  - destruct (cam_power (camera s)); simpl; repeat split; assumption.
  - repeat split; assumption.
  - destruct (cam_power (camera s)), granted, (recording (camera s));
      simpl; repeat split; assumption.
  - unfold Voice.startConversation.
    destruct (Voice.isListening (voice s)), (Voice.no_key key); simpl;
      repeat split; assumption.
  - unfold toolCall.
    destruct fc; unfold call;
      rewrite ?start_update_unconnected by assumption;
      unfold in_light, in_cnc, Cnc.handleCncPlay, Cnc.handleCncPause,
        Cnc.handleCncStop; cbn [fst snd light set_light set_cnc
        setDustCollectorOn setCamera voice voiceLight];
      rewrite ?WorkshopProps.fetches_app,
              ?WorkshopProps.fetches_when_response,
              ?WorkshopProps.sendCncCommand_no_fetch;
      repeat split; try assumption; try reflexivity.
Qed.

Lemma set_panel_never_connected p s :
  never_connected s -> lightConnectionStatus p <> Connected ->
  never_connected (set_panel p s)
  /\ outstanding (light (set_panel p s)) = outstanding (light s)
  /\ panel (light (set_panel p s)) = p.
Proof.
  intros (_ & Hv & Ht) Hp. unfold never_connected, set_panel. simpl. auto.
Qed.

(** One input on a component in which no closure saw the light Connected
    and nothing is in flight, when no connect attempt succeeds. *)
Lemma input_never_connected i x :
  never_connected (app x) -> outstanding (light (app x)) = [] ->
  connect_fails i = true ->
  never_connected (app (fst (input i x)))
  /\ outstanding (light (app (fst (input i x)))) = []
  /\ Forall is_status_probe (fetches (snd (input i x)))
  /\ lights (panel (light (app (fst (input i x)))))
     = lights (panel (light (app x))).
Proof.
  intros Hn Ho Hi. pose proof Hn as (Hp & _).
  assert (Same : never_connected (app x)
                 /\ outstanding (light (app x)) = []
                 /\ Forall is_status_probe (fetches [])
                 /\ lights (panel (light (app x)))
                    = lights (panel (light (app x)))).
  { split; [exact Hn|]. split; [exact Ho|]. split; [constructor|reflexivity]. }
  assert (Set_ : forall p es,
             lightConnectionStatus p <> Connected ->
             Forall is_status_probe (fetches es) ->
             lights p = lights (panel (light (app x))) ->
             never_connected (set_panel p (app x))
             /\ outstanding (light (set_panel p (app x))) = []
             /\ Forall is_status_probe (fetches es)
             /\ lights (panel (light (set_panel p (app x))))
                = lights (panel (light (app x)))).
  { intros p es Hs Hes Hl.
    destruct (set_panel_never_connected p (app x) Hn Hs) as (H1 & H2 & H3).
    rewrite H2, H3. split; [exact H1|]. split; [exact Ho|].
    split; [exact Hes|exact Hl]. }
  destruct i as [a| value | ip | | o]; cbn [input].
  - destruct (act_never_connected a (app x) Hn Ho) as (H1 & H2 & H3 & H4).
    destruct (act a (app x)) as [s es]. cbn [fst snd app] in *.
    rewrite H3, H4. split; [exact H1|]. split; [exact H2|].
    split; [constructor|reflexivity].
  - destruct (isLightConnectable (panel (light (app x)))); cbn [fst snd app];
      [|exact Same].
    apply Set_; [exact Hp|constructor|reflexivity].
  - cbn [fst snd app]. apply Set_; [exact Hp|constructor|reflexivity].
  - unfold connect_button, handleConnectLight_begin, handleDisconnectLight.
    destruct (lightConnectionStatus (panel (light (app x)))) eqn:Es;
      try congruence.
    + destruct (String.eqb (lightIpAddress (panel (light (app x))))
                           EmptyString); cbn [fst snd app].
      * apply Set_; [rewrite Es; discriminate|constructor|reflexivity].
      * apply Set_; [discriminate| |reflexivity].
        repeat constructor. eexists. reflexivity.
    + cbn [fst snd app].
      apply Set_; [rewrite Es; discriminate|constructor|reflexivity].
    + destruct (String.eqb (lightIpAddress (panel (light (app x))))
                           EmptyString); cbn [fst snd app].
      * apply Set_; [rewrite Es; discriminate|constructor|reflexivity].
      * apply Set_; [discriminate| |reflexivity].
        repeat constructor. eexists. reflexivity.
  - destruct (connecting x) as [|n]; cbn [fst snd app]; [exact Same|].
    unfold handleConnectLight_settle. cbn [connect_fails] in Hi.
    apply negb_true_iff in Hi. rewrite Hi. cbn [fst snd app].
    apply Set_; [discriminate|constructor|reflexivity].
Qed.

(** X5. Until a connect attempt has succeeded the light is never
    commanded.  Take a component in which no render saw the light
    Connected (so the mounted component, or any later one) and nothing is
    in flight.  Whatever the sequence of inputs: the Connect button and
    the replies to it, none of them a success, an address typed or chosen
    from the scan, power clicks, slider moves, timer expiries, replies
    and voice tool calls, the only requests sent are the status probes of
    the Connect button (a GET of [<ip>/status]); no POST is sent, the
    light state stays as it is and the status is never Connected. *)
Theorem X5_unconnected_light_is_never_contacted :
  forall (ins : list Input) (x : Shop),
    never_connected (app x) ->
    outstanding (light (app x)) = [] ->
    forallb connect_fails ins = true ->
    Forall is_status_probe (fetches (snd (inputs ins x)))
    /\ filter is_post (snd (inputs ins x)) = []
    /\ lights (panel (light (app (fst (inputs ins x)))))
       = lights (panel (light (app x)))
    /\ lightConnectionStatus (panel (light (app (fst (inputs ins x)))))
       <> Connected.
Proof.
  assert (G : forall ins x,
             never_connected (app x) -> outstanding (light (app x)) = [] ->
             forallb connect_fails ins = true ->
             never_connected (app (fst (inputs ins x)))
             /\ Forall is_status_probe (fetches (snd (inputs ins x)))
             /\ lights (panel (light (app (fst (inputs ins x)))))
                = lights (panel (light (app x)))).
  { induction ins as [|i ins IH]; intros x Hn Ho Hf.
    - simpl. split; [exact Hn|]. split; [constructor|reflexivity].
    - simpl in Hf. apply andb_true_iff in Hf. destruct Hf as [Hi Hf].
      destruct (input_never_connected i x Hn Ho Hi) as (H1 & H2 & H3 & H4).
      specialize (IH (fst (input i x)) H1 H2 Hf). cbn [inputs].
      destruct (input i x) as [x1 es1]. cbn [fst snd] in *.
      destruct (inputs ins x1) as [x2 es2]. cbn [fst snd] in *.
      destruct IH as (I1 & I2 & I3). split; [exact I1|]. split.
      + unfold fetches in *. rewrite filter_app. apply Forall_app. auto.
      + congruence. }
  intros ins x Hn Ho Hf. destruct (G ins x Hn Ho Hf) as (H1 & H2 & H3).
  split; [exact H2|]. split; [|split; [exact H3|apply H1]].
  assert (P : forall es, Forall is_status_probe (fetches es) ->
                         filter is_post es = []).
  { induction es as [|e es IHes]; intros Hes; [reflexivity|].
    unfold fetches in Hes. simpl in *. destruct e; simpl in *;
      try (apply IHes; exact Hes).
    inversion Hes as [|? ? (ip & E) Hrest]; subst. injection E as -> _ _.
    simpl. apply IHes, Hrest. }
  apply P, H2.
Qed.

Lemma X5_witness :
  fetches
    (snd (inputs [ConnectClick; ConnectReply TimedOut; Do LightPowerClick;
                  Do (LightSlider chR 10); Do (TimePasses 250);
                  AddressSelected "http://192.168.1.7"; ConnectClick;
                  Do (VoiceStart (Some "key"));
                  Do (VoiceToolCall
                        (controlLights (toggle (lights initial_panel))))]
                 mounted))
  = [Fetch "GET" "http://192.168.1.50/status" None;
     Fetch "GET" "http://192.168.1.7/status" None]
  /\ filter is_post
       (snd (inputs [ConnectClick; ConnectReply TimedOut; Do LightPowerClick;
                     Do (LightSlider chR 10); Do (TimePasses 250);
                     AddressSelected "http://192.168.1.7"; ConnectClick;
                     Do (VoiceStart (Some "key"));
                     Do (VoiceToolCall
                           (controlLights (toggle (lights initial_panel))))]
                    mounted)) = [].
Proof.
  split; [reflexivity|].
  apply (X5_unconnected_light_is_never_contacted
           [ConnectClick; ConnectReply TimedOut; Do LightPowerClick;
            Do (LightSlider chR 10); Do (TimePasses 250);
            AddressSelected "http://192.168.1.7"; ConnectClick;
            Do (VoiceStart (Some "key"));
            Do (VoiceToolCall (controlLights (toggle (lights initial_panel))))]
           mounted).
  - repeat split; try discriminate. constructor.
  - reflexivity.
  - reflexivity.
Defined.

(** *** The updating flag *)

Lemma start_update_flag env n c :
  ctl_flag_has_request c -> ctl_flag_has_request (fst (start_update env n c)).
Proof.
  intros H. unfold start_update, updateLightState_begin.
  destruct (negb (is_connected (lightConnectionStatus env))
            || isUpdatingLight env).
  - simpl. now rewrite with_panel_same.
  - destruct (payload_fields n (spread (lights env) n)); simpl.
    + intros Hf. discriminate Hf.
    + intros _. simpl. intros E. apply app_eq_nil in E.
      destruct E as [_ E]. discriminate E.
Qed.

Lemma fire_all_flag ts : forall c,
  ctl_flag_has_request c -> ctl_flag_has_request (fst (fire_all ts c)).
Proof.
  induction ts as [|t ts IH]; intros c H; [exact H|].
  simpl. unfold fire.
  pose proof (start_update_flag (closure t)
                (mkPartial None (Some (r (lights (panel c))))
                   (Some (g (lights (panel c))))
                   (Some (b (lights (panel c))))) c H) as H1.
  destruct (start_update _ _ c) as [c1 es1]. simpl in H1.
  specialize (IH c1 H1). destruct (fire_all ts c1) as [c2 es2]. exact IH.
Qed.

Lemma act_flag a s : flag_has_request s -> flag_has_request (fst (act a s)).
Proof.
  unfold flag_has_request. intros H.
  destruct a as [|color value|dt|o| | | |granted|key|fc]; simpl.
  - destruct (fieldset_disabled (panel (light s))); [exact H|].
    simpl. apply start_update_flag, H.
  - unfold slider_change.
    destruct (fieldset_disabled (panel (light s))); [exact H|].
    exact H.
  - unfold advance. apply fire_all_flag. exact H.
  - unfold reply. destruct (outstanding (light s)) as [|o1 rest]; [exact H|].
    unfold updateLightState_settle, ctl_flag_has_request.
    destruct (fetch_succeeded o); simpl; discriminate.
  - exact H.
  - destruct (cam_power (camera s)); exact H.
  - exact H.
  - destruct (cam_power (camera s)), granted, (recording (camera s)); exact H.
  - destruct (Voice.startConversation _ key (voice s)); exact H.
  - unfold toolCall. destruct fc; simpl; try exact H.
    apply start_update_flag, H.
Qed.

(** X6. The light controls never stay locked.  After any sequence of
    actions on the mounted component (or on any state in which a set
    updating flag has a request in flight), whenever the updating flag is
    set some request of [updateLightState] is still awaiting its reply,
    and the arrival of the next reply, whatever it is, clears the flag. *)
Theorem X6_updating_flag_is_cleared_by_next_reply :
  forall (acts : list Action) (s : State) (o : FetchOutcome),
    flag_has_request s ->
    let s1 := fst (run acts s) in
    (isUpdatingLight (panel (light s1)) = true -> outstanding (light s1) <> [])
    /\ isUpdatingLight (panel (light (fst (act (LightReply o) s1)))) = false.
Proof.
  intros acts s o H.
  assert (Hrun : forall acts s, flag_has_request s ->
                                flag_has_request (fst (run acts s))).
  { clear. induction acts as [|a acts IH]; intros s H; [exact H|].
    simpl. pose proof (act_flag a s H) as H1.
    specialize (IH (fst (act a s)) H1).
    destruct (act a s) as [s1 es1]. simpl in *.
    destruct (run acts s1) as [s2 es2]. exact IH. }
  specialize (Hrun acts s H). simpl. split; [exact Hrun|].
  unfold reply. unfold flag_has_request, ctl_flag_has_request in Hrun.
  destruct (outstanding (light (fst (run acts s)))) as [|o1 rest].
  - simpl. destruct (isUpdatingLight (panel (light (fst (run acts s)))));
      [exfalso; apply Hrun; reflexivity|reflexivity].
  - unfold updateLightState_settle. destruct (fetch_succeeded o); reflexivity.
Qed.

Lemma X6_witness :
  isUpdatingLight
    (panel (light (fst (run [LightPowerClick] connected)))) = true
  /\ isUpdatingLight
       (panel (light (fst (act (LightReply TimedOut)
                               (fst (run [LightPowerClick] connected))))))
     = false.
Proof.
  split; [reflexivity|].
  apply (X6_updating_flag_is_cleared_by_next_reply
           [LightPowerClick] connected TimedOut).
  intros H. discriminate H.
Defined.

End WorkshopExtra.

(** * The colour swatch *)

Module HexProps.
Import Hex.

Lemma in_range_listed x : in_range x -> In x channel_values.
Proof.
  intros [H0 H1]. unfold channel_values. apply in_map_iff.
  exists (Z.to_nat x). split; [lia|]. apply in_seq. lia.
Qed.

Lemma distinct_NoDup l : distinct l = true -> NoDup l.
Proof.
  induction l as [|x l IH]; simpl; [constructor|].
  intros H. apply andb_prop in H. destruct H as [Hx Hl].
  constructor; [|auto]. intros Hin.
  apply negb_true_iff in Hx.
  assert (E : existsb (String.eqb x) l = true).
  { apply existsb_exists. exists x. split; [exact Hin|apply String.eqb_refl]. }
  congruence.
Qed.

Lemma NoDup_map_inj {A B} (f : A -> B) l x y :
  NoDup (map f l) -> In x l -> In y l -> f x = f y -> x = y.
Proof.
  induction l as [|a l IH]; simpl; [tauto|].
  intros Hnd Hx Hy E. inversion Hnd as [|? ? Hna Hl]; subst.
  destruct Hx as [<-|Hx], Hy as [<-|Hy]; auto.
  - exfalso. apply Hna. rewrite E. now apply in_map.
  - exfalso. apply Hna. rewrite <- E. now apply in_map.
Qed.

Lemma channel_hex_distinct : NoDup (map channel_hex channel_values).
Proof. apply distinct_NoDup. vm_compute. reflexivity. Qed.

Lemma channel_hex_length x : in_range x -> String.length (channel_hex x) = 2%nat.
Proof.
  intros H. apply in_range_listed in H.
  assert (A : Forall (fun v => String.length (channel_hex v) = 2%nat)
                     channel_values).
  { apply Forall_forall. intros v Hv.
    assert (B : forallb (fun v => Nat.eqb (String.length (channel_hex v)) 2)
                        channel_values = true) by (vm_compute; reflexivity).
    rewrite forallb_forall in B. apply Nat.eqb_eq, B, Hv. }
  rewrite Forall_forall in A. apply A, H.
Qed.

Lemma channel_hex_inj x y :
  in_range x -> in_range y -> channel_hex x = channel_hex y -> x = y.
Proof.
  intros Hx Hy. apply (NoDup_map_inj channel_hex channel_values);
    auto using channel_hex_distinct, in_range_listed.
Qed.

Lemma length_append (a b : string) :
  String.length (a ++ b)%string = (String.length a + String.length b)%nat.
Proof. induction a as [|c a IH]; simpl; [reflexivity|now rewrite IH]. Qed.

Lemma append_same_length (a a' b b' : string) :
  String.length a = String.length a' ->
  (a ++ b)%string = (a' ++ b')%string -> a = a' /\ b = b'.
Proof.
  revert a'. induction a as [|c a IH]; intros [|c' a'] Hl E;
    simpl in *; try discriminate; [auto|].
  injection E as -> E. injection Hl as Hl.
  destruct (IH a' Hl E) as [-> ->]. auto.
Qed.

(** X7. For channel values a slider can hold (0 to 255) [rgbToHex] gives
    a string of exactly seven characters, the hash sign and two
    hexadecimal digits per channel, and different colours give different
    strings. *)
Theorem X7_rgbToHex_seven_chars_and_injective :
  forall r g b r' g' b' : Z,
    in_range r -> in_range g -> in_range b ->
    in_range r' -> in_range g' -> in_range b' ->
    String.length (rgbToHex r g b) = 7%nat
    /\ rgbToHex r g b =
         String "#" (channel_hex r ++ channel_hex g ++ channel_hex b)
    /\ (rgbToHex r g b = rgbToHex r' g' b' -> r = r' /\ g = g' /\ b = b').
Proof.
  intros r g b r' g' b' Hr Hg Hb Hr' Hg' Hb'.
  assert (E : forall x y z,
             rgbToHex x y z =
               String "#" (channel_hex x ++ channel_hex y ++ channel_hex z)).
  { intros. unfold rgbToHex. simpl. reflexivity. }
  split; [|split; [apply E|]].
  - rewrite E. simpl. rewrite !length_append.
    rewrite !channel_hex_length by assumption. reflexivity.
  - rewrite !E. intros H. injection H as H.
    apply append_same_length in H;
      [|now rewrite !channel_hex_length by assumption].
    destruct H as [H1 H].
    apply append_same_length in H;
      [|now rewrite !channel_hex_length by assumption].
    destruct H as [H2 H3].
    auto using channel_hex_inj.
Qed.

Lemma X7_witness :
  rgbToHex 255 220 180 = "#ffdcb4"
  /\ String.length (rgbToHex 255 220 180) = 7%nat.
Proof.
  split; [reflexivity|].
  apply (X7_rgbToHex_seven_chars_and_injective 255 220 180 0 0 0);
    unfold in_range; lia.
Defined.

End HexProps.

(** * Further properties of the scanner *)

Module ScannerExtra.
Import Scanner ScannerUi ScannerProps.

(** *** The progress counter *)

(** A step settles exactly the probes it counts. *)
Lemma settled_count_map (f : Probe -> Probe) (c : Probe -> bool) ps :
  (forall p, c p = true -> is_pending p = true /\ is_pending (f p) = false) ->
  (forall p, c p = false -> is_pending (f p) = is_pending p) ->
  settled_count (map f ps)
  = settled_count ps + Z.of_nat (List.length (filter c ps)).
Proof.
  intros Hc Hn. unfold settled_count. rewrite <- Nat2Z.inj_add. f_equal.
  induction ps as [|p ps IH]; [reflexivity|]. simpl.
  destruct (c p) eqn:Ec.
  - destruct (Hc p Ec) as [Hp Hf]. rewrite Hp, Hf. simpl. lia.
  - rewrite (Hn p Ec). destruct (is_pending p); simpl; lia.
Qed.

Lemma filter_pending_due t ps :
  count_pending (filter (timer_due t) ps)
  = Z.of_nat (List.length (filter (fun p => timer_due t p && is_pending p) ps)).
Proof.
  unfold count_pending. f_equal.
  induction ps as [|p ps IH]; [reflexivity|]. simpl.
  destruct (timer_due t p); simpl; [|exact IH].
  destruct (is_pending p); simpl; [f_equal|]; exact IH.
Qed.

Lemma after_progress s : scanProgress (after_allSettled s) = scanProgress s.
Proof. unfold after_allSettled. destruct (_ && _); reflexivity. Qed.

Lemma step_progress_inv e s : progress_inv s -> progress_inv (fst (step e s)).
Proof.
  unfold progress_inv. intros H. destruct e as [i a|dt|]; simpl.
  - rewrite after_progress, after_probes. simpl. rewrite H.
    symmetry. apply settled_count_map.
    + intros p Hp. rewrite Hp. unfold hit in Hp.
      apply andb_prop in Hp. destruct Hp as [_ Hp]. split; [exact Hp|].
      unfold is_pending. simpl. destruct a; reflexivity.
    + intros p Hp. rewrite Hp. reflexivity.
  - rewrite after_progress, after_probes. simpl.
    rewrite H, filter_pending_due.
    symmetry.
    rewrite (map_ext _ (fun p => if timer_due (clock s + dt) p && is_pending p
                                 then timer_fires p
                                 else if timer_due (clock s + dt) p
                                      then timer_fires p else p)).
    2:{ intros p. destruct (timer_due _ p), (is_pending p); reflexivity. }
    apply settled_count_map.
    + intros p Hp. rewrite Hp. apply andb_prop in Hp.
      destruct Hp as [_ Hp]. split; [exact Hp|].
      unfold timer_fires, is_pending in *. simpl.
      destruct (pstate p); try discriminate; reflexivity.
    + intros p Hp. rewrite Hp.
      destruct (timer_due _ p); [|reflexivity]. simpl in Hp.
      unfold timer_fires, is_pending in *. simpl.
      destruct (pstate p); try discriminate; reflexivity.
  - destruct (scanAbortController s) as [[|]|]; simpl; try exact H.
    destruct (listening s); simpl; [|exact H].
    rewrite after_progress, after_probes. simpl. rewrite H.
    symmetry. unfold count_pending. apply settled_count_map.
    + intros p Hp. split; [exact Hp|apply abort_probe_settled].
    + intros p Hp. unfold abort_probe. rewrite Hp.
      unfold is_pending in *. simpl. exact Hp.
Qed.

Lemma run_progress_inv es : forall s,
  progress_inv s -> progress_inv (fst (run es s)).
Proof.
  induction es as [|e es IH]; intros s H; [exact H|].
  simpl. pose proof (step_progress_inv e s H) as H1.
  specialize (IH (fst (step e s)) H1).
  destruct (step e s) as [s1 out1]. simpl in *.
  destruct (run es s1) as [s2 out2]. exact IH.
Qed.

Lemma settled_count_bounds ps :
  0 <= settled_count ps <= Z.of_nat (List.length ps)
  /\ (settled_count ps = Z.of_nat (List.length ps) <-> all_settled ps = true).
Proof.
  unfold settled_count, all_settled.
  induction ps as [|p ps IH]; [simpl; split; [lia|tauto]|].
  destruct IH as [IH1 IH2].
  cbn [filter forallb List.length]. destruct (is_pending p);
    cbn [negb andb List.length]; rewrite ?Nat2Z.inj_succ.
  - split; [lia|]. split; [lia|discriminate].
  - split; [lia|]. rewrite <- IH2. lia.
Qed.

Lemma progress_facts (s0 : State) (es : list Event) :
  let final := fst (run es (fst (handleStartScan s0))) in
  scanProgress final = settled_count (probes final)
  /\ 0 <= scanProgress final <= 254
  /\ (scanProgress final = 254 <-> all_settled (probes final) = true).
Proof.
  intros final.
  assert (Hinv : progress_inv final).
  { apply run_progress_inv. unfold progress_inv. rewrite start_probes.
    unfold settled_count.
    change (scanProgress (fst (handleStartScan s0))) with 0.
    assert (E : forall l, filter (fun p => negb (is_pending p))
                            (map (new_probe (scanIpBase s0) (clock s0)) l) = []).
    { induction l as [|i l IH]; [reflexivity|exact IH]. }
    rewrite E. reflexivity. }
  assert (Hlen : List.length (probes final) = 254%nat).
  { unfold final. rewrite <- (length_map ip), run_addresses, length_map.
    rewrite start_probes, length_map, length_seq. reflexivity. }
  destruct (settled_count_bounds (probes final)) as [Hb Hiff].
  rewrite Hlen in Hb, Hiff. unfold progress_inv in Hinv.
  rewrite Hinv. split; [reflexivity|]. split; [lia|exact Hiff].
Qed.

(** X8. The progress counter of a scan counts the settled probes: at
    every moment after [handleStartScan], whatever replies, timer expiries
    and Stop presses have happened, [scanProgress] is the number of probes
    that are no longer pending; so it lies between 0 and 254, and it is
    254 exactly when every probe has settled. *)
Theorem X8_progress_counts_settled_probes :
  forall (s0 : State) (es : list Event),
    let final := fst (run es (fst (handleStartScan s0))) in
    scanProgress final = settled_count (probes final)
    /\ 0 <= scanProgress final <= 254
    /\ (scanProgress final = 254 <-> all_settled (probes final) = true).
Proof. intros s0 es. apply progress_facts. Qed.

(** *** The result list *)

Lemma NoDup_map_filter {A B} (f : A -> B) c (l : list A) :
  NoDup (map f l) -> NoDup (map f (filter c l)).
Proof.
  induction l as [|x l IH]; simpl; [auto|].
  intros H. inversion H as [|? ? Hx Hl]; subst.
  destruct (c x); simpl; [|auto]. constructor; [|auto].
  intros Hin. apply Hx. apply in_map_iff in Hin.
  destruct Hin as (y & E & Hy). apply filter_In in Hy.
  rewrite <- E. apply in_map, Hy.
Qed.

Lemma step_results_nodup e s :
  NoDup (map ip (probes s)) -> found_inv s ->
  NoDup (scanResults s) -> NoDup (scanResults (fst (step e s))).
Proof.
  intros Hips Hf Hr. rewrite step_results. apply NoDup_app.
  - exact Hr.
  - apply NoDup_map_filter, Hips.
  - intros a Ha Hnew. apply Hf in Ha. destruct Ha as (p & Hp & Hpa & Hok).
    apply in_map_iff in Hnew. destruct Hnew as (q & Hqa & Hq).
    apply filter_In in Hq. destruct Hq as [Hq Hn].
    assert (E : p = q).
    { apply (HexProps.NoDup_map_inj ip (probes s)); auto. congruence. }
    subst q. destruct e as [i ans|dt|]; simpl in Hn; try discriminate.
    unfold hit in Hn. rewrite (ok_not_pending p Hok) in Hn.
    rewrite andb_false_r in Hn. discriminate.
Qed.

Lemma step_addresses e s :
  map ip (probes (fst (step e s))) = map ip (probes s).
Proof.
  rewrite step_probes, map_map. apply map_ext. intros p. apply probe_map_ip.
Qed.

Lemma run_results_nodup es : forall s,
  NoDup (map ip (probes s)) -> found_inv s ->
  NoDup (scanResults s) -> NoDup (scanResults (fst (run es s))).
Proof.
  induction es as [|e es IH]; intros s Hips Hf Hr; [exact Hr|].
  simpl.
  pose proof (step_results_nodup e s Hips Hf Hr) as Hr1.
  pose proof (step_found_inv e s Hf) as Hf1.
  pose proof (step_addresses e s) as Ha1.
  specialize (IH (fst (step e s))).
  destruct (step e s) as [s1 out1]. simpl in *.
  rewrite Ha1 in IH. specialize (IH Hips Hf1 Hr1).
  destruct (run es s1) as [s2 out2]. exact IH.
Qed.

(** X9. The result list of a scan never shows an address twice, and it
    is never longer than the progress counter: at every moment after
    [handleStartScan] the addresses in [scanResults] are pairwise
    distinct and at most as many as the probes that have settled. *)
Theorem X9_results_are_distinct_and_bounded_by_progress :
  forall (s0 : State) (es : list Event),
    let final := fst (run es (fst (handleStartScan s0))) in
    NoDup (scanResults final)
    /\ Z.of_nat (List.length (scanResults final)) <= scanProgress final.
Proof.
  intros s0 es final.
  assert (Hnd : NoDup (scanResults final)).
  { apply run_results_nodup.
    - rewrite start_probes, map_map. apply NoDup_addresses.
    - apply start_found_inv.
    - constructor. }
  split; [exact Hnd|].
  destruct (progress_facts s0 es) as (Hp & _).
  fold final in Hp. rewrite Hp. unfold settled_count.
  apply Nat2Z.inj_le.
  assert (Hf : found_inv final) by apply run_found_inv, start_found_inv.
  eapply Nat.le_trans.
  - apply (NoDup_incl_length Hnd
             (l' := map ip (filter (fun p => negb (is_pending p))
                                   (probes final)))).
    intros a Ha. apply Hf in Ha. destruct Ha as (p & Hin & Hip & Hok).
    apply in_map_iff. exists p. split; [exact Hip|].
    apply filter_In. split; [exact Hin|].
    now rewrite (ok_not_pending p Hok).
  - now rewrite length_map.
Qed.

(** *** The scanning flag *)

Lemma step_scanning_inv e s :
  is_stop e = false -> scanning_inv s -> scanning_inv (fst (step e s)).
Proof.
  intros He Hinv. destruct e as [i a|dt|]; [| |discriminate].
  - destruct Hinv as [(Hl & Hs & Ha) | (Hl & Hs & Ha)].
    + simpl. unfold after_allSettled. simpl. rewrite Hl. simpl.
      match goal with |- scanning_inv (if ?c then _ else _) =>
        destruct c eqn:Ec end.
      * right. simpl. auto.
      * left. simpl. auto.
    + destruct (step_settled (Reply i a) s Ha) as [Ha1 _].
      right. simpl in *. rewrite after_probes in Ha1. simpl in Ha1.
      unfold after_allSettled. simpl. rewrite Hl. simpl. auto.
  - destruct Hinv as [(Hl & Hs & Ha) | (Hl & Hs & Ha)].
    + simpl. unfold after_allSettled. simpl. rewrite Hl. simpl.
      match goal with |- scanning_inv (if ?c then _ else _) =>
        destruct c eqn:Ec end.
      * right. simpl. auto.
      * left. simpl. auto.
    + destruct (step_settled (Tick dt) s Ha) as [Ha1 _].
      right. simpl in *. rewrite after_probes in Ha1. simpl in Ha1.
      unfold after_allSettled. simpl. rewrite Hl. simpl. auto.
Qed.

(** X10. A scan that nobody stops shows as scanning exactly until its
    last probe has settled: after [handleStartScan] and any replies and
    timer expiries, [isScanning] is true while some probe is pending and
    false once all 254 have settled, which by then is the case after
    1500 ms at the latest. *)
Theorem X10_uninterrupted_scan_flag_follows_the_probes :
  forall (s0 : State) (es : list Event),
    uninterrupted es ->
    let final := fst (run es (fst (handleStartScan s0))) in
    isScanning final = negb (all_settled (probes final))
    /\ (isScanning final = false <-> scanProgress final = 254)
    /\ (PROBE_TIMEOUT_MS <= elapsed es -> isScanning final = false).
Proof.
  intros s0 es Hun final.
  assert (Hinv : scanning_inv final).
  { unfold final. clear final.
    assert (H0 : scanning_inv (fst (handleStartScan s0))).
    { left. repeat split. }
    revert H0. generalize (fst (handleStartScan s0)) as s.
    unfold uninterrupted in Hun.
    induction es as [|e es IH]; intros s H; [exact H|].
    simpl in Hun. apply andb_prop in Hun. destruct Hun as [He Hes].
    apply negb_true_iff in He.
    pose proof (step_scanning_inv e s He H) as H1.
    specialize (IH Hes (fst (step e s)) H1). simpl.
    destruct (step e s) as [s1 out1]. simpl in *.
    destruct (run es s1) as [s2 out2]. exact IH. }
  assert (E : isScanning final = negb (all_settled (probes final))).
  { destruct Hinv as [(_ & Hs & Ha) | (_ & Hs & Ha)]; rewrite Hs, Ha;
      reflexivity. }
  destruct (progress_facts s0 es) as (_ & _ & H254).
  fold final in H254.
  split; [exact E|]. split.
  - rewrite H254, E. destruct (all_settled (probes final));
      simpl; split; congruence.
  - intros Hel. rewrite E.
    assert (Hto : all_settled (probes final) = true).
    { apply (timer_inv_expired (clock s0 + PROBE_TIMEOUT_MS)).
      - apply run_timer_inv, start_timer_inv.
      - unfold final. rewrite run_clock.
        change (clock (fst (handleStartScan s0))) with (clock s0). lia. }
    rewrite Hto. reflexivity.
Qed.

Lemma X10_witness :
  isScanning (fst (run [Reply 7 (Status 200); Tick 1500]
                       (fst (handleStartScan initial)))) = false.
Proof.
  destruct (X10_uninterrupted_scan_flag_follows_the_probes initial
              [Reply 7 (Status 200); Tick 1500] eq_refl) as (_ & _ & H).
  apply H. unfold PROBE_TIMEOUT_MS. simpl. lia.
Defined.

(** *** From a scan result to the light *)

Lemma plain_by_test c :
  Nat.leb 33 (nat_of_ascii c) && Nat.ltb (nat_of_ascii c) 128 = true ->
  plain c.
Proof.
  intros H. apply andb_true_iff in H. destruct H as [H1 H2].
  apply Nat.leb_le in H1. apply Nat.ltb_lt in H2. unfold plain. lia.
Qed.

Lemma digits_end_plain d :
  d <> Decimal.Nil ->
  exists s c, NilEmpty.string_of_uint d = (s ++ String c "")%string /\ plain c.
Proof.
  induction d as [|d IH|d IH|d IH|d IH|d IH|d IH|d IH|d IH|d IH|d IH];
    intros Hd; [congruence| | | | | | | | | |];
    (destruct d;
     [eexists EmptyString, _; split; [reflexivity|apply plain_by_test; reflexivity]
     |destruct IH as (s & c & E & Hc); [discriminate|];
      cbn [NilEmpty.string_of_uint] in *; rewrite E;
      eexists (String _ s), c; split; [reflexivity|exact Hc] ..]).
Qed.

Lemma decimal_not_empty n : decimal n <> EmptyString.
Proof.
  unfold decimal. intros H.
  assert (E : Nat.to_uint n = Decimal.Nil).
  { destruct (Nat.to_uint n); try discriminate H. reflexivity. }
  pose proof (DecimalNat.Unsigned.of_to n) as Hn. rewrite E in Hn.
  simpl in Hn. subst n. discriminate E.
Qed.

Lemma string_app_assoc (a b c : string) :
  (a ++ (b ++ c))%string = ((a ++ b) ++ c)%string.
Proof. induction a as [|x a IH]; simpl; [reflexivity|now rewrite IH]. Qed.

Lemma decimal_end_plain n :
  exists s c, decimal n = (s ++ String c "")%string /\ plain c.
Proof.
  unfold decimal. apply digits_end_plain. intros E.
  pose proof (DecimalNat.Unsigned.of_to n) as Hn. rewrite E in Hn.
  simpl in Hn. subst n. discriminate E.
Qed.

Lemma trim_selected base i :
  trim (handleIpSelect (address base i)) = handleIpSelect (address base i).
Proof.
  destruct (decimal_end_plain i) as (s & c & Ed & Hc).
  assert (E : handleIpSelect (address base i)
              = ((("http://" ++ base ++ ".") ++ s) ++ String c "")%string).
  { unfold handleIpSelect, address. rewrite Ed.
    rewrite (string_app_assoc base), (string_app_assoc "http://").
    now rewrite string_app_assoc. }
  unfold trim.
  assert (S : trim_start (handleIpSelect (address base i))
              = handleIpSelect (address base i)) by reflexivity.
  rewrite S, E. apply TextProps.trim_end_plain, Hc.
Qed.

(** X11. Connecting to an address chosen from the scan results asks the
    very URL the scan probed, and a later command goes to the same host:
    with the light address set by [handleIpSelect] to the result for
    [base.i], [handleConnectLight] sends its GET to
    [http://base.i/status], the URL of probe [i], and [updateLightState]
    posts to [http://base.i/state]. *)
Theorem X11_selected_result_is_the_probed_host :
  forall (base : string) (i : nat) (p : Light.Panel),
    Light.lightIpAddress p = handleIpSelect (address base i) ->
    snd (Light.handleConnectLight_begin p p)
      = [Fetch "GET" (status_url (address base i)) None]
    /\ Light.state_url (Light.lightIpAddress p)
       = ("http://" ++ address base i ++ "/state")%string.
Proof.
  intros base i p Hip.
  unfold Light.handleConnectLight_begin, Light.state_url.
  rewrite Hip, trim_selected.
  assert (E : String.eqb (handleIpSelect (address base i)) EmptyString = false)
    by reflexivity.
  rewrite E. cbn [snd]. unfold status_url, handleIpSelect.
  split; [f_equal|]; symmetry; apply string_app_assoc.
Qed.

Lemma X11_witness :
  snd (Light.handleConnectLight_begin
         (Light.mkPanel (Light.lights Light.initial_panel) false
                        (handleIpSelect (address "192.168.1" 50))
                        Light.Disconnected)
         (Light.mkPanel (Light.lights Light.initial_panel) false
                        (handleIpSelect (address "192.168.1" 50))
                        Light.Disconnected))
  = [Fetch "GET" "http://192.168.1.50/status" None].
Proof.
  apply (X11_selected_result_is_the_probed_host "192.168.1" 50
           (Light.mkPanel (Light.lights Light.initial_panel) false
                          (handleIpSelect (address "192.168.1" 50))
                          Light.Disconnected)).
  reflexivity.
Defined.

End ScannerExtra.

(** * Further properties of the CNC bridge *)

Module CncExtra.
Import Cnc CncUi.

Lemma onmessage_parsed parse data s v :
  parse data = Some v -> is_null v = false ->
  onmessage parse data s =
    (let s1 := match get_field "status" v with
               | Some st => if truthy (Some st) then setCncStatus st s else s
               | None => s
               end in
     let s2 := match get_field "gcodeFile" v with
               | Some f => if truthy (Some f) then setGcodeFile (Some f) s1
                           else s1
               | None => s1
               end in
     match get_field "progress" v with
     | Some (JNum n) => setGcodeProgress n s2
     | _ => s2
     end, []).
Proof.
  intros Hp Hn. unfold onmessage, onmessage_try. rewrite Hp.
  destruct v; try discriminate Hn; reflexivity.
Qed.

Lemma onmessage_cases parse data s :
  (onmessage parse data s = (s, [ConsoleError parse_msg]))
  \/ exists v, parse data = Some v /\ is_null v = false.
Proof.
  unfold onmessage, onmessage_try.
  destruct (parse data) as [v|]; [|left; reflexivity].
  destruct v; try (right; eexists; split; [reflexivity|reflexivity]).
  left; reflexivity.
Qed.

(** X12. A message from the bridge can load or replace the G-code file
    but never unload it, can replace the status only by a truthy value
    (never by an empty one), and never touches the socket or the bridge
    address: only the close handler clears the file. *)
Theorem X12_message_never_unloads_the_file :
  forall (JSON_parse : string -> option JValue) (data : string) (s : State),
    let s1 := fst (onmessage JSON_parse data s) in
    (gcodeFile s1 = gcodeFile s
     \/ exists f, gcodeFile s1 = Some f /\ truthy (Some f) = true)
    /\ (gcodeFile s <> None -> gcodeFile s1 <> None)
    /\ (cncStatus s1 = cncStatus s \/ truthy (Some (cncStatus s1)) = true)
    /\ websocketRef s1 = websocketRef s
    /\ wsAddress s1 = wsAddress s.
Proof.
  intros parse data s.
  destruct (onmessage_cases parse data s) as [E | (v & Hp & Hn)].
  - rewrite E. simpl. repeat split; auto.
  - rewrite (onmessage_parsed parse data s v Hp Hn). cbv zeta. cbn [fst].
    destruct (get_field "status" v) as [st|];
      destruct (get_field "gcodeFile" v) as [f|];
      destruct (get_field "progress" v) as [[| |n| | |]|];
      try destruct (truthy (Some st)) eqn:Est;
      try destruct (truthy (Some f)) eqn:Ef;
      cbn [gcodeFile cncStatus websocketRef wsAddress setCncStatus
           setGcodeFile setGcodeProgress];
      repeat split; auto;
      try (right; eexists; split; [reflexivity|assumption]);
      try discriminate.
Qed.

(** X13. A message that parses to a JSON value other than an object or
    null (a number, a string, a boolean, an array) is ignored in silence:
    no state change and no log line.  (The text null, in contrast, is
    reported like an unparseable message.) *)
Theorem X13_non_object_message_is_ignored :
  forall (JSON_parse : string -> option JValue) (data : string) (s : State)
         (v : JValue),
    JSON_parse data = Some v ->
    is_object v = false ->
    onmessage JSON_parse data s =
      (s, if is_null v then [ConsoleError parse_msg] else []).
Proof.
  intros parse data s v Hp Ho. unfold onmessage, onmessage_try. rewrite Hp.
  destruct v; try discriminate Ho; reflexivity.
Qed.

Lemma X13_witness :
  onmessage literal_parse "true" running = (running, [])
  /\ onmessage literal_parse "null" running
     = (running, [ConsoleError parse_msg]).
Proof.
  split.
  - apply (X13_non_object_message_is_ignored literal_parse "true" running
             (JBool true)); reflexivity.
  - apply (X13_non_object_message_is_ignored literal_parse "null" running
             JNull); reflexivity.
Defined.

(** X14. Status messages are idempotent: delivering the same message
    twice leaves the CNC state exactly as delivering it once. *)
Theorem X14_duplicate_message_changes_nothing :
  forall (JSON_parse : string -> option JValue) (data : string) (s : State),
    fst (onmessage JSON_parse data (fst (onmessage JSON_parse data s)))
    = fst (onmessage JSON_parse data s).
Proof.
  intros parse data s.
  destruct (onmessage_cases parse data s) as [E | (v & Hp & Hn)].
  - rewrite E. simpl. rewrite E. reflexivity.
  - rewrite !(onmessage_parsed parse data _ v Hp Hn). cbv zeta. cbn [fst].
    destruct (get_field "status" v) as [st|];
      destruct (get_field "gcodeFile" v) as [f|];
      destruct (get_field "progress" v) as [[| |n| | |]|];
      try destruct (truthy (Some st));
      try destruct (truthy (Some f));
      reflexivity.
Qed.

End CncExtra.

(** * The transcript log *)

Module VoiceLogProps.
Import Voice VoiceLog.

Lemma addTranscript_log who text s :
  transcripts (addTranscript who text s)
  = transcripts s ++ (if blank text then [] else [(who, text)]).
Proof.
  unfold addTranscript, blank.
  destruct (String.eqb (trim text) EmptyString); simpl;
    [now rewrite app_nil_r|reflexivity].
Qed.

Lemma content_log m s :
  transcripts (session_onmessage_content m s)
  = transcripts s ++
    (if turnComplete m
     then (let said := (currentInputTranscription s
                        ++ match inputTranscription m with
                           | Some t => t | None => EmptyString end)%string in
           if blank said then [] else [(user, said)])
     else []).
Proof.
  unfold session_onmessage_content.
  destruct (inputTranscription m) as [t|], (turnComplete m); simpl;
    rewrite ?addTranscript_log, ?app_nil_r; simpl; try reflexivity.
  assert (E : (currentInputTranscription s ++ "")%string
              = currentInputTranscription s).
  { induction (currentInputTranscription s) as [|c r IH]; simpl;
      [reflexivity|now rewrite IH]. }
  rewrite E. reflexivity.
Qed.

Lemma receive_keeps_log_clean ms : forall s,
  user_entries_only (transcripts s) ->
  user_entries_only (transcripts (receive ms s)).
Proof.
  unfold receive. induction ms as [|m ms IH]; intros s H; [exact H|].
  simpl. apply IH. rewrite content_log. apply Forall_app. split; [exact H|].
  destruct (turnComplete m); [|constructor]. cbv zeta.
  match goal with |- context [blank ?t] => destruct (blank t) eqn:E end;
    [constructor|]. constructor; [|constructor]. simpl. auto.
Qed.

(** X15. The transcript log of a voice session only ever holds what the
    user said, and never a blank line: from [startConversation] on,
    whatever transcription fragments and turn ends the server sends,
    every entry of [transcripts] has speaker [user] and a text that is
    not empty after trimming.  (Nothing the model says is ever logged.) *)
Theorem X15_transcript_log_has_only_nonblank_user_entries :
  forall (apiKey : option string) (s0 : State) (ms : list ServerContent),
    no_key apiKey = false ->
    user_entries_only
      (transcripts (receive ms (fst (startConversation false apiKey s0)))).
Proof.
  intros key s0 ms Hk. apply receive_keeps_log_clean.
  unfold startConversation. rewrite Hk. simpl. constructor.
Qed.

Lemma X15_witness :
  user_entries_only
    (transcripts
       (receive [fragment "turn on "; fragment "the lights"; end_of_turn;
                 fragment "  "; end_of_turn]
                (fst (startConversation false (Some "key") initial)))).
Proof.
  apply (X15_transcript_log_has_only_nonblank_user_entries (Some "key")
           initial).
  reflexivity.
Defined.

Lemma append_empty_r (t : string) : (t ++ "")%string = t.
Proof. induction t as [|c t IH]; simpl; [reflexivity|now rewrite IH]. Qed.

Lemma concat_cons (t : string) (l : list string) :
  String.concat EmptyString (t :: l)
  = (t ++ String.concat EmptyString l)%string.
Proof.
  destruct l as [|t' l]; simpl; [now rewrite append_empty_r|reflexivity].
Qed.

Lemma receive_fragments frags : forall s,
  transcripts (receive (map fragment frags) s) = transcripts s
  /\ currentInputTranscription (receive (map fragment frags) s)
     = (currentInputTranscription s ++ String.concat EmptyString frags)%string.
Proof.
  unfold receive.
  induction frags as [|t frags IH]; intros s.
  - simpl. split; [reflexivity|now rewrite append_empty_r].
  - rewrite concat_cons. cbn [map fold_left].
    destruct (IH (session_onmessage_content (fragment t) s)) as [IH1 IH2].
    rewrite IH1, IH2. simpl. split; [reflexivity|].
    now rewrite ScannerExtra.string_app_assoc.
Qed.

Lemma receive_app ms1 ms2 s :
  receive (ms1 ++ ms2) s = receive ms2 (receive ms1 s).
Proof. unfold receive. apply fold_left_app. Qed.

(** X16. One turn gives one entry: when the server sends the fragments
    of what the user said and then the end of the turn, the log grows by
    exactly one entry holding the fragments joined in order (after what
    was pending before), or by none if that text is blank; the pending
    text is empty again afterwards. *)
Theorem X16_turn_is_logged_as_joined_fragments :
  forall (frags : list string) (s : State),
    let said := (currentInputTranscription s
                 ++ String.concat EmptyString frags)%string in
    let s1 := receive (map fragment frags ++ [end_of_turn]) s in
    transcripts s1
      = transcripts s ++ (if blank said then [] else [(user, said)])
    /\ currentInputTranscription s1 = EmptyString.
Proof.
  intros frags s said s1. unfold s1. rewrite receive_app.
  destruct (receive_fragments frags s) as [H1 H2].
  unfold receive at 1. cbn [fold_left]. rewrite content_log.
  rewrite H1, H2. simpl. rewrite append_empty_r. split; [reflexivity|].
  reflexivity.
Qed.

(** Text is blank exactly when it holds white space only, whatever
    white space of ECMAScript that is. *)
Lemma blank_all_space text : blank text = all_space text.
Proof.
  unfold blank. destruct (all_space text) eqn:E.
  - apply TextProps.trim_empty in E. rewrite E. reflexivity.
  - apply String.eqb_neq. intros H. apply TextProps.trim_empty in H.
    congruence.
Qed.

(** A turn of no-break spaces is not logged. *)
Lemma no_break_spaces_are_not_logged s :
  currentInputTranscription s = EmptyString ->
  transcripts (receive [fragment NBSP; fragment NBSP; end_of_turn] s)
  = transcripts s.
Proof.
  intros H. unfold receive. cbn [fold_left]. rewrite content_log.
  unfold session_onmessage_content, fragment. cbn.
  rewrite H.
  match goal with
  | |- context [String.eqb ?a ?b] =>
      let v := eval vm_compute in (String.eqb a b) in
      change (String.eqb a b) with v
  end.
  apply app_nil_r.
Qed.

End VoiceLogProps.

(** * The audio helpers *)

Module AudioProps.
Import Audio.

Local Open Scope N_scope.

Lemma sextet_listed n : n < 64 -> In n sextets.
Proof.
  intros H. unfold sextets. apply in_map_iff.
  exists (N.to_nat n). split; [lia|]. apply in_seq. lia.
Qed.

Lemma for_all_sextets (f : N -> bool) :
  forallb f sextets = true -> forall n, n < 64 -> f n = true.
Proof.
  intros H n Hn. rewrite forallb_forall in H. apply H, sextet_listed, Hn.
Qed.

Lemma value_char n : n < 64 -> b64_value (b64_char n) = Some n.
Proof.
  intros Hn.
  pose proof (for_all_sextets
                (fun k => match b64_value (b64_char k) with
                          | Some v => N.eqb v k
                          | None => false
                          end)) as H.
  specialize (H ltac:(vm_compute; reflexivity) n Hn). simpl in H.
  destruct (b64_value (b64_char n)); [|discriminate].
  apply N.eqb_eq in H. now subst.
Qed.

Lemma char_not_pad n : n < 64 -> is_pad (b64_char n) = false.
Proof.
  intros Hn.
  apply negb_true_iff.
  exact (for_all_sextets (fun k => negb (is_pad (b64_char k)))
           ltac:(vm_compute; reflexivity) n Hn).
Qed.

Lemma char_not_space n : n < 64 -> is_ascii_whitespace (b64_char n) = false.
Proof.
  intros Hn.
  apply negb_true_iff.
  exact (for_all_sextets (fun k => negb (is_ascii_whitespace (b64_char k)))
           ltac:(vm_compute; reflexivity) n Hn).
Qed.

Ltac byte_bounds :=
  repeat match goal with
         | a : ascii |- _ =>
             lazymatch goal with
             | _ : N_of_ascii a < 256 |- _ => fail
             | _ => pose proof (N_ascii_bounded a)
             end
         end.

Ltac div_mod_lia :=
  zify; Z.to_euclidean_division_equations; lia.

Lemma sextet1_lt a : sextet1 a < 64.
Proof. unfold sextet1. byte_bounds. div_mod_lia. Qed.

Lemma sextet2_lt a b : sextet2 a b < 64.
Proof. unfold sextet2. byte_bounds. div_mod_lia. Qed.

Lemma sextet3_lt b c : sextet3 b c < 64.
Proof. unfold sextet3. byte_bounds. div_mod_lia. Qed.

Lemma sextet4_lt c : sextet4 c < 64.
Proof. unfold sextet4. byte_bounds. div_mod_lia. Qed.

Lemma octet1_sextets a b : octet1 (sextet1 a) (sextet2 a b) = a.
Proof.
  unfold octet1, sextet1, sextet2. byte_bounds.
  transitivity (ascii_of_N (N_of_ascii a)); [|apply ascii_N_embedding].
  f_equal. div_mod_lia.
Qed.

Lemma octet2_sextets a b c : octet2 (sextet2 a b) (sextet3 b c) = b.
Proof.
  unfold octet2, sextet2, sextet3. byte_bounds.
  transitivity (ascii_of_N (N_of_ascii b)); [|apply ascii_N_embedding].
  f_equal. div_mod_lia.
Qed.

Lemma octet3_sextets b c : octet3 (sextet3 b c) (sextet4 c) = c.
Proof.
  unfold octet3, sextet3, sextet4. byte_bounds.
  transitivity (ascii_of_N (N_of_ascii c)); [|apply ascii_N_embedding].
  f_equal. div_mod_lia.
Qed.

(** Induction three bytes at a time. *)
Lemma string_ind3 (P : string -> Prop) :
  P EmptyString ->
  (forall a, P (String a EmptyString)) ->
  (forall a b, P (String a (String b EmptyString))) ->
  (forall a b c rest, P rest -> P (String a (String b (String c rest)))) ->
  forall s, P s.
Proof.
  intros H0 H1 H2 H3 s.
  assert (H : P s /\ (forall a, P (String a s))
              /\ (forall a b, P (String a (String b s)))).
  { induction s as [|c s (IH0 & IH1 & IH2)]; [auto|].
    split; [apply IH1|]. split; [intros a; apply IH2|].
    intros a b. apply H3, IH0. }
  apply H.
Qed.

Lemma atob_groups_btoa binary : atob_groups (btoa binary) = Some binary.
Proof.
  induction binary as [|a|a b|a b c rest IH] using string_ind3.
  - reflexivity.
  - cbn [btoa atob_groups]. change (is_pad "=") with true. cbn iota.
    rewrite !value_char by (apply sextet1_lt || apply sextet2_lt).
    now rewrite octet1_sextets.
  - cbn [btoa atob_groups]. change (is_pad "=") with true.
    rewrite (char_not_pad (sextet3 b NUL)) by apply sextet3_lt. cbn iota.
    rewrite !value_char
      by (apply sextet1_lt || apply sextet2_lt || apply sextet3_lt).
    now rewrite octet1_sextets, octet2_sextets.
  - cbn [btoa]. remember (btoa rest) as tail eqn:Et. cbn [atob_groups].
    rewrite (char_not_pad (sextet4 c)) by apply sextet4_lt.
    assert (E : match b64_value (b64_char (sextet1 a)),
                      b64_value (b64_char (sextet2 a b)),
                      b64_value (b64_char (sextet3 b c)),
                      b64_value (b64_char (sextet4 c)),
                      atob_groups tail with
                | Some v1, Some v2, Some v3, Some v4, Some t =>
                    Some (String (octet1 v1 v2)
                            (String (octet2 v2 v3)
                               (String (octet3 v3 v4) t)))
                | _, _, _, _, _ => None
                end = Some (String a (String b (String c rest)))).
    { rewrite !value_char
        by (apply sextet1_lt || apply sextet2_lt || apply sextet3_lt
            || apply sextet4_lt).
      rewrite IH. now rewrite octet1_sextets, octet2_sextets, octet3_sextets. }
    destruct tail; exact E.
Qed.

Lemma filter_all {A} (f : A -> bool) (l : list A) :
  Forall (fun x => f x = true) l -> filter f l = l.
Proof.
  induction 1 as [|x l Hx Hl IH]; simpl; [reflexivity|].
  now rewrite Hx, IH.
Qed.

Lemma btoa_no_space binary :
  Forall (fun c => negb (is_ascii_whitespace c) = true)
         (list_ascii_of_string (btoa binary)).
Proof.
  induction binary as [|a|a b|a b c rest IH] using string_ind3;
    cbn [btoa list_ascii_of_string];
    repeat constructor; try exact IH;
    rewrite char_not_space; try reflexivity;
    apply sextet1_lt || apply sextet2_lt || apply sextet3_lt
    || apply sextet4_lt.
Qed.

Lemma atob_btoa binary : atob (btoa binary) = Some binary.
Proof.
  unfold atob, strip_space.
  rewrite (filter_all _ _ (btoa_no_space binary)).
  rewrite string_of_list_ascii_of_string. apply atob_groups_btoa.
Qed.

Lemma btoa_length binary :
  String.length (btoa binary)
  = (4 * ((String.length binary + 2) / 3))%nat.
Proof.
  induction binary as [|a|a b|a b c rest IH] using string_ind3;
    try reflexivity.
  cbn [btoa String.length]. rewrite IH.
  replace (S (S (S (String.length rest))) + 2)%nat
    with ((String.length rest + 2) + 1 * 3)%nat by lia.
  rewrite Nat.div_add by lia. lia.
Qed.

Lemma string_of_list_byte_length bytes :
  String.length (string_of_list_byte bytes) = List.length bytes.
Proof.
  unfold string_of_list_byte.
  induction bytes as [|x l IH]; simpl; [reflexivity|now rewrite IH].
Qed.

Lemma X17_helper (bytes : list byte) :
  decode (encode bytes) = Some bytes
  /\ String.length (encode bytes)
     = (4 * ((List.length bytes + 2) / 3))%nat.
Proof.
  unfold decode, encode. split.
  - rewrite atob_btoa. simpl.
    now rewrite list_byte_of_string_of_list_byte.
  - now rewrite btoa_length, string_of_list_byte_length.
Qed.

(** X17. [decode] undoes [encode]: for every byte array, decoding the
    base64 text that [encode] produced gives the same bytes back, and
    that text has four characters for every three bytes, rounded up. *)
Theorem X17_decode_undoes_encode :
  forall bytes : list byte,
    decode (encode bytes) = Some bytes
    /\ String.length (encode bytes)
       = (4 * ((List.length bytes + 2) / 3))%nat.
Proof.
  intros bytes. unfold decode, encode. split.
  - rewrite atob_btoa. simpl.
    now rewrite list_byte_of_string_of_list_byte.
  - now rewrite btoa_length, string_of_list_byte_length.
Qed.

End AudioProps.

Module PcmProps.
Import Pcm.

Lemma wrap16_range z : in_int16 (wrap16 z).
Proof.
  unfold wrap16, in_int16. cbv zeta.
  pose proof (Z.mod_pos_bound z 65536 ltac:(lia)) as H.
  destruct (z mod 65536 <? 32768) eqn:E;
    [apply Z.ltb_lt in E|apply Z.ltb_ge in E]; lia.
Qed.

Lemma wrap16_id z : in_int16 z -> wrap16 z = z.
Proof.
  unfold wrap16, in_int16. cbv zeta. intros H.
  destruct (z mod 65536 <? 32768) eqn:E;
    [apply Z.ltb_lt in E|apply Z.ltb_ge in E];
    revert E; zify; Z.to_euclidean_division_equations; lia.
Qed.

Lemma wrap16_high z : 32768 <= z <= 65535 -> wrap16 z = z - 65536.
Proof.
  unfold wrap16. cbv zeta. intros H.
  destruct (z mod 65536 <? 32768) eqn:E;
    [apply Z.ltb_lt in E|apply Z.ltb_ge in E];
    revert E; zify; Z.to_euclidean_division_equations; lia.
Qed.

Lemma mul_lt_cancel D a b : 0 < D -> D * a < D * b -> a < b.
Proof. intros Hd H. apply (Z.mul_lt_mono_pos_l D); assumption. Qed.

Lemma quot_low n D :
  0 < D -> - D <= n -> n < D -> -32768 <= Z.quot (n * 32768) D <= 32767.
Proof.
  intros Hd H1 H2. Z.to_euclidean_division_equations.
  destruct (Z_le_gt_dec 0 n) as [Hn|Hn].
  - assert (Hr : 0 <= r < D) by (apply H0; lia).
    assert (A : D * (-1) < D * q) by lia.
    assert (B : D * q < D * 32768) by lia.
    apply mul_lt_cancel in A, B; lia.
  - assert (Hr : - D < r <= 0) by (apply H3; lia).
    assert (A : D * (-32769) < D * q) by lia.
    assert (B : D * q < D * 1) by lia.
    apply mul_lt_cancel in A, B; lia.
Qed.

Lemma quot_high n D :
  0 < D -> D <= n -> n < 2 * D -> 32768 <= Z.quot (n * 32768) D <= 65535.
Proof.
  intros Hd H1 H2. Z.to_euclidean_division_equations.
  assert (Hr : 0 <= r < D) by (apply H0; lia).
  assert (A : D * 32767 < D * q) by lia.
  assert (B : D * q < D * 65536) by lia.
  apply mul_lt_cancel in A, B; lia.
Qed.

Lemma truncate_scaled_low (x : Q) :
  (-1 <= x)%Q -> (x < 1)%Q -> in_int16 (truncate (x * (32768 # 1))%Q).
Proof.
  destruct x as [n d]. unfold Qle, Qlt, truncate, in_int16. simpl.
  intros H1 H2. rewrite Pos.mul_1_r. apply quot_low; lia.
Qed.

Lemma truncate_scaled_high (x : Q) :
  (1 <= x)%Q -> (x < 2)%Q ->
  32768 <= truncate (x * (32768 # 1))%Q <= 65535.
Proof.
  destruct x as [n d]. unfold Qle, Qlt, truncate. simpl.
  intros H1 H2. rewrite Pos.mul_1_r. apply quot_high; lia.
Qed.

Lemma int16_bytes_length v : List.length (int16_bytes v) = 2%nat.
Proof. reflexivity. Qed.

Lemma pcm_bytes_length inputData :
  List.length (pcm_bytes inputData) = (2 * List.length inputData)%nat.
Proof.
  unfold pcm_bytes. induction inputData as [|x l IH]; [reflexivity|].
  cbn [flat_map]. rewrite length_app, IH, int16_bytes_length.
  cbn [List.length]. lia.
Qed.

(** X18. The microphone samples become 16-bit integers as follows.  A
    sample from -1 up to, but not including, 1 becomes its multiple of
    32768 truncated towards zero, with no wrap-around; a sample at full
    scale or above (from 1 up to 2) wraps around to a negative value; the
    result always fits 16 bits, and every sample takes exactly two
    bytes. *)
Theorem X18_pcm_conversion_range_and_wrap :
  forall (sample : Q) (inputData : list Q),
    in_int16 (to_int16 sample)
    /\ ((-1 <= sample)%Q -> (sample < 1)%Q ->
        to_int16 sample = truncate (sample * (32768 # 1))%Q)
    /\ ((1 <= sample)%Q -> (sample < 2)%Q ->
        to_int16 sample = truncate (sample * (32768 # 1))%Q - 65536
        /\ to_int16 sample < 0)
    /\ List.length (pcm_bytes inputData) = (2 * List.length inputData)%nat.
Proof.
  intros sample inputData. unfold to_int16.
  split; [apply wrap16_range|]. split; [|split].
  - intros H1 H2. apply wrap16_id, truncate_scaled_low; assumption.
  - intros H1 H2. pose proof (truncate_scaled_high sample H1 H2) as H.
    rewrite wrap16_high by exact H. lia.
  - apply pcm_bytes_length.
Qed.

Lemma X18_witness :
  to_int16 (1 # 2) = 16384 /\ to_int16 (1 # 1) = -32768
  /\ to_int16 (1 # 1) < 0.
Proof.
  destruct (X18_pcm_conversion_range_and_wrap (1 # 1) []) as (_ & _ & H & _).
  split; [reflexivity|]. split; [reflexivity|].
  apply H; unfold Qle, Qlt; simpl; lia.
Defined.

(** *** Reading the bytes back *)

Lemma byte_of_Z_value z : Z.of_N (Byte.to_N (byte_of_Z z)) = z mod 256.
Proof.
  unfold byte_of_Z.
  pose proof (Z.mod_pos_bound z 256 ltac:(lia)) as Hb.
  destruct (Byte.of_N (Z.to_N (z mod 256))) as [x|] eqn:E.
  - apply Byte.to_of_N in E. rewrite E. lia.
  - apply Byte.of_N_None_iff in E. lia.
Qed.

Lemma int16_of_bytes_range lo hi : in_int16 (int16_of_bytes lo hi).
Proof.
  unfold int16_of_bytes, in_int16. cbv zeta.
  pose proof (Byte.to_N_bounded lo). pose proof (Byte.to_N_bounded hi).
  destruct (_ <? 32768) eqn:E;
    [apply Z.ltb_lt in E|apply Z.ltb_ge in E]; lia.
Qed.

Lemma int16_bytes_back v :
  in_int16 v ->
  int16_of_bytes (byte_of_Z (v mod 65536)) (byte_of_Z (v mod 65536 / 256)) = v.
Proof.
  unfold int16_of_bytes, in_int16. cbv zeta. intros Hv.
  rewrite !byte_of_Z_value.
  destruct (_ <? 32768) eqn:E;
    [apply Z.ltb_lt in E|apply Z.ltb_ge in E];
    revert E; Z.to_euclidean_division_equations; lia.
Qed.

Lemma int16_view_pcm_bytes inputData :
  int16_view (pcm_bytes inputData) = Some (map to_int16 inputData).
Proof.
  unfold pcm_bytes. induction inputData as [|x l IH]; [reflexivity|].
  cbn [flat_map map]. unfold int16_bytes at 1. cbn [app int16_view].
  rewrite IH. cbn [option_map]. f_equal. f_equal.
  apply int16_bytes_back. unfold to_int16. apply wrap16_range.
Qed.

(** Induction two bytes at a time. *)
Lemma list_ind2 {A} (P : list A -> Prop) :
  P [] -> (forall x, P [x]) ->
  (forall x y l, P l -> P (x :: y :: l)) ->
  forall l, P l.
Proof.
  intros H0 H1 H2 l.
  assert (H : P l /\ forall x, P (x :: l)).
  { induction l as [|y l [IH0 IH1]]; [auto|].
    split; [apply IH1|]. intros x. apply H2, IH0. }
  apply H.
Qed.

Lemma int16_view_facts data : forall v,
  int16_view data = Some v ->
  List.length data = (2 * List.length v)%nat /\ Forall in_int16 v.
Proof.
  induction data as [|x|lo hi rest IH] using list_ind2; intros v Hv.
  - injection Hv as <-. split; [reflexivity|constructor].
  - discriminate Hv.
  - cbn [int16_view] in Hv. destruct (int16_view rest) as [w|]; [|discriminate].
    injection Hv as <-. destruct (IH w eq_refl) as [Hl Hf].
    split; [cbn [List.length]; lia|].
    constructor; [apply int16_of_bytes_range|exact Hf].
Qed.

Lemma int16_view_odd data :
  Nat.odd (List.length data) = true -> int16_view data = None.
Proof.
  induction data as [|x|lo hi rest IH] using list_ind2; intros H.
  - discriminate H.
  - reflexivity.
  - cbn [int16_view]. rewrite IH; [reflexivity|].
    cbn [List.length] in H. rewrite Nat.odd_succ, Nat.even_succ in H.
    exact H.
Qed.

Lemma nth_in_int16 v i : Forall in_int16 v -> in_int16 (nth i v 0).
Proof.
  intros H. destruct (Nat.lt_ge_cases i (List.length v)) as [Hi|Hi].
  - rewrite Forall_forall in H. apply H, nth_In, Hi.
  - rewrite nth_overflow by exact Hi. unfold in_int16. lia.
Qed.

(** X19. What [decodeAudioData] returns, when it returns: one list of
    samples per channel, each with as many frames as there are 16-bit
    values per channel (the byte count halved, divided by the channel
    count), and every sample lies from -1 up to, but not including, 1.
    It throws on an odd number of bytes. *)
Theorem X19_decodeAudioData_shape_and_range :
  forall (data : list byte) (numChannels : nat),
    (forall channels,
        decodeAudioData data numChannels = Some channels ->
        List.length channels = numChannels
        /\ Forall (fun ch => List.length ch
                             = (List.length data / 2 / numChannels)%nat)
                  channels
        /\ Forall (Forall (fun q => (-1 <= q)%Q /\ (q < 1)%Q)) channels)
    /\ (Nat.odd (List.length data) = true ->
        decodeAudioData data numChannels = None).
Proof.
  intros data n. split.
  - intros channels H. unfold decodeAudioData in H.
    destruct (int16_view data) as [v|] eqn:Ev; [|discriminate].
    destruct (int16_view_facts data v Ev) as [Hl Hf].
    destruct (Nat.eqb n 0 || Nat.eqb (List.length v / n) 0); [discriminate|].
    injection H as <-.
    assert (Hlen : (List.length data / 2 = List.length v)%nat).
    { rewrite Hl, Nat.mul_comm. apply Nat.div_mul. lia. }
    split; [now rewrite length_map, length_seq|]. split.
    + apply Forall_forall. intros ch Hch. apply in_map_iff in Hch.
      destruct Hch as (c & <- & _).
      now rewrite length_map, length_seq, Hlen.
    + apply Forall_forall. intros ch Hch. apply in_map_iff in Hch.
      destruct Hch as (c & <- & _). apply Forall_forall. intros q Hq.
      apply in_map_iff in Hq. destruct Hq as (i & <- & _).
      pose proof (nth_in_int16 v (i * n + c) Hf) as Hr.
      unfold in_int16 in Hr. unfold Qle, Qlt. simpl. lia.
  - intros Hodd. unfold decodeAudioData.
    now rewrite (int16_view_odd data Hodd).
Qed.

Lemma X19_witness :
  decodeAudioData [x00; x40; x00] 1 = None.
Proof.
  destruct (X19_decodeAudioData_shape_and_range [x00; x40; x00] 1) as [_ H].
  apply H. reflexivity.
Defined.

Lemma nth_seq_shift {A} (d : A) (l : list A) : forall pre,
  map (fun i => nth i (pre ++ l) d) (seq (List.length pre) (List.length l)) = l.
Proof.
  induction l as [|x l IH]; intros pre; [reflexivity|].
  cbn [List.length seq map]. rewrite nth_middle. f_equal.
  specialize (IH (pre ++ [x])).
  rewrite <- app_assoc, length_app in IH. cbn [app List.length] in IH.
  rewrite Nat.add_1_r in IH. exact IH.
Qed.

Lemma map_nth_seq {A B} (f : A -> B) (l : list A) d :
  map (fun i => f (nth (i * 1 + 0) l d)) (seq 0 (List.length l)) = map f l.
Proof.
  rewrite (map_ext (fun i => f (nth (i * 1 + 0) l d))
                   (fun i => f (nth i l d))).
  2:{ intros i. now rewrite Nat.mul_1_r, Nat.add_0_r. }
  rewrite <- (map_map (fun i => nth i l d) f). f_equal.
  apply (nth_seq_shift d l []).
Qed.

Lemma to_int16_sample_of k : in_int16 k -> to_int16 (sample_of k) = k.
Proof.
  intros Hk. unfold to_int16, sample_of, truncate. simpl.
  rewrite Z.quot_mul by discriminate. apply wrap16_id, Hk.
Qed.

(** X20. The two PCM conversions agree with each other and with the
    base64 helpers: a non-empty run of samples that are 16-bit integers
    over 32768, converted and encoded as [onaudioprocess] does, then
    decoded by [decode] and [decodeAudioData] with one channel, comes back
    as one channel with exactly those samples. *)
Theorem X20_pcm_round_trip :
  forall ks : list Z,
    ks <> [] ->
    Forall in_int16 ks ->
    play (pcm_blob_data (map sample_of ks)) = Some [map sample_of ks].
Proof.
  intros ks Hne Hks. unfold play, pcm_blob_data.
  destruct (AudioProps.X17_helper (pcm_bytes (map sample_of ks))) as [-> _].
  unfold decodeAudioData. rewrite int16_view_pcm_bytes.
  assert (Ev : map to_int16 (map sample_of ks) = ks).
  { rewrite map_map. rewrite <- (map_id ks) at 2. apply map_ext_in.
    intros z Hz. rewrite Forall_forall in Hks.
    apply to_int16_sample_of, Hks, Hz. }
  rewrite Ev, Nat.div_1_r.
  destruct ks as [|k ks'] eqn:Ek; [congruence|]. rewrite <- Ek.
  assert (El : Nat.eqb (List.length ks) 0 = false) by (rewrite Ek; reflexivity).
  rewrite El. cbn [Nat.eqb orb seq map]. f_equal. f_equal.
  apply (map_nth_seq (fun z => Qmake z 32768)).
Qed.

Lemma X20_witness :
  play (pcm_blob_data (map sample_of [16384; -32768; 8192]))
  = Some [map sample_of [16384; -32768; 8192]].
Proof.
  apply (X20_pcm_round_trip [16384; -32768; 8192]).
  - discriminate.
  - unfold in_int16. repeat constructor; lia.
Defined.

End PcmProps.

(** * Further properties of the mock backend *)

Module ServerExtra.
Import Server ServerColor.

(** X21. The colour endpoint.  Without a token the answer is 401.  With
    a token, a request without a body is answered 500 (the handler
    throws), and a request with a body is answered 400 exactly when one
    of the members r, g, b is missing from it; in all these cases nothing
    is stored.  Otherwise the request always succeeds (no failure is
    simulated on this route) and the three members are stored as they
    came, whatever kind of JSON value they are, with the power and the
    token untouched. *)
Theorem X21_color_endpoint :
  forall (req_body : option JValue) (st : State),
    let served := serve_lights_color req_body st in
    (no_token st = true ->
       served = (st, error 401 "Not authenticated"))
    /\ (no_token st = false -> req_body = None ->
        served = (st, uncaught) /\ status (snd served) = 500)
    /\ (forall body,
          no_token st = false -> req_body = Some body ->
          (served = (st, error 400 "Invalid color value")
           <-> (get_field "r" body = None \/ get_field "g" body = None
                \/ get_field "b" body = None)))
    /\ (forall body r g b,
          no_token st = false -> req_body = Some body ->
          get_field "r" body = Some r ->
          get_field "g" body = Some g ->
          get_field "b" body = Some b ->
          snd served = success
          /\ color (lightState (fst served)) = (r, g, b)
          /\ power (lightState (fst served)) = power (lightState st)
          /\ googleToken (fst served) = googleToken st).
Proof.
  intros req_body st served. unfold served, serve_lights_color, lights_color.
  split; [|split; [|split]].
  - intros H. rewrite H. reflexivity.
  - intros H ->. rewrite H. split; reflexivity.
  - intros body H ->. rewrite H. unfold requested_color.
    destruct (get_field "r" body) as [r|];
      [|split; [auto|reflexivity]].
    destruct (get_field "g" body) as [g|];
      [|split; [auto|reflexivity]].
    destruct (get_field "b" body) as [b|];
      [|split; [auto|reflexivity]].
    unfold lights_color_timeout. split.
    + intros E. injection E as _ E. discriminate E.
    + intros [E|[E|E]]; discriminate E.
  - intros body r g b H -> Hr Hg Hb. rewrite H. unfold requested_color.
    rewrite Hr, Hg, Hb. simpl. repeat split.
Qed.

Lemma X21_witness :
  color (lightState
           (fst (serve_lights_color
                   (Some (JObj [("r", JNum 1); ("g", JNull);
                                ("b", JStr "blue")]))
                   authenticated)))
  = (JNum 1, JNull, JStr "blue")
  /\ serve_lights_color None authenticated = (authenticated, uncaught).
Proof.
  destruct (X21_color_endpoint
              (Some (JObj [("r", JNum 1); ("g", JNull); ("b", JStr "blue")]))
              authenticated) as (_ & _ & _ & H).
  destruct (X21_color_endpoint None authenticated) as (_ & H0 & _).
  split.
  - apply (H (JObj [("r", JNum 1); ("g", JNull); ("b", JStr "blue")])
             (JNum 1) JNull (JStr "blue")); reflexivity.
  - apply H0; reflexivity.
Defined.

Lemma verify_gives_token now st : no_token (fst (auth_verify now st)) = false.
Proof. reflexivity. Qed.

(** X22. Logging in and out gates both light endpoints and nothing
    else.  After [/api/auth/verify] no light request is answered 401;
    after [/api/auth/logout] every light request is answered 401 and
    changes nothing; and neither of the two auth routes touches the
    stored light state. *)
Theorem X22_verify_and_logout_gate_the_light_routes :
  forall (now : N) (st : State) (req_body : option JValue) (random : Q),
    let inside := fst (auth_verify now st) in
    let outside := fst (auth_logout st) in
    status (snd (serve_lights_power req_body random inside)) <> 401
    /\ status (snd (serve_lights_color req_body inside)) <> 401
    /\ serve_lights_power req_body random outside
       = (outside, error 401 "Not authenticated")
    /\ serve_lights_color req_body outside
       = (outside, error 401 "Not authenticated")
    /\ lightState inside = lightState st
    /\ lightState outside = lightState st.
Proof.
  intros now st req_body random inside outside.
  split; [|split; [|split; [|split; [|split]]]]; try reflexivity.
  - unfold serve_lights_power, lights_power, inside.
    rewrite verify_gives_token.
    destruct req_body as [b|]; [|discriminate].
    destruct (requested_power b); [|discriminate].
    unfold lights_power_timeout.
    destruct (simulated_failure random); discriminate.
  - unfold serve_lights_color, lights_color, inside.
    rewrite verify_gives_token.
    destruct req_body as [b|]; [|discriminate].
    destruct (requested_color b); discriminate.
Qed.

(** X23. A power command that was accepted is not cancelled by a logout:
    once the handler has set its 500 ms timer, the timer callback stores
    the requested power (unless the simulated failure strikes) even if
    the token has been dropped in the meantime. *)
Theorem X23_accepted_command_survives_logout :
  forall (req_body : JValue) (random : Q) (st : State) (p : string),
    no_token st = false ->
    requested_power req_body = Some p ->
    simulated_failure random = false ->
    let accepted := lights_power (Some req_body) st in
    let later := fst (auth_logout (fst accepted)) in
    snd accepted = After 500 p
    /\ no_token later = true
    /\ lights_power_timeout p random later
       = (mkState None (mkLightState p (color (lightState st))), success).
Proof.
  intros req_body random st p Ht Hp Hr accepted later.
  subst later accepted. unfold lights_power. rewrite Ht, Hp. simpl.
  unfold lights_power_timeout. rewrite Hr.
  split; [reflexivity|split; reflexivity].
Qed.

Lemma X23_witness :
  lights_power_timeout "on" (1 # 2)
    (fst (auth_logout
            (fst (lights_power (Some (JObj [("power", JStr "on")]))
                               authenticated))))
  = (mkState None (mkLightState "on" (JNum 255, JNum 255, JNum 255)), success).
Proof.
  apply (X23_accepted_command_survives_logout
           (JObj [("power", JStr "on")]) (1 # 2) authenticated "on");
    reflexivity.
Defined.

End ServerExtra.

(** * The service worker *)

Module ServiceWorkerProps.
Import ServiceWorker.

(** *** Matching *)

Lemma forallb_same {A} (f g : A -> bool) (l : list A) :
  (forall x, f x = g x) -> forallb f l = forallb g l.
Proof.
  intros H. induction l as [|x l IH]; simpl; [reflexivity|].
  now rewrite H, IH.
Qed.

Lemma request_matches_same a b cached res :
  same_resource a b ->
  request_matches a cached res = request_matches b cached res.
Proof.
  intros (Hm & Hu & Hh). unfold request_matches. rewrite Hm, Hu.
  f_equal. apply forallb_same. intros name. now rewrite Hh.
Qed.

Lemma cache_match_same a b c :
  same_resource a b -> cache_match a c = cache_match b c.
Proof.
  intros H. induction c as [|[cached res] c IH]; simpl; [reflexivity|].
  now rewrite (request_matches_same a b cached res H), IH.
Qed.

Lemma caches_match_same a b cs :
  same_resource a b -> caches_match a cs = caches_match b cs.
Proof.
  intros H. induction cs as [|[n c] cs IH]; simpl; [reflexivity|].
  now rewrite (cache_match_same a b c H), IH.
Qed.

Lemma same_value_refl v : same_value v v = true.
Proof. destruct v; simpl; [apply String.eqb_refl|reflexivity]. Qed.

Lemma matches_itself req res :
  method req = "GET" -> storable res = true ->
  request_matches req req res = true.
Proof.
  intros Hm Hs. unfold request_matches. rewrite Hm, !String.eqb_refl. simpl.
  unfold storable in Hs. apply andb_true_iff in Hs. destruct Hs as [_ Hs].
  apply negb_true_iff in Hs. apply forallb_forall. intros name Hin.
  rewrite same_value_refl, andb_true_r. apply negb_true_iff.
  destruct (String.eqb name "*") eqn:E; [|reflexivity].
  apply String.eqb_eq in E. subst name.
  assert (Ht : existsb (String.eqb "*") (vary res) = true).
  { apply existsb_exists. exists "*". split; [exact Hin|reflexivity]. }
  congruence.
Qed.

Lemma matches_same_url query cached res :
  request_matches query cached res = true ->
  without_fragment (url query) = without_fragment (url cached).
Proof.
  unfold request_matches. intros H. apply andb_true_iff in H.
  destruct H as [H _]. apply andb_true_iff in H. destruct H as [_ H].
  now apply String.eqb_eq.
Qed.

Lemma other_url_no_match query cached res :
  without_fragment (url query) <> without_fragment (url cached) ->
  request_matches query cached res = false.
Proof.
  intros H. destruct (request_matches query cached res) eqn:E; [|reflexivity].
  apply matches_same_url in E. contradiction.
Qed.

Lemma cache_match_app q a b :
  cache_match q (a ++ b)
  = match cache_match q a with
    | Some r => Some r
    | None => cache_match q b
    end.
Proof.
  induction a as [|[cached res] a IH]; simpl; [reflexivity|].
  destruct (request_matches q cached res); [reflexivity|exact IH].
Qed.

Lemma cache_match_unmatched q c :
  cache_match q (filter (fun e => negb (request_matches q (fst e) (snd e))) c)
  = None.
Proof.
  induction c as [|[cached res] c IH]; simpl; [reflexivity|].
  destruct (request_matches q cached res) eqn:E; simpl; [exact IH|].
  now rewrite E.
Qed.

Lemma cache_put_some req res c c1 :
  cache_put req res c = Some c1 ->
  method req = "GET" /\ storable res = true
  /\ c1 = filter (fun e => negb (request_matches req (fst e) (snd e))) c
          ++ [(req, res)].
Proof.
  unfold cache_put.
  destruct (String.eqb (method req) "GET") eqn:Em; [|discriminate].
  destruct (storable res); [|discriminate]. simpl. intros H.
  injection H as <-. apply String.eqb_eq in Em. auto.
Qed.

Lemma cache_put_accepts req res c :
  method req = "GET" -> storable res = true ->
  cache_put req res c
  = Some (filter (fun e => negb (request_matches req (fst e) (snd e))) c
          ++ [(req, res)]).
Proof.
  intros Hm Hs. unfold cache_put. now rewrite Hm, Hs.
Qed.

Lemma put_then_match req res c :
  method req = "GET" -> storable res = true ->
  cache_match req (put_or_keep req res c) = Some res.
Proof.
  intros Hm Hs. unfold put_or_keep. rewrite cache_put_accepts by assumption.
  rewrite cache_match_app, cache_match_unmatched. simpl.
  now rewrite matches_itself.
Qed.

Lemma put_keeps_others q req res c :
  without_fragment (url q) <> without_fragment (url req) ->
  cache_match q (put_or_keep req res c) = cache_match q c.
Proof.
  intros Hne. unfold put_or_keep.
  destruct (cache_put req res c) as [c1|] eqn:E; [|reflexivity].
  apply cache_put_some in E. destruct E as (_ & _ & ->).
  rewrite cache_match_app. simpl.
  rewrite (other_url_no_match q req res Hne).
  assert (F : cache_match q
                (filter (fun e => negb (request_matches req (fst e) (snd e)))
                        c)
              = cache_match q c).
  { induction c as [|[cached r] c IH]; simpl; [reflexivity|].
    destruct (request_matches req cached r) eqn:Er; simpl.
    - apply matches_same_url in Er.
      rewrite other_url_no_match by congruence. exact IH.
    - destruct (request_matches q cached r); [reflexivity|exact IH]. }
  rewrite F. now destruct (cache_match q c).
Qed.


(** *** The cache storage *)

Lemma caches_match_update_hit q r f cs :
  caches_match q cs = None ->
  cache_match q (f (caches_get CACHE_NAME cs)) = Some r ->
  caches_match q (caches_update CACHE_NAME f cs) = Some r.
Proof.
  induction cs as [|[n c] cs IH]; simpl; intros Hmiss Hf.
  - now rewrite Hf.
  - destruct (cache_match q c) eqn:Ec; [discriminate|].
    destruct (String.eqb n CACHE_NAME); simpl.
    + now rewrite Hf.
    + rewrite Ec. apply IH; assumption.
Qed.

Lemma caches_get_update_same name f cs :
  caches_get name (caches_update name f cs) = f (caches_get name cs).
Proof.
  induction cs as [|[n c] cs IH]; simpl.
  - now rewrite String.eqb_refl.
  - destruct (String.eqb n name) eqn:E; simpl; rewrite E; [reflexivity|].
    exact IH.
Qed.

Lemma caches_get_update_other name name' f cs :
  name' <> name ->
  caches_get name' (caches_update name f cs) = caches_get name' cs.
Proof.
  intros Hne. induction cs as [|[n c] cs IH]; simpl.
  - apply String.eqb_neq in Hne. rewrite String.eqb_sym in Hne.
    now rewrite Hne.
  - destruct (String.eqb n name) eqn:E; simpl.
    + apply String.eqb_eq in E. subst n.
      assert (E' : String.eqb name name' = false).
      { apply String.eqb_neq. congruence. }
      now rewrite E'.
    + destruct (String.eqb n name'); [reflexivity|exact IH].
Qed.

(** *** The fetch listener *)

Lemma respond_same_origin origin network req cs :
  same_origin_get origin req ->
  respond origin network req cs =
    match caches_match req cs with
    | Some res => (RespondWith (Some res), [], None)
    | None =>
        match network req with
        | None => (RespondWith None, [fetch_effect req], None)
        | Some res =>
            if negb (status res =? 200)
            then (RespondWith (Some res), [fetch_effect req], None)
            else (RespondWith (Some res), [fetch_effect req],
                  Some (req, res))
        end
    end.
Proof. intros [Hm Ho]. unfold respond. rewrite Hm, Ho. reflexivity. Qed.

(** X24. The service worker answers same-origin GET requests from the
    cache first, and fills the cache as it goes.  A request that some
    cache matches is answered with the cached response, with no network
    access and no write.  One that no cache matches, and that the network
    answers with status 200, is answered with that response, and a
    [cache.put] of it is started that nothing waits for.  Once that put
    has completed, every request for the same resource (the same URL but
    for its fragment, the same headers) is answered from the cache with
    that very response without touching the network, whatever the
    network would say; a response with [Vary: *] is refused by the put
    and nothing is stored.  A response with another status, or a failed
    fetch, is passed on and no write is started. *)
Theorem X24_cache_first_and_fill :
  forall (origin : string) (network later : Network) (req : Request)
         (cs : CacheStorage),
    same_origin_get origin req ->
    (forall res, caches_match req cs = Some res ->
       respond origin network req cs = (RespondWith (Some res), [], None))
    /\ (forall res,
          caches_match req cs = None ->
          network req = Some res -> status res = 200 ->
          respond origin network req cs
          = (RespondWith (Some res), [fetch_effect req], Some (req, res))
          /\ (storable res = true ->
              forall again,
                same_resource again req -> same_origin_get origin again ->
                respond origin later again (complete_put (req, res) cs)
                = (RespondWith (Some res), [], None))
          /\ (storable res = false ->
              forall name, caches_get name (complete_put (req, res) cs)
                           = caches_get name cs))
    /\ (caches_match req cs = None ->
        (network req = None
         \/ exists res, network req = Some res /\ status res <> 200) ->
        respond origin network req cs
        = (RespondWith (network req), [fetch_effect req], None)).
Proof.
  intros origin network later req cs Hso. pose proof Hso as [Hm Ho].
  split; [|split].
  - intros res H. rewrite respond_same_origin by exact Hso. now rewrite H.
  - intros res Hmiss Hnet H200. split; [|split].
    + rewrite respond_same_origin by exact Hso. rewrite Hmiss, Hnet, H200.
      reflexivity.
    + intros Hs again Hsame Hso2.
      rewrite respond_same_origin by exact Hso2.
      rewrite (caches_match_same again req _ Hsame).
      unfold complete_put. cbn [fst snd].
      rewrite (caches_match_update_hit req res _ cs Hmiss);
        [reflexivity|].
      now apply put_then_match.
    + intros Hs name. unfold complete_put. cbn [fst snd].
      assert (K : forall c, put_or_keep req res c = c).
      { intros c. unfold put_or_keep, cache_put.
        now rewrite Hs, andb_false_r. }
      destruct (String.eqb name CACHE_NAME) eqn:E.
      * apply String.eqb_eq in E. subst name.
        now rewrite caches_get_update_same, K.
      * apply String.eqb_neq in E. now apply caches_get_update_other.
  - intros Hmiss Hbad. rewrite respond_same_origin by exact Hso.
    rewrite Hmiss.
    destruct Hbad as [Hn | (res & Hn & Hs)]; rewrite Hn; [reflexivity|].
    apply Z.eqb_neq in Hs. now rewrite Hs.
Qed.

Lemma X24_witness :
  respond ORIGIN offline
    (mkRequest "GET" (ORIGIN ++ "/index.html#top") [])
    (complete_put
       (mkRequest "GET" (ORIGIN ++ "/index.html") [],
        mkResponse 200 (ORIGIN ++ "/index.html") []) [])
  = (RespondWith (Some (mkResponse 200 (ORIGIN ++ "/index.html") [])),
     [], None).
Proof.
  destruct (X24_cache_first_and_fill ORIGIN echo offline
              (mkRequest "GET" (ORIGIN ++ "/index.html") []) [])
    as (_ & H & _).
  - split; reflexivity.
  - destruct (H (mkResponse 200 (ORIGIN ++ "/index.html") [])
                eq_refl eq_refl eq_refl) as (_ & Hput & _).
    apply Hput.
    + reflexivity.
    + split; [reflexivity|]. split; [reflexivity|]. intros name. reflexivity.
    + split; reflexivity.
Defined.


(** *** Activation *)

Lemma activate_get name cs :
  unique_names cs ->
  caches_get name (onactivate cs)
  = if String.eqb name CACHE_NAME then caches_get CACHE_NAME cs else [].
Proof.
  unfold unique_names, onactivate.
  induction cs as [|[n c] cs IH]; simpl; intros Hnd.
  - destruct (String.eqb name CACHE_NAME); reflexivity.
  - inversion Hnd as [|? ? Hn Hrest]; subst. specialize (IH Hrest).
    destruct (String.eqb n CACHE_NAME) eqn:En; simpl.
    + apply String.eqb_eq in En. subst n.
      destruct (String.eqb CACHE_NAME name) eqn:E1.
      * apply String.eqb_eq in E1. subst name.
        now rewrite String.eqb_refl.
      * rewrite IH. rewrite String.eqb_sym, E1. reflexivity.
    + exact IH.
Qed.

Lemma activate_match key cs :
  unique_names cs ->
  caches_match key (onactivate cs)
  = cache_match key (caches_get CACHE_NAME cs).
Proof.
  unfold unique_names, onactivate.
  induction cs as [|[n c] cs IH]; simpl; intros Hnd; [reflexivity|].
  inversion Hnd as [|? ? Hn Hrest]; subst. specialize (IH Hrest).
  destruct (String.eqb n CACHE_NAME) eqn:En; simpl; [|exact IH].
  apply String.eqb_eq in En. subst n.
  assert (E : filter (fun e : string * Cache => String.eqb (fst e) CACHE_NAME) cs
              = []).
  { clear IH Hnd Hrest. induction cs as [|[n' c'] cs IHc]; [reflexivity|].
    simpl in *. destruct (String.eqb n' CACHE_NAME) eqn:E'.
    - apply String.eqb_eq in E'. subst n'. exfalso. apply Hn. now left.
    - apply IHc. intros H. apply Hn. now right. }
  rewrite E. simpl. destruct (cache_match key c); reflexivity.
Qed.

(** X26. Activation throws away every cache of an older version and
    nothing of the current one: afterwards the current cache has the
    content it had, every other cache is gone, and a request can only be
    answered from the current cache (an entry that only an old cache
    held is no longer served). *)
Theorem X26_activate_keeps_exactly_the_current_cache :
  forall cs : CacheStorage,
    unique_names cs ->
    caches_get CACHE_NAME (onactivate cs) = caches_get CACHE_NAME cs
    /\ (forall name, name <> CACHE_NAME -> caches_get name (onactivate cs) = [])
    /\ Forall (fun e => fst e = CACHE_NAME) (onactivate cs)
    /\ (forall key, caches_match key (onactivate cs)
                    = cache_match key (caches_get CACHE_NAME cs))
    /\ onactivate (onactivate cs) = onactivate cs.
Proof.
  intros cs Hu. split; [|split; [|split; [|split]]].
  - rewrite activate_get by exact Hu. now rewrite String.eqb_refl.
  - intros name Hne. rewrite activate_get by exact Hu.
    apply String.eqb_neq in Hne. now rewrite Hne.
  - unfold onactivate. apply Forall_forall. intros e He.
    apply filter_In in He. destruct He as [_ He].
    now apply String.eqb_eq in He.
  - intros key. apply activate_match, Hu.
  - unfold onactivate. clear Hu. induction cs as [|[n c] cs IH];
      [reflexivity|].
    simpl. destruct (String.eqb n CACHE_NAME) eqn:E; simpl;
      [rewrite E, IH; reflexivity|exact IH].
Qed.

Lemma X26_witness :
  caches_match (mkRequest "GET" (ORIGIN ++ "/old.js") [])
    (onactivate [("workshop-ai-controller-cache-v2",
                  [(mkRequest "GET" (ORIGIN ++ "/old.js") [],
                    mkResponse 200 "old" [])]);
                 (CACHE_NAME, [])])
  = None.
Proof.
  destruct (X26_activate_keeps_exactly_the_current_cache
              [("workshop-ai-controller-cache-v2",
                [(mkRequest "GET" (ORIGIN ++ "/old.js") [],
                  mkResponse 200 "old" [])]);
               (CACHE_NAME, [])]) as (_ & _ & _ & H & _).
  - unfold unique_names. simpl. repeat constructor; simpl; intuition discriminate.
  - rewrite H. reflexivity.
Defined.

(** *** Installation *)

Lemma append_inj (p a b : string) : (p ++ a = p ++ b)%string -> a = b.
Proof.
  induction p as [|c p IH]; simpl; [auto|]. intros E. injection E as E.
  auto.
Qed.

Lemma prefix_append (p a : string) : String.prefix p (p ++ a) = true.
Proof.
  induction p as [|c p IH]; simpl; [now destruct a|].
  destruct (Ascii.ascii_dec c c); [exact IH|congruence].
Qed.

Lemma without_fragment_append (p a : string) :
  without_fragment p = p ->
  without_fragment (p ++ a) = (p ++ without_fragment a)%string.
Proof.
  induction p as [|c p IH]; simpl; [reflexivity|].
  destruct (Ascii.eqb c "#"); [discriminate|].
  intros E. injection E as E. now rewrite IH.
Qed.

Lemma urls_distinct : NoDup urlsToCache.
Proof. apply HexProps.distinct_NoDup. reflexivity. Qed.

Lemma urls_have_no_fragment :
  Forall (fun path => without_fragment path = path) urlsToCache.
Proof. repeat constructor. Qed.

(** Distinct paths of [urlsToCache] are distinct resources. *)
Lemma precache_urls_differ origin p q :
  without_fragment origin = origin ->
  In p urlsToCache -> In q urlsToCache -> p <> q ->
  without_fragment (url (precache_request origin p))
  <> without_fragment (url (precache_request origin q)).
Proof.
  intros Ho Hp Hq Hne. cbn [precache_request url].
  rewrite !without_fragment_append by exact Ho. intros E.
  apply append_inj in E.
  pose proof urls_have_no_fragment as F. rewrite Forall_forall in F.
  rewrite (F p Hp), (F q Hq) in E. contradiction.
Qed.

Lemma fetch_all_some origin network paths entries :
  fetch_all origin network paths = Some entries ->
  map fst entries = map (precache_request origin) paths
  /\ Forall (fun e => network (fst e) = Some (snd e)
                      /\ response_ok (status (snd e)) = true
                      /\ storable (snd e) = true) entries.
Proof.
  revert entries. induction paths as [|path rest IH]; simpl; intros entries H.
  - injection H as <-. split; [reflexivity|constructor].
  - destruct (network (precache_request origin path)) as [res|] eqn:En;
      [|discriminate].
    destruct (fetch_all origin network rest) as [more|]; [|discriminate].
    destruct (response_ok (status res)) eqn:Eok; [|discriminate].
    destruct (storable res) eqn:Est; [|discriminate]. simpl in H.
    injection H as <-. destruct (IH more eq_refl) as [Hk Hf]. split.
    + simpl. now rewrite Hk.
    + constructor; [simpl; auto|exact Hf].
Qed.

Lemma fetch_all_none origin network paths :
  fetch_all origin network paths = None ->
  exists path, In path paths
    /\ forall res, network (precache_request origin path) = Some res ->
                   response_ok (status res) && storable res = false.
Proof.
  induction paths as [|path rest IH]; simpl; [discriminate|]. intros H.
  destruct (network (precache_request origin path)) as [res|] eqn:En.
  - destruct (fetch_all origin network rest) as [more|].
    + destruct (response_ok (status res) && storable res) eqn:Eok;
        [discriminate|].
      exists path. split; [now left|]. intros r Hr. congruence.
    + destruct (IH eq_refl) as (q & Hq & Hbad). exists q. split; [now right|].
      exact Hbad.
  - exists path. split; [now left|]. intros r Hr. congruence.
Qed.

Lemma put_all_others q entries c :
  Forall (fun e => without_fragment (url q)
                   <> without_fragment (url (fst e))) entries ->
  cache_match q (put_all entries c) = cache_match q c.
Proof.
  unfold put_all. revert c.
  induction entries as [|[req res] rest IH]; simpl; intros c H;
    [reflexivity|].
  inversion H as [|? ? Hne Hrest]; subst. rewrite IH by exact Hrest.
  apply put_keeps_others. exact Hne.
Qed.

Lemma put_all_in req res entries c :
  Forall (fun e => method (fst e) = "GET" /\ storable (snd e) = true)
         entries ->
  NoDup (map (fun e => without_fragment (url (fst e))) entries) ->
  In (req, res) entries ->
  cache_match req (put_all entries c) = Some res.
Proof.
  unfold put_all. revert c.
  induction entries as [|[r0 s0] rest IH]; simpl; intros c Hv Hnd Hin;
    [contradiction|].
  inversion Hv as [|? ? [Hm Hs] Hvrest]; subst.
  inversion Hnd as [|? ? Hfresh Hndrest]; subst.
  destruct Hin as [E|Hin].
  - injection E as -> ->.
    fold (put_all rest (put_or_keep req res c)).
    rewrite put_all_others.
    + now apply put_then_match.
    + apply Forall_forall. intros e He E. apply Hfresh.
      apply in_map_iff. exists e. simpl in *. split; [now symmetry|exact He].
  - apply IH; assumption.
Qed.

Lemma update_in name f cs n :
  In n (map fst (caches_update name f cs)) -> n = name \/ In n (map fst cs).
Proof.
  induction cs as [|[m c] cs IH]; simpl.
  - intros [H|[]]; auto.
  - destruct (String.eqb m name); simpl; [auto|].
    intros [H|H]; [auto|]. destruct (IH H); auto.
Qed.

Lemma update_names name f cs :
  unique_names cs -> unique_names (caches_update name f cs).
Proof.
  unfold unique_names. induction cs as [|[m c] cs IH]; simpl; intros Hnd.
  - repeat constructor. intros [].
  - inversion Hnd as [|? ? Hm Hrest]; subst.
    destruct (String.eqb m name) eqn:E; simpl.
    + constructor; assumption.
    + constructor; [|apply IH, Hrest].
      intros Hn. apply update_in in Hn. destruct Hn as [Hn|Hn].
      * apply String.eqb_neq in E. contradiction.
      * contradiction.
Qed.

(** X27. Installation is all or nothing, and what it stores is what the
    application is served later.  It succeeds exactly when the network
    answers each of the ten precached paths with a response that is ok
    and that [cache.addAll] can store (its status is not 206, its [Vary]
    header has no [*]).  When it succeeds, the current cache answers a
    request for each of these paths with the response just fetched, and
    once the worker is activated a GET for the same resource (the path,
    with any fragment, and the headers of the precache request) is
    answered with that response without any use of the network.  When it
    fails, no cache has gained or lost an entry. *)
Theorem X27_install_precaches_all_paths_or_nothing :
  forall (origin : string) (network other : Network) (cs : CacheStorage),
    unique_names cs ->
    without_fragment origin = origin ->
    let cs1 := fst (oninstall origin network cs) in
    (snd (oninstall origin network cs) = true <->
     forall path, In path urlsToCache ->
       exists res, network (precache_request origin path) = Some res
                   /\ response_ok (status res) = true
                   /\ storable res = true)
    /\ (snd (oninstall origin network cs) = true ->
        forall path res q,
          In path urlsToCache ->
          network (precache_request origin path) = Some res ->
          same_resource q (precache_request origin path) ->
          String.prefix origin (url q) = true ->
          cache_match q (caches_get CACHE_NAME cs1) = Some res
          /\ onfetch origin other q (onactivate cs1)
             = (onactivate cs1, RespondWith (Some res), []))
    /\ (snd (oninstall origin network cs) = false ->
        forall name, caches_get name cs1 = caches_get name cs).
Proof.
  intros origin network other cs Hu Horigin cs1. unfold cs1, oninstall.
  destruct (fetch_all origin network urlsToCache) as [entries|] eqn:Ef;
    cbn [fst snd].
  - destruct (fetch_all_some _ _ _ _ Ef) as [Hk Hf].
    assert (Hin : forall path, In path urlsToCache ->
              exists res, In (precache_request origin path, res) entries
                /\ network (precache_request origin path) = Some res
                /\ response_ok (status res) = true
                /\ storable res = true).
    { intros path Hp.
      assert (Hm : In (precache_request origin path) (map fst entries)).
      { rewrite Hk. now apply in_map. }
      apply in_map_iff in Hm. destruct Hm as ([k r] & Ek & He).
      simpl in Ek. subst k. exists r. split; [exact He|].
      rewrite Forall_forall in Hf. exact (Hf _ He). }
    assert (Hvalid : Forall (fun e => method (fst e) = "GET"
                                      /\ storable (snd e) = true) entries).
    { apply Forall_forall. intros [k r] He.
      assert (Hm : In k (map fst entries)).
      { apply in_map_iff. exists (k, r). auto. }
      rewrite Hk in Hm. apply in_map_iff in Hm. destruct Hm as (path & <- & _).
      rewrite Forall_forall in Hf. destruct (Hf _ He) as (_ & _ & Hs).
      split; [reflexivity|exact Hs]. }
    assert (Hnd : NoDup (map (fun e => without_fragment (url (fst e)))
                             entries)).
    { rewrite <- (map_map fst (fun r => without_fragment (url r))), Hk.
      rewrite map_map.
      apply NoDup_map_NoDup_ForallPairs; [|apply urls_distinct].
      intros p q Hp Hq E. destruct (string_dec p q) as [|Hne]; [assumption|].
      exfalso. exact (precache_urls_differ origin p q Horigin Hp Hq Hne E). }
    split; [|split]; [| |discriminate].
    + split; [|reflexivity]. intros _ path Hp.
      destruct (Hin path Hp) as (res & _ & Hn & Hok & Hs). eauto.
    + intros _ path res q Hp Hn Hsame Hprefix.
      destruct (Hin path Hp) as (r & He & Hn' & _).
      assert (r = res) by congruence. subst r.
      assert (Hc : cache_match q
                     (caches_get CACHE_NAME
                        (caches_update CACHE_NAME (put_all entries) cs))
                   = Some res).
      { rewrite caches_get_update_same.
        rewrite (cache_match_same q _ _ Hsame).
        now apply put_all_in. }
      split; [exact Hc|].
      unfold onfetch, respond. destruct Hsame as (Hm & _). rewrite Hm.
      cbn [precache_request method]. rewrite Hprefix.
      cbn [String.eqb negb].
      rewrite activate_match by (apply update_names, Hu).
      rewrite Hc. reflexivity.
  - split; [|split].
    + split; [discriminate|]. intros Hall.
      destruct (fetch_all_none _ _ _ Ef) as (path & Hp & Hbad).
      destruct (Hall path Hp) as (res & Hn & Hok & Hs).
      specialize (Hbad res Hn). rewrite Hok, Hs in Hbad. discriminate.
    + discriminate.
    + intros _ name. destruct (String.eqb name CACHE_NAME) eqn:E.
      * apply String.eqb_eq in E. subst name.
        apply (caches_get_update_same CACHE_NAME (fun c => c)).
      * apply String.eqb_neq in E. now apply caches_get_update_other.
Qed.

Lemma X27_witness :
  onfetch ORIGIN offline
    (mkRequest "GET" (ORIGIN ++ "/manifest.json#icons") [])
    (onactivate (fst (oninstall ORIGIN echo [])))
  = (onactivate (fst (oninstall ORIGIN echo [])),
     RespondWith (Some (mkResponse 200 (ORIGIN ++ "/manifest.json") [])),
     []).
Proof.
  destruct (X27_install_precaches_all_paths_or_nothing ORIGIN echo offline [])
    as (_ & H & _).
  - constructor.
  - reflexivity.
  - apply (H eq_refl "/manifest.json").
    + simpl. tauto.
    + reflexivity.
    + split; [reflexivity|]. split; [reflexivity|]. intros name. reflexivity.
    + reflexivity.
Defined.

End ServiceWorkerProps.

(** ** The research assistant *)

Module ResearchProps.
Import Research.

Lemma questions_app l m :
  questions (l ++ [m])
  = questions l ++ (if is_user m then [text m] else []).
Proof.
  unfold questions. rewrite filter_app, map_app. simpl.
  destruct (is_user m); reflexivity.
Qed.

Lemma follow_app_user l q :
  role q = user -> answers_follow_questions l ->
  answers_follow_questions (l ++ [q]).
Proof.
  intros Hq Hl i m Hi Hm.
  destruct (Nat.lt_ge_cases i (List.length l)) as [Hlt|Hge].
  - rewrite nth_error_app1 in Hi by exact Hlt.
    destruct (Hl i m Hi Hm) as (j & p & -> & Hj & Hp).
    exists j, p. repeat split; auto.
    rewrite nth_error_app1 by lia. exact Hj.
  - rewrite nth_error_app2 in Hi by exact Hge.
    destruct (i - List.length l)%nat as [|k]; simpl in Hi.
    + injection Hi as <-. congruence.
    + destruct k; discriminate.
Qed.

Lemma follow_app_model older q a :
  role q = user -> answers_follow_questions (older ++ [q]) ->
  answers_follow_questions ((older ++ [q]) ++ [a]).
Proof.
  intros Hq Hl i m Hi Hm.
  destruct (Nat.lt_ge_cases i (List.length (older ++ [q]))) as [Hlt|Hge].
  - rewrite nth_error_app1 in Hi by exact Hlt.
    destruct (Hl i m Hi Hm) as (j & p & -> & Hj & Hp).
    exists j, p. repeat split; auto.
    rewrite nth_error_app1 by lia. exact Hj.
  - rewrite nth_error_app2 in Hi by exact Hge.
    destruct (i - List.length (older ++ [q]))%nat as [|k] eqn:Ek;
      simpl in Hi; [|destruct k; discriminate].
    rewrite length_app in *. simpl in *.
    exists (List.length older), q. repeat split; [lia| |exact Hq].
    rewrite nth_error_app1 by (rewrite length_app; simpl; lia).
    rewrite nth_error_app2 by lia. rewrite Nat.sub_diag. reflexivity.
Qed.

Lemma research_send_inv API_KEY x :
  loading (ui x) = false -> inv API_KEY x -> inv API_KEY (send API_KEY x).
Proof.
  intros Hl (Hk & Hr & Hn & Hf & Hi). rewrite Hl in Hi.
  unfold inv, send, handleSend_begin.
  destruct (String.eqb (trim (input (ui x))) "") eqn:Et; simpl.
  - destruct (Voice.no_key API_KEY); simpl; rewrite Hl;
      repeat split; auto.
  - destruct (Voice.no_key API_KEY) eqn:Ek; simpl.
    + rewrite Hl. repeat split; auto.
    + repeat split; auto.
      * rewrite questions_app. simpl. now rewrite Hr.
      * apply Forall_app. split; [exact Hn|]. constructor; [|constructor].
        simpl. intros _. now apply String.eqb_neq.
      * now apply follow_app_user.
      * exists (messages (ui x)), (mkMessage user (input (ui x)) None).
        simpl. rewrite Hi. auto.
Qed.

Lemma research_step_inv API_KEY x e : inv API_KEY x -> inv API_KEY (step API_KEY x e).
Proof.
  intros H. destruct e as [value| | |r]; simpl.
  - destruct (input_disabled (ui x)); [exact H|].
    destruct H as (Hk & Hr & Hn & Hf & Hi). unfold inv; simpl. auto.
  - destruct (input_disabled (ui x)); [exact H|].
    destruct (loading (ui x)) eqn:El; [exact H|]. now apply research_send_inv.
  - unfold button_disabled.
    destruct (loading (ui x)) eqn:El; [exact H|]. simpl.
    destruct (_ || _); [exact H|]. now apply research_send_inv.
  - destruct H as (Hk & Hr & Hn & Hf & Hi).
    destruct (inflight x) as [|c rest] eqn:Ei.
    { unfold inv. rewrite Ei. auto. }
    destruct (loading (ui x)) eqn:El; [|discriminate].
    destruct Hi as (older & q & Hm & Hq & Hc). injection Hc as -> ->.
    destruct r as [answer chunks|]; unfold inv; simpl.
    + repeat split; auto.
      * rewrite questions_app. simpl. now rewrite app_nil_r.
      * apply Forall_app. split; [exact Hn|]. constructor; [|constructor].
        simpl. discriminate.
      * rewrite Hm in *. now apply follow_app_model.
    + repeat split; auto.
Qed.

Lemma research_run_inv API_KEY es x : inv API_KEY x -> inv API_KEY (run API_KEY es x).
Proof.
  unfold run. revert x. induction es as [|e es IH]; simpl; intros x H;
    [exact H|]. apply IH, research_step_inv, H.
Qed.

Lemma mounted_inv API_KEY : inv API_KEY (mounted API_KEY).
Proof.
  unfold inv; simpl. repeat split; auto. intros [|i] m Hi; discriminate.
Qed.

Lemma unavailable_step API_KEY x e :
  isKeyAvailable (ui x) = false -> messages (ui x) = [] -> inflight x = [] ->
  requested x = [] ->
  let y := step API_KEY x e in
  isKeyAvailable (ui y) = false /\ messages (ui y) = [] /\ inflight y = []
  /\ requested y = [].
Proof.
  intros Hk Hm Hi Hr. destruct e as [value| | |r]; simpl.
  - unfold input_disabled. rewrite Hk, orb_true_r. auto.
  - unfold input_disabled. rewrite Hk, orb_true_r. auto.
  - unfold button_disabled. rewrite Hk, !orb_true_r. auto.
  - rewrite Hi. auto.
Qed.

Lemma unavailable_run API_KEY es x :
  isKeyAvailable (ui x) = false -> messages (ui x) = [] -> inflight x = [] ->
  requested x = [] ->
  let y := run API_KEY es x in
  isKeyAvailable (ui y) = false /\ messages (ui y) = [] /\ inflight y = []
  /\ requested y = [].
Proof.
  revert x. induction es as [|e es IH]; simpl; intros x Hk Hm Hi Hr; [auto|].
  destruct (unavailable_step API_KEY x e Hk Hm Hi Hr) as (A & B & C & D).
  now apply IH.
Qed.

(** X28. The conversation of the research assistant stays well formed
    through any sequence of typing, Enter, clicks on the send button and
    settling requests: the requests made are exactly the questions shown,
    in order, one request per question; no question is blank; every
    answer shown comes directly after a question; at most one request is
    in flight, and [loading] says whether one is; and when no API key is
    configured nothing is ever asked or shown. *)
Theorem X28_conversation_pairs_requests_questions_and_answers :
  forall (API_KEY : option string) (es : list Event),
    let x := run API_KEY es (mounted API_KEY) in
    requested x = questions (messages (ui x))
    /\ Forall (fun m => role m = user -> trim (text m) <> "")
              (messages (ui x))
    /\ answers_follow_questions (messages (ui x))
    /\ List.length (inflight x) = (if loading (ui x) then 1 else 0)%nat
    /\ (Voice.no_key API_KEY = true ->
        requested x = [] /\ messages (ui x) = []).
Proof.
  intros API_KEY es x.
  destruct (research_run_inv API_KEY es _ (mounted_inv API_KEY))
    as (Hk & Hr & Hn & Hf & Hi). fold x in Hk, Hr, Hn, Hf, Hi.
  split; [exact Hr|]. split; [exact Hn|]. split; [exact Hf|]. split.
  - destruct (loading (ui x)).
    + destruct Hi as (_ & q & _ & _ & ->). reflexivity.
    + now rewrite Hi.
  - intros Hno. unfold x.
    destruct (unavailable_run API_KEY es (mounted API_KEY)) as (_ & B & _ & D);
      simpl; auto.
    now rewrite Hno.
Qed.

End ResearchProps.

(** ** The API key of the application *)

Module AppProps.
Import App.

Lemma loaded_inv stored : page_inv stored (loaded stored).
Proof.
  unfold page_inv, loaded, onmount, fresh; simpl.
  destruct stored as [k|]; simpl.
  - destruct (String.eqb k "") eqn:E; simpl.
    + repeat split; auto; try discriminate; try congruence.
    + apply String.eqb_neq in E.
      repeat split; auto; try discriminate; try congruence.
  - repeat split; auto; try discriminate; try congruence.
Qed.

Lemma page_step_inv stored x e : page_inv stored x -> page_inv stored (step x e).
Proof.
  intros (Hm & Hk & Hs & Hv & Hf). destruct e as [value| |valid]; simpl.
  - destruct (showKeyModal (ui x) && negb (isVerifyingKey (ui x)));
      unfold page_inv; simpl; auto.
  - destruct (showKeyModal (ui x)) eqn:Es; [|unfold page_inv; rewrite Es; auto].
    unfold handleSubmit.
    destruct (String.eqb (trim (key (ui x))) "") eqn:Et; simpl;
      [unfold page_inv; rewrite Es; auto|].
    destruct (isVerifyingKey (ui x)) eqn:Ev; simpl;
      [unfold page_inv; rewrite Es, Ev; auto|].
    apply String.eqb_neq in Et. unfold page_inv; simpl. rewrite Es.
    split; [exact Hm|]. split; [exact Hk|]. split; [exact Hs|]. split.
    + intros k E. injection E as <-. split; [exact Et|]. now exists (key (ui x)).
    + split; [discriminate|reflexivity].
  - destruct (validating x) as [k|] eqn:Eg;
      [|unfold page_inv; rewrite Eg; auto].
    destruct (Hv k eq_refl) as [Hne Htyped].
    destruct valid; unfold page_inv; simpl.
    + split; [split; discriminate|]. split.
      { intros k' E. injection E as <-. auto. }
      split; [right; exists k; split; [reflexivity|split; assumption]|].
      split; [discriminate|]. split; [discriminate|congruence].
    + split; [exact Hm|]. split; [exact Hk|]. split; [exact Hs|].
      split; [discriminate|]. split; [discriminate|congruence].
Qed.

Lemma page_run_inv stored es x : page_inv stored x -> page_inv stored (run es x).
Proof.
  unfold run. revert x. induction es as [|e es IH]; simpl; intros x H;
    [exact H|]. apply IH, page_step_inv, H.
Qed.

(** X29. The key modal and the stored key.  After the page has loaded,
    and through any sequence of typing into the modal, submitting it and
    validations settling: the modal is shown exactly while the
    application has no key; a key the application uses is not empty and
    is the one in local storage; local storage is either untouched or
    holds a non-empty, trimmed key that was submitted; and a page loaded
    later from that storage starts with the key in use, without the
    modal, whenever the application has a key now. *)
Theorem X29_modal_is_shown_until_a_validated_key_is_stored :
  forall (stored : option string) (es : list Event),
    let x := run es (loaded stored) in
    (showKeyModal (ui x) = true <-> apiKey (ui x) = None)
    /\ (forall k, apiKey (ui x) = Some k ->
          localStorage (ui x) = Some k /\ k <> ""
          /\ apiKey (ui (loaded (localStorage (ui x)))) = Some k
          /\ showKeyModal (ui (loaded (localStorage (ui x)))) = false)
    /\ (localStorage (ui x) = stored
        \/ exists k, localStorage (ui x) = Some k /\ submittable k).
Proof.
  intros stored es x.
  destruct (page_run_inv stored es _ (loaded_inv stored)) as (Hm & Hk & Hs & _).
  fold x in Hm, Hk, Hs. split; [exact Hm|]. split; [|exact Hs].
  intros k E. destruct (Hk k E) as [Hl Hne]. split; [exact Hl|].
  split; [exact Hne|]. rewrite Hl. unfold loaded, onmount, fresh; simpl.
  apply String.eqb_neq in Hne. rewrite Hne. simpl. auto.
Qed.

End AppProps.

(** ** The image analyzer *)

Module AnalyzerProps.
Import Analyzer.

Lemma analyzer_receive_app env k a b s :
  receive env k (a ++ b) s
  = let '(s1, es1, rs1) := receive env k a s in
    let '(s2, es2, rs2) := receive env k b s1 in
    (s2, es1 ++ es2, rs1 ++ rs2).
Proof.
  revert s. induction a as [|m a IH]; intros s; cbn [receive app].
  - destruct (receive env k b s) as [[s2 es2] rs2]. reflexivity.
  - destruct (session_onmessage env k m s) as [[s1 es1] rs1].
    rewrite IH. destruct (receive env k a s1) as [[s2 es2] rs2].
    destruct (receive env k b s2) as [[s3 es3] rs3].
    now rewrite !app_assoc.
Qed.

Lemma analyzer_receive_fragments env k ts s :
  exists live,
    receive env k (map VoiceLog.fragment ts) s
    = (mkState (image s) (imageMimeType s) (prompt s) (analysis s)
               (loading s) (error s) (isListening s) live
               (transcriptRef s ++ String.concat "" ts)
               (sessionPromise s) (mediaStream s) (audioContext s)
               (scriptProcessor s) (mediaStreamSource s), [], []).
Proof.
  revert s. induction ts as [|t ts IH]; intros s.
  - exists (liveTranscript s). simpl. rewrite VoiceLogProps.append_empty_r.
    now destruct s.
  - cbn [map receive]. unfold session_onmessage. cbn [VoiceLog.fragment
      VoiceLog.inputTranscription VoiceLog.turnComplete].
    destruct (IH (set_transcript (transcriptRef s ++ t) s)) as [live E].
    rewrite E. exists live. rewrite VoiceLogProps.concat_cons.
    unfold set_transcript. cbn [image imageMimeType prompt analysis loading
      error isListening transcriptRef sessionPromise mediaStream audioContext
      scriptProcessor mediaStreamSource app].
    now rewrite ScannerExtra.string_app_assoc.
Qed.

Lemma has_image_request env k final s :
  final <> "" -> has_image env = true -> Voice.no_key k = false ->
  analyzeImage_begin env k (Some final) s
  = (set_result "" true "" s,
     [mkRequest (image_data env) (mime_of env) final]).
Proof.
  unfold has_image, present, analyzeImage_begin, image_data, mime_of.
  intros Hf Hi Hk. apply String.eqb_neq in Hf. rewrite Hf.
  destruct (r_image env) as [img|]; [|discriminate].
  destruct (r_imageMimeType env) as [mime|];
    [|rewrite andb_false_r in Hi; discriminate].
  apply andb_true_iff in Hi. destruct Hi as [Hi Hm].
  apply negb_true_iff in Hi, Hm. rewrite Hi, Hm, Hf, Hk. reflexivity.
Qed.

Lemma no_image_no_request env k final s :
  has_image env = false ->
  analyzeImage_begin env k (Some final) s = (set_error upload_msg s, []).
Proof.
  unfold has_image, present, analyzeImage_begin. intros Hi.
  destruct (r_image env) as [img|]; [|reflexivity].
  destruct (r_imageMimeType env) as [mime|]; [|reflexivity].
  apply andb_false_iff in Hi. destruct Hi as [Hi|Hi];
    apply negb_false_iff in Hi; rewrite Hi; [reflexivity|].
  now rewrite !orb_true_r.
Qed.

Lemma trim_nonempty (t : string) : trim t <> "" -> t <> "".
Proof. intros H E. subst t. apply H. reflexivity. Qed.

(** A spoken turn, heard by a session that a render with
    [isListening = false] started. *)
Lemma turn_facts env k ts s :
  r_isListening env = false -> Voice.no_key k = false ->
  let final := (transcriptRef s ++ String.concat "" ts)%string in
  trim final <> "" ->
  exists s1,
    receive env k (turn ts) s
    = (s1, [],
       if has_image env
       then [mkRequest (image_data env) (mime_of env) final] else [])
    /\ prompt s1 = final /\ transcriptRef s1 = final
    /\ isListening s1 = isListening s
    /\ sessionPromise s1 = sessionPromise s
    /\ mediaStream s1 = mediaStream s
    /\ (has_image env = false -> error s1 = upload_msg)
    /\ (has_image env = true -> loading s1 = true).
Proof.
  intros Hl Hk final Hf. unfold turn. rewrite analyzer_receive_app.
  destruct (analyzer_receive_fragments env k ts s) as [live E]. rewrite E.
  fold final. cbn [receive]. unfold session_onmessage.
  cbn [VoiceLog.end_of_turn VoiceLog.inputTranscription VoiceLog.turnComplete
       transcriptRef].
  rewrite Hl. cbn [stopConversation negb].
  apply String.eqb_neq in Hf. rewrite Hf. cbn [negb].
  apply String.eqb_neq in Hf. apply trim_nonempty in Hf.
  destruct (has_image env) eqn:Hi.
  - rewrite (has_image_request env k final _ Hf Hi Hk).
    eexists. split; [reflexivity|]. cbn. repeat split; auto. discriminate.
  - rewrite (no_image_no_request env k final _ Hi).
    eexists. split; [reflexivity|]. cbn. repeat split; auto. discriminate.
Qed.

(** X30. A spoken prompt.  In a voice session of the image analyzer
    (started, as it must be, from a render that was not listening, with
    an API key), a turn whose words are not blank becomes the prompt and
    is sent at once for analysis together with the image that was shown
    when the session started: its MIME type and the part of its data URL
    after the comma.  If no image was shown then, nothing is sent and
    the upload message is displayed.  The end of the turn does not end
    the session: it releases nothing and the component is still
    listening, and the words heard are kept, so that the request of the
    next turn starts with the words of this one. *)
Theorem X30_spoken_turn_is_analysed_and_session_stays_open :
  forall (API_KEY : option string) (env : Render) (s0 : State)
         (first second : list string),
    r_isListening env = false -> Voice.no_key API_KEY = false ->
    trim (String.concat "" first) <> "" ->
    trim (String.concat "" first ++ String.concat "" second) <> "" ->
    let started := fst (startConversation env API_KEY s0) in
    let after1 := receive env API_KEY (turn first) started in
    let after2 := receive env API_KEY (turn second) (fst (fst after1)) in
    prompt (fst (fst after1)) = String.concat "" first
    /\ snd after1
       = (if has_image env
          then [mkRequest (image_data env) (mime_of env)
                          (String.concat "" first)]
          else [])
    /\ (has_image env = false -> error (fst (fst after1)) = upload_msg)
    /\ snd (fst after1) = []
    /\ isListening (fst (fst after1)) = true
    /\ sessionPromise (fst (fst after1)) = true
    /\ snd after2
       = (if has_image env
          then [mkRequest (image_data env) (mime_of env)
                          (String.concat "" first ++ String.concat "" second)]
          else []).
Proof.
  intros API_KEY env s0 first second Hl Hk H1 H2 started after1 after2.
  assert (Hs : transcriptRef started = "" /\ isListening started = true
               /\ sessionPromise started = true).
  { unfold started, startConversation. rewrite Hl, Hk. cbn. auto. }
  destruct Hs as (Ht & Hli & Hsp).
  destruct (turn_facts env API_KEY first started Hl Hk) as (s1 & E1 & F1).
  { rewrite Ht. exact H1. }
  rewrite Ht in E1, F1. cbn [String.append] in E1, F1.
  destruct F1 as (Hp & Hr & Hi & Hse & _ & He & _).
  destruct (turn_facts env API_KEY second s1 Hl Hk) as (s2 & E2 & _).
  { rewrite Hr. exact H2. }
  unfold after2, after1. rewrite E1. cbn [fst snd]. rewrite E2. cbn [fst snd].
  rewrite Hr. repeat split; auto; congruence.
Qed.

Lemma X30_witness :
  snd (receive (mkRender (Some "data:image/png;base64,iVBORw0KGgo=")
                         (Some "image/png") "Describe this image in detail."
                         false)
               (Some "key") (turn ["what is "; "this?"])
               (fst (startConversation
                       (mkRender (Some "data:image/png;base64,iVBORw0KGgo=")
                                 (Some "image/png")
                                 "Describe this image in detail." false)
                       (Some "key") initial)))
  = [mkRequest (Some "iVBORw0KGgo=") "image/png" "what is this?"].
Proof.
  assert (H1 : trim (String.concat "" ["what is "; "this?"]) <> "")
    by (vm_compute; discriminate).
  assert (H2 : trim (String.concat "" ["what is "; "this?"]
                     ++ String.concat "" [" and that?"]) <> "")
    by (vm_compute; discriminate).
  exact (proj1 (proj2
           (X30_spoken_turn_is_analysed_and_session_stays_open
              (Some "key")
              (mkRender (Some "data:image/png;base64,iVBORw0KGgo=")
                        (Some "image/png") "Describe this image in detail."
                        false)
              initial ["what is "; "this?"] [" and that?"]
              eq_refl eq_refl H1 H2))).
Defined.

End AnalyzerProps.
